(** * Light-wallet server: account state, packed output flags, scanner

    A shallow embedding of the parts of [src/light_wallet_server] that the
    specification's testable properties talk about:

    - [db/data.h]      : [extra], [pack], [unpack], the row structs;
    - [account.cpp]    : the in-memory [lws::account], [add_out], [check_spends];
    - [scanner.cpp]    : [mzmq::wait], [scan_transaction], the head of
                         [scan_loop], [sync_chain];
    - [rest_server.cpp]: [key_check], [is_hidden], [get_unspent_outs].

    Fixed-width integers are [Z] with the wrap-around written out; 32-byte
    keys and hashes are [Z] as well (only equality is ever used on them).
    Fallible calls return [expect]; C++ exceptions are the [Throw] outcome. *)

From Stdlib Require Import String.
From Stdlib Require Import ZArith List Bool Lia.
From Stdlib Require Import Sorting.Sorted.
Import ListNotations.

Local Open Scope Z_scope.

(** ** Machine integers *)

Definition u8  (z : Z) : Z := z mod 2 ^ 8.
Definition u32 (z : Z) : Z := z mod 2 ^ 32.
Definition u64 (z : Z) : Z := z mod 2 ^ 64.

Definition u32_max : Z := 2 ^ 32 - 1.

(** [std::size_t] of a container. *)
Definition size {A : Type} (l : list A) : Z := Z.of_nat (length l).

(** ** Outcomes *)

(** [lws::error] of [error.h]. *)
Inductive lws_error : Type :=
| kAbortScan
| kAccountExists
| kBadAddress
| kBadViewKey
| kBadBlockchain
| kBlockchainReorg
| kCreateQueueMax
| kDaemonConnectionFailure
| kDuplicateRequest
| kExceededBlockchainBuffer
| kNoSuchAccount
| kSystemClockInvalidRange.

(** A [std::error_code]: one of the server's own, a [mzmq::error] carrying
    the errno, or one raised by a collaborator (storage, JSON, crypto). *)
Inductive error_code : Type :=
| lws_code (e : lws_error)
| mzmq_code (errno : Z)
| other_code (n : Z).

(** [expect<T>]. *)
Inductive expect (T : Type) : Type :=
| success (v : T)
| failure (e : error_code).
Arguments success {T} v.
Arguments failure {T} e.

(** What a C++ [throw] carries, as far as the scanner distinguishes it. *)
Inductive exception : Type :=
| runtime_error (what : string)
| out_of_range
| bad_numeric_cast
| system_error (e : error_code).

Inductive result (T : Type) : Type :=
| Ok (v : T)
| Throw (e : exception).
Arguments Ok {T} v.
Arguments Throw {T} e.

(** [boost::numeric_cast<std::uint32_t>] of a non-negative [std::size_t]. *)
Definition numeric_cast_u32 (z : Z) : result Z :=
  if z <=? u32_max then Ok z else Throw bad_numeric_cast.

(** ** [db/data.h] *)

Module db.

Definition account_id := Z.
Definition account_time := Z.
Definition block_id := Z.
Definition output_id := Z.
Definition public_key := Z.
Definition hash := Z.
Definition key_image := Z.

Inductive account_status : Type := kActive | kInactive | kHidden.

Record account_address : Type := {
  spend_public : public_key;
  view_public : public_key
}.

Module account.
Record t : Type := {
  id : account_id;
  access : account_time;
  address : account_address;
  key : Z;
  scan_height : block_id;
  start_height : block_id;
  creation : account_time
}.
End account.

(** [enum class extra : std::uint8_t]: a byte, with four named values. *)
Definition extra := Z.
Definition kNone : extra := 0.
Definition kCoinbase : extra := 1.
Definition kRingct : extra := 2.
Definition kCoinbaseAndRingct : extra := 3.

Definition extra_values : list extra :=
  [kNone; kCoinbase; kRingct; kCoinbaseAndRingct].

Definition extra_and_length := Z.

(** The [assert(length <= 32)] at the head of [pack]. *)
Definition pack_assert (length : Z) : Prop := 0 <= length <= 32.

(** [(std::uint8_t(val) & 0x7) | (length << 3)], narrowed to the one-byte
    [extra_and_length]. *)
Definition pack (val : extra) (length : Z) : extra_and_length :=
  u8 (Z.lor (Z.land (u8 val) 7) (Z.shiftl length 3)).

Definition unpack (val : extra_and_length) : extra * Z :=
  let real_val := u8 val in
  (Z.land real_val 7, u8 (Z.shiftr real_val 3)).

Inductive payment_id_ : Type :=
| pid_zero
| pid_short (h : Z)
| pid_long (h : hash).

Module output.
Record t : Type := {
  height : block_id;
  id : output_id;
  amount : Z;
  timestamp : Z;
  unlock_time : Z;
  mixin_count : Z;
  index : Z;
  tx_hash : hash;
  tx_prefix_hash : hash;
  tx_public : public_key;
  ringct_mask : Z;
  extra : extra_and_length;
  payment_id : payment_id_
}.
End output.

Module spend.
Record t : Type := {
  image : key_image;
  mixin_count : Z
}.
End spend.

End db.

(** ** [<algorithm>] on a sorted [std::vector<output_id>] *)

(** [std::lower_bound]: the halving loop over [[first, first + len)]. *)
Fixpoint lower_bound_loop (fuel : nat) (v : list Z) (val : Z) (first len : nat) : nat :=
  match fuel with
  | O => first
  | S fuel' =>
      match len with
      | O => first
      | _ =>
          let half := Nat.div2 len in
          let middle := (first + half)%nat in
          if nth middle v 0 <? val
          then lower_bound_loop fuel' v val (middle + 1)%nat (len - half - 1)%nat
          else lower_bound_loop fuel' v val first half
      end
  end.

Definition lower_bound (v : list Z) (val : Z) : nat :=
  lower_bound_loop (length v) v val 0%nat (length v).

(** [std::binary_search]: [i != last && !(val < *i)]. *)
Definition binary_search (v : list Z) (val : Z) : bool :=
  let i := lower_bound v val in
  (i <? length v)%nat && negb (val <? nth i v 0).

(** [std::vector::insert(pos, x)]. *)
Definition vector_insert (v : list Z) (pos : nat) (x : Z) : list Z :=
  firstn pos v ++ x :: skipn pos v.

(** [std::sort] (any sorting algorithm yields the same vector of integers). *)
Fixpoint sort_insert (x : Z) (v : list Z) : list Z :=
  match v with
  | [] => [x]
  | y :: v' => if x <=? y then x :: y :: v' else y :: sort_insert x v'
  end.

Definition std_sort (v : list Z) : list Z := fold_right sort_insert [] v.

(** Move construction of a [std::vector]: the target takes the elements and
    the source is left empty. *)
Definition vector_move {A : Type} (src : list A) : list A * list A := (src, []).

(** ** [account.cpp] *)

Module lws.

(** [account::internal], the immutable part. *)
Record internal : Type := {
  id : db.account_id;
  pubs : db.account_address;
  view_key : Z
}.

Definition make_internal (source : db.account.t) : internal :=
  {| id := db.account.id source;
     pubs := db.account.address source;
     view_key := db.account.key source |}.

Record account : Type := {
  immutable : internal;
  received_ : list db.output_id;
  spends_ : list (db.output_id * db.spend.t);
  outputs_ : list db.output.t;
  height : db.block_id
}.

Definition scan_height (self : account) : db.block_id := height self.
Definition spend_public (self : account) : db.public_key :=
  db.spend_public (pubs (immutable self)).
Definition view_public (self : account) : db.public_key :=
  db.view_public (pubs (immutable self)).

(** The private constructor
    [account(std::shared_ptr<const internal>, block_id, std::vector<output_id>)]. *)
Definition account_init (imm : internal) (height : db.block_id)
    (received_ : list db.output_id) : account :=
  {| immutable := imm;
     received_ := received_;
     spends_ := [];
     outputs_ := [];
     height := height |}.

(** [account::account(db::account const& source, std::vector<output_id> received_)].
    The parameter is named like the member and hides it: the delegated
    constructor receives the moved parameter, and the body's [std::sort]
    runs on what is left of the parameter.  The pair returned is the
    constructed object and the parameter at the end of the body. *)
Definition account_construct (source : db.account.t)
    (received_ : list db.output_id) : account * list db.output_id :=
  let '(moved, received_) := vector_move received_ in
  let this := account_init (make_internal source) (db.account.scan_height source) moved in
  let received_ := std_sort received_ in
  (this, received_).

Definition account_of (source : db.account.t) (received_ : list db.output_id) : account :=
  fst (account_construct source received_).

Definition clone (self : account) : account :=
  let result := account_init (immutable self) (height self) (received_ self) in
  {| immutable := immutable result;
     received_ := received_ result;
     spends_ := spends_ self;
     outputs_ := outputs_ self;
     height := height result |}.

Definition updated (self : account) (new_height : db.block_id) : account :=
  {| immutable := immutable self;
     received_ := received_ self;
     spends_ := [];
     outputs_ := [];
     height := new_height |}.

Definition add_out (self : account) (out : db.output.t) : account :=
  {| immutable := immutable self;
     received_ :=
       vector_insert (received_ self)
         (lower_bound (received_ self) (db.output.id out)) (db.output.id out);
     spends_ := spends_ self;
     outputs_ := outputs_ self ++ [out];
     height := height self |}.

(** One iteration of the [for (offset : new_spends)] loop of
    [check_spends]; the loop state is the running [id] and the object. *)
Definition check_spend (image : db.key_image) (mixin : Z)
    (st : Z * account) (offset : Z) : Z * account :=
  let '(id, self) := st in
  let id := u64 (id + offset) in
  if binary_search (received_ self) id
  then (id,
        {| immutable := immutable self;
           received_ := received_ self;
           spends_ := spends_ self
                      ++ [(id, {| db.spend.image := image; db.spend.mixin_count := mixin |})];
           outputs_ := outputs_ self;
           height := height self |})
  else (id, self).

Definition check_spends (self : account) (image : db.key_image)
    (new_spends : list Z) : result account :=
  match numeric_cast_u32 (Z.max 1 (size new_spends) - 1) with
  | Throw e => Throw e
  | Ok mixin => Ok (snd (fold_left (check_spend image mixin) new_spends (0, self)))
  end.

End lws.

(** ** [scanner.cpp]: the socket wait helper *)

Module mzmq.

Definition EINTR : Z := 4.
Definition EAGAIN : Z := 11.

(** What the two polled sockets would do if left alone: after [after]
    milliseconds [zmq_poll] would return [ready] (with [zmq_errno() = errno]
    when negative), [parent_revents] telling whether the parent (cancel)
    socket fired. *)
Record poll_event : Type := {
  after : Z;
  ready : Z;
  errno : Z;
  parent_revents : bool
}.

(** [zmq_poll(items, 2, timeout)]: a non-negative timeout that runs out
    before the event makes the call return 0; a negative one waits for the
    event.  The result is the time spent in the call and its return value. *)
Definition zmq_poll (ev : poll_event) (timeout : Z) : Z * Z :=
  if (0 <=? timeout) && (timeout <=? after ev)
  then (timeout, 0)
  else (after ev, ready ev).

(** The state of [wait] as it runs: the steady clock, the [timeout]
    variable, and the timeouts handed to [zmq_poll] so far. *)
Record wait_state : Type := {
  now : Z;
  timeout : Z;
  polled : list Z
}.

(** [wait]: one [poll_event] is consumed per iteration of the [for (;;)];
    [None] means the events ran out with the loop still polling.  The
    clock counts milliseconds, so the [duration_cast] is exact. *)
Fixpoint wait_loop (events : list poll_event) (st : wait_state)
  : wait_state * option (expect unit) :=
  match events with
  | [] => (st, None)
  | ev :: events' =>
      let start := now st in
      let '(elapsed, ready) := zmq_poll ev (timeout st) in
      let end_ := start + elapsed in
      let spent := start - end_ in
      let st' := {| now := end_;
                    timeout := timeout st - Z.min spent (timeout st);
                    polled := polled st ++ [timeout st] |} in
      if ready =? 0 then (st', Some (failure (lws_code kDaemonConnectionFailure)))
      else if 0 <? ready then
        (st', Some (if parent_revents ev
                    then failure (lws_code kAbortScan)
                    else success tt))
      else if negb (errno ev =? EINTR) then (st', Some (failure (mzmq_code (errno ev))))
      else wait_loop events' st'
  end.

Definition wait (events : list poll_event) (start timeout : Z)
  : wait_state * option (expect unit) :=
  wait_loop events {| now := start; timeout := timeout; polled := [] |}.

(** What [mzmq::send] does as seen by its caller. *)
Inductive send_outcome : Type :=
| sent
| send_aborted
| send_threw (e : error_code).

End mzmq.

(** ** The transactions the daemon ships *)

Module rct.

Module ctkey.
Record t : Type := {
  dest : Z;
  mask : Z
}.
End ctkey.

Module ecdhTuple.
Record t : Type := {
  mask : Z;
  amount : Z
}.
End ecdhTuple.

Record rctSig : Type := {
  outPk : list ctkey.t;
  ecdhInfo : list ecdhTuple.t
}.

End rct.

Module cryptonote.

Inductive txin_v : Type :=
| txin_gen (height : Z)
| txin_to_script
| txin_to_scripthash
| txin_to_key (amount : Z) (key_offsets : list Z) (k_image : db.key_image).

Inductive txout_target_v : Type :=
| txout_to_script
| txout_to_scripthash
| txout_to_key (key : db.public_key).

Record tx_out : Type := {
  amount : Z;
  target : txout_target_v
}.

Record transaction : Type := {
  version : Z;
  unlock_time : Z;
  vin : list txin_v;
  vout : list tx_out;
  extra : list Z;
  rct_signatures : rct.rctSig
}.

Record block : Type := {
  timestamp : Z;
  miner_tx : transaction;
  tx_hashes : list db.hash
}.

Record block_complete_entry : Type := {
  block_ : block;
  transactions : list transaction
}.

End cryptonote.

(** The primitives of the full-node libraries that the server calls; each
    C++ function that returns [bool] and fills an out-parameter is an
    [option] here. *)
Class primitives : Type := {
  secret_key_to_public_key : Z -> option db.public_key;
  generate_key_derivation : db.public_key -> Z -> option Z;
  derive_public_key : Z -> Z -> db.public_key -> option db.public_key;
  get_transaction_prefix_hash : cryptonote.transaction -> db.hash;
  get_transaction_hash : cryptonote.transaction -> option db.hash;
  decode_amount : Z -> rct.ecdhTuple.t -> Z -> Z -> option (Z * Z);
  (** [parse_tx_extra] followed by [find_tx_extra_field_by_type] *)
  find_tx_extra_pub_key : list Z -> option db.public_key;
  find_tx_extra_nonce : list Z -> option (list Z);
  get_payment_id_from_tx_extra_nonce : list Z -> option db.hash;
  get_encrypted_payment_id_from_tx_extra_nonce : list Z -> option Z
}.

(** ** [scanner.cpp]: [scan_transaction] *)

Module scanner.

(** The three lazily filled locals of [scan_transaction] that outlive the
    per-user loop. *)
Record tx_cache : Type := {
  prefix_hash : option db.hash;
  tx_hash : option db.hash;
  payment_id : option (Z * db.payment_id_)
}.

(** The state of the per-output loop for one user. *)
Record out_state : Type := {
  user : lws.account;
  ext : db.extra;
  cache : tx_cache
}.

Definition sizeof_hash : Z := 32.
Definition sizeof_hash8 : Z := 8.

(** [for (auto const& in : tx.vin)]: the state is [ring_size] and the user;
    a throwing [check_spends] leaves both as they were. *)
Fixpoint scan_inputs (vin : list cryptonote.txin_v) (ring_size : Z) (user : lws.account)
  : Z * lws.account * option exception :=
  match vin with
  | [] => (ring_size, user, None)
  | cryptonote.txin_to_key _ key_offsets k_image :: vin' =>
      let ring_size := size key_offsets in
      match lws.check_spends user k_image key_offsets with
      | Throw e => (ring_size, user, Some e)
      | Ok user' => scan_inputs vin' ring_size user'
      end
  | _ :: vin' => scan_inputs vin' ring_size user
  end.

Section with_primitives.
Context {prim : primitives}.

(** The [if (!payment_id)] block. *)
Definition fill_payment_id (tx : cryptonote.transaction) (c : tx_cache) : tx_cache :=
  match payment_id c with
  | Some _ => c
  | None =>
      let pid :=
        match find_tx_extra_nonce (cryptonote.extra tx) with
        | None => (0, db.pid_zero)
        | Some nonce =>
            match get_payment_id_from_tx_extra_nonce nonce with
            | Some long_ => (sizeof_hash, db.pid_long long_)
            | None =>
                match get_encrypted_payment_id_from_tx_extra_nonce nonce with
                | Some short_ => (sizeof_hash8, db.pid_short short_)
                | None => (0, db.pid_zero)
                end
            end
        end in
      {| prefix_hash := prefix_hash c; tx_hash := tx_hash c; payment_id := Some pid |}
  end.

(** From [if (!payment_id)] to the end of the loop body: [amount], [mask] and
    [ext] are final. *)
Definition record_output (height timestamp : Z) (tx : cryptonote.transaction)
    (out_ids : list Z) (pub_key : db.public_key) (ring_size index : Z)
    (amount mask : Z) (st : out_state) : out_state * option exception :=
  let c := fill_payment_id tx (cache st) in
  let st := {| user := user st; ext := ext st; cache := c |} in
  match nth_error out_ids (Z.to_nat index) with
  | None => (st, Some out_of_range)
  | Some out_id =>
      match numeric_cast_u32 (Z.max 1 ring_size - 1) with
      | Throw e => (st, Some e)
      | Ok mixin =>
          match numeric_cast_u32 index with
          | Throw e => (st, Some e)
          | Ok index32 =>
              let out :=
                {| db.output.height := height;
                   db.output.id := out_id;
                   db.output.amount := amount;
                   db.output.timestamp := timestamp;
                   db.output.unlock_time := cryptonote.unlock_time tx;
                   db.output.mixin_count := mixin;
                   db.output.index := index32;
                   db.output.tx_hash := match tx_hash c with Some h => h | None => 0 end;
                   db.output.tx_prefix_hash :=
                     match prefix_hash c with Some h => h | None => 0 end;
                   db.output.tx_public := pub_key;
                   db.output.ringct_mask := mask;
                   db.output.extra :=
                     db.pack (ext st) (match payment_id c with Some p => fst p | None => 0 end);
                   db.output.payment_id :=
                     match payment_id c with Some p => snd p | None => db.pid_zero end |} in
              ({| user := lws.add_out (user st) out; ext := ext st; cache := c |}, None)
          end
      end
  end.

(** From [std::uint64_t amount = out.amount] on: decrypt a zero amount. *)
Definition decode_output (height timestamp : Z) (tx : cryptonote.transaction)
    (out_ids : list Z) (pub_key : db.public_key) (derived ring_size index : Z)
    (out : cryptonote.tx_out) (st : out_state) : out_state * option exception :=
  let amount := cryptonote.amount out in
  if amount =? 0 then
    match nth_error (rct.outPk (cryptonote.rct_signatures tx)) (Z.to_nat index),
          nth_error (rct.ecdhInfo (cryptonote.rct_signatures tx)) (Z.to_nat index) with
    | Some pk, Some info =>
        match decode_amount (rct.ctkey.mask pk) info derived index with
        | None => (st, None)
        | Some (amount, mask) =>
            record_output height timestamp tx out_ids pub_key ring_size index amount mask
              {| user := user st; ext := Z.lor (ext st) db.kRingct; cache := cache st |}
        end
    | _, _ => (st, Some out_of_range)
    end
  else
    record_output height timestamp tx out_ids pub_key ring_size index amount 0 st.

(** The body of [for (auto const& out : tx.vout)] at position [index]. *)
Definition scan_output (height timestamp : Z) (tx : cryptonote.transaction)
    (out_ids : list Z) (pub_key : db.public_key) (derived ring_size index : Z)
    (out : cryptonote.tx_out) (st : out_state) : out_state * option exception :=
  match cryptonote.target out with
  | cryptonote.txout_to_key key =>
      let received :=
        match derive_public_key derived index (lws.spend_public (user st)) with
        | Some derived_pub => derived_pub =? key
        | None => false
        end in
      if negb received then (st, None)
      else
        let c := cache st in
        let c :=
          match prefix_hash c with
          | Some _ => c
          | None => {| prefix_hash := Some (get_transaction_prefix_hash tx);
                       tx_hash := tx_hash c; payment_id := payment_id c |}
          end in
        match tx_hash c with
        | Some _ =>
            decode_output height timestamp tx out_ids pub_key derived ring_size index out
              {| user := user st; ext := ext st; cache := c |}
        | None =>
            match get_transaction_hash tx with
            | None =>
                ({| user := user st; ext := ext st;
                    cache := {| prefix_hash := prefix_hash c; tx_hash := Some 0;
                                payment_id := payment_id c |} |}, None)
            | Some h =>
                decode_output height timestamp tx out_ids pub_key derived ring_size index out
                  {| user := user st; ext := ext st;
                     cache := {| prefix_hash := prefix_hash c; tx_hash := Some h;
                                 payment_id := payment_id c |} |}
            end
        end
  | _ => (st, None)
  end.

(** [for (auto const& out : tx.vout)], [index] being the position of the
    head of [vout] (the source pre-increments a [std::size_t] that starts
    at [-1]; it cannot pass the size of the vector). *)
Fixpoint scan_outputs (height timestamp : Z) (tx : cryptonote.transaction)
    (out_ids : list Z) (pub_key : db.public_key) (derived ring_size : Z)
    (vout : list cryptonote.tx_out) (index : Z) (st : out_state)
  : out_state * option exception :=
  match vout with
  | [] => (st, None)
  | out :: vout' =>
      match scan_output height timestamp tx out_ids pub_key derived ring_size index out st with
      | (st', Some e) => (st', Some e)
      | (st', None) =>
          scan_outputs height timestamp tx out_ids pub_key derived ring_size vout' (index + 1) st'
      end
  end.

(** The body of [for (account& user : users)]. *)
Definition scan_user (height timestamp : Z) (tx : cryptonote.transaction)
    (out_ids : list Z) (pub_key : db.public_key) (c : tx_cache) (user : lws.account)
  : lws.account * tx_cache * option exception :=
  if height <=? lws.scan_height user then (user, c, None)
  else
    match generate_key_derivation pub_key (lws.view_key (lws.immutable user)) with
    | None => (user, c, Some (runtime_error "Key derivation failed"))
    | Some derived =>
        match scan_inputs (cryptonote.vin tx) 0 user with
        | (_, user', Some e) => (user', c, Some e)
        | (ring_size, user', None) =>
            let ext := if ring_size =? 0 then db.kCoinbase else db.kNone in
            let '(st, thrown) :=
              scan_outputs height timestamp tx out_ids pub_key derived ring_size
                (cryptonote.vout tx) 0 {| user := user'; ext := ext; cache := c |} in
            (scanner.user st, cache st, thrown)
        end
    end.

Fixpoint scan_users (height timestamp : Z) (tx : cryptonote.transaction)
    (out_ids : list Z) (pub_key : db.public_key) (c : tx_cache) (users : list lws.account)
  : list lws.account * option exception :=
  match users with
  | [] => ([], None)
  | user :: users' =>
      match scan_user height timestamp tx out_ids pub_key c user with
      | (user', _, Some e) => (user' :: users', Some e)
      | (user', c', None) =>
          let '(rest, thrown) := scan_users height timestamp tx out_ids pub_key c' users' in
          (user' :: rest, thrown)
      end
  end.

(** [scan_transaction]: the users as they are when the call ends, and the
    exception if it ended by one. *)
Definition scan_transaction (users : list lws.account) (height timestamp : Z)
    (tx_hash : option db.hash) (tx : cryptonote.transaction) (out_ids : list Z)
  : list lws.account * option exception :=
  if 2 <? cryptonote.version tx
  then (users, Some (runtime_error "Unsupported tx version"))
  else
    match find_tx_extra_pub_key (cryptonote.extra tx) with
    | None => (users, None)
    | Some pub_key =>
        scan_users height timestamp tx out_ids pub_key
          {| prefix_hash := None; tx_hash := tx_hash; payment_id := None |} users
    end.

End with_primitives.

End scanner.

(** ** Comparing error codes *)

(** The enumerators of [lws::error] count up from [kAbortScan = 1]. *)
Definition lws_error_value (e : lws_error) : Z :=
  match e with
  | kAbortScan => 1
  | kAccountExists => 2
  | kBadAddress => 3
  | kBadViewKey => 4
  | kBadBlockchain => 5
  | kBlockchainReorg => 6
  | kCreateQueueMax => 7
  | kDaemonConnectionFailure => 8
  | kDuplicateRequest => 9
  | kExceededBlockchainBuffer => 10
  | kNoSuchAccount => 11
  | kSystemClockInvalidRange => 12
  end.

(** [expect == lws::error]: same category, same value. *)
Definition is_lws_error (e : error_code) (k : lws_error) : bool :=
  match e with
  | lws_code e' => lws_error_value e' =? lws_error_value k
  | _ => false
  end.

(** ** The daemon's RPC messages *)

Module rpc.

Module GetBlocksFast.
Record Request : Type := {
  start_height : Z;
  prune : bool
}.
Module Response.
Record t : Type := {
  start_height : Z;
  blocks : list cryptonote.block_complete_entry;
  output_indices : list (list (list Z))
}.
End Response.
End GetBlocksFast.

Module GetHashesFast.
Record Request : Type := {
  start_height : Z;
  known_hashes : list db.hash
}.
Module Response.
Record t : Type := {
  start_height : Z;
  hashes : list db.hash
}.
End Response.
End GetHashesFast.

End rpc.

(** ** [scanner.cpp]: the head of [scan_loop]'s iteration *)

Module scan_loop.

Import rpc.GetBlocksFast.

(** How the part of an iteration from [mzmq::receive] to the pipelined
    [mzmq::send] ends. *)
Inductive head_outcome : Type :=
| head_return
| head_throw (e : exception)
| head_continue
| head_scan (resp : Response.t).

Definition after_send (send : mzmq.send_outcome) (on_sent : head_outcome) : head_outcome :=
  match send with
  | mzmq.sent => on_sent
  | mzmq.send_aborted => head_return
  | mzmq.send_threw e => head_throw (system_error e)
  end.

(** [req] is the request in flight, [resp] what [mzmq::receive] gave, and
    [send] what the one [mzmq::send] of this stretch does.  The result is
    [req] as the stretch leaves it, and how it ends. *)
Definition receive_head (req : Request) (resp : expect Response.t)
    (send : mzmq.send_outcome) : Request * head_outcome :=
  match resp with
  | failure e =>
      if is_lws_error e kAbortScan then (req, head_return)
      else if is_lws_error e kDaemonConnectionFailure
      then (req, after_send send head_continue)
      else (req, head_throw (system_error e))
  | success r =>
      match Response.blocks r with
      | [] => (req, head_throw (runtime_error "Daemon unexpectedly returned zero blocks"))
      | _ :: _ =>
          if negb (Response.start_height r =? start_height req) then (req, head_return)
          else
            let req :=
              {| start_height :=
                   u64 (Response.start_height r + size (Response.blocks r) - 1);
                 prune := prune req |} in
            (req, after_send send (head_scan r))
      end
  end.

End scan_loop.

(** ** [scanner.cpp]: [sync_chain] *)

Module sync.

Import rpc.GetHashesFast.

(** [sync_rpc_timeout], in the unit of [io_attempt]'s clock (seconds). *)
Definition sync_rpc_timeout : Z := 30.

(** One non-blocking [zmq_send] or [zmq_recvmsg] and what the loop body
    observes after a negative return. *)
Record io_attempt : Type := {
  negative : bool;
  is_running : bool;
  since_start : Z;
  errno : Z
}.

Inductive io_outcome : Type :=
| io_done
| io_failed (e : error_code)
| io_pending.

(** [while (zmq_send(...) < 0) { ... }] and its [zmq_recvmsg] twin. *)
Fixpoint io_retry (attempts : list io_attempt) : io_outcome :=
  match attempts with
  | [] => io_pending
  | a :: attempts' =>
      if negb (negative a) then io_done
      else if negb (is_running a) then io_failed (lws_code kAbortScan)
      else if sync_rpc_timeout <=? since_start a
      then io_failed (lws_code kDaemonConnectionFailure)
      else if errno a =? mzmq.EINTR then io_retry attempts'
      else if negb (errno a =? mzmq.EAGAIN) then io_failed (mzmq_code (errno a))
      else io_retry attempts'
  end.

(** What the outside world does during one iteration of the [for (;;)]. *)
Record round : Type := {
  send_attempts : list io_attempt;
  msg_init_errno : option Z;
  recv_attempts : list io_attempt;
  unpacked : result (expect Response.t);
  disk_sync_chain : expect unit
}.

(** The ten [splice] calls: each moves the last of the response's hashes
    to just before [loc]; [moved] is what already sits before [loc]. *)
Fixpoint splice_hashes (num : nat) (moved hashes : list db.hash) : list db.hash :=
  match num with
  | O => moved
  | S num' =>
      match hashes with
      | [] => moved
      | _ :: _ => splice_hashes num' (moved ++ [last hashes 0]) (removelast hashes)
      end
  end.

(** [known_hashes] after the [erase] and the [splice] loop. *)
Definition next_known_hashes (known hashes : list db.hash) : list db.hash :=
  splice_hashes 10 [] hashes ++ [last known 0].

(** The exit test: [hashes.size() <= 1 || hashes.back() == known_hashes.front()]. *)
Definition synced (known : list db.hash) (resp : Response.t) : bool :=
  (size (Response.hashes resp) <=? 1)
  || (last (Response.hashes resp) 0 =? hd 0 known).

Inductive round_outcome : Type :=
| round_return (r : result (expect unit))
| round_next (known : list db.hash)
| round_pending.

(** The body of the [for (;;)] for a non-empty locator. *)
Definition sync_round (known : list db.hash) (r : round) : round_outcome :=
  match io_retry (send_attempts r) with
  | io_pending => round_pending
  | io_failed e => round_return (Ok (failure e))
  | io_done =>
      match msg_init_errno r with
      | Some err => round_return (Ok (failure (mzmq_code err)))
      | None =>
          match io_retry (recv_attempts r) with
          | io_pending => round_pending
          | io_failed e => round_return (Ok (failure e))
          | io_done =>
              match unpacked r with
              | Throw e => round_return (Throw e)
              | Ok (failure e) => round_return (Ok (failure e))
              | Ok (success resp) =>
                  if synced known resp then round_return (Ok (success tt))
                  else
                    match disk_sync_chain r with
                    | failure e => round_return (Ok (failure e))
                    | success _ =>
                        round_next (next_known_hashes known (Response.hashes resp))
                    end
              end
          end
      end
  end.

(** The [for (;;)]: one [round] per iteration; [None] when the rounds run
    out with the loop still going. *)
Fixpoint sync_loop (rounds : list round) (known : list db.hash)
  : option (result (expect unit)) :=
  match known with
  | [] => Some (Ok (failure (lws_code kBadBlockchain)))
  | _ :: _ =>
      match rounds with
      | [] => None
      | r :: rounds' =>
          match sync_round known r with
          | round_pending => None
          | round_return res => Some res
          | round_next known' => sync_loop rounds' known'
          end
      end
  end.

(** [sync_chain]: [start_read] and [get_chain_sync] are the two storage
    calls that produce the first locator. *)
Definition sync_chain (start_read : expect unit) (get_chain_sync : expect (list db.hash))
    (rounds : list round) : option (result (expect unit)) :=
  match start_read with
  | failure e => Some (Ok (failure e))
  | success _ =>
      match get_chain_sync with
      | failure e => Some (Ok (failure e))
      | success chain => sync_loop rounds chain
      end
  end.

(** The response unpacked in a round, when both transfers complete. *)
Definition delivered (r : round) : option Response.t :=
  match io_retry (send_attempts r), msg_init_errno r, io_retry (recv_attempts r), unpacked r with
  | io_done, None, io_done, Ok (success resp) => Some resp
  | _, _, _, _ => None
  end.

(** The locator sent in round [n] of the loop, if the loop gets there. *)
Fixpoint locator_at (rounds : list round) (known : list db.hash) (n : nat)
  : option (list db.hash) :=
  match known with
  | [] => None
  | _ :: _ =>
      match n with
      | O => Some known
      | S n' =>
          match rounds with
          | [] => None
          | r :: rounds' =>
              match sync_round known r with
              | round_next known' => locator_at rounds' known' n'
              | _ => None
              end
          end
      end
  end.

End sync.

(** ** [rest_server.cpp] *)

Module rest_server.

Definition is_hidden (status : db.account_status) : bool :=
  match status with
  | db.kActive | db.kInactive => false
  | db.kHidden => true
  end.

Definition key_check {prim : primitives} (user : db.account_address) (key : Z) : bool :=
  match secret_key_to_public_key key with
  | None => false
  | Some verify => if negb (verify =? db.view_public user) then false else true
  end.

(** The fields of the [/get_unspent_outs] request. *)
Record unspent_request : Type := {
  address : db.account_address;
  view_key : Z;
  amount : Z;
  mixin : option Z;
  use_dust : option bool;
  dust_threshold : option Z
}.

(** The calls made on a [db::storage_reader]. *)
Record storage_reader : Type := {
  get_account : db.account_address -> expect (db.account_status * db.account.t);
  get_outputs : db.account_id -> expect (list db.output.t);
  get_spends : db.output_id -> expect (list db.spend.t)
}.

Definition unspent_list : Type := list (db.output.t * list db.key_image).

(** [if ((use_dust && *use_dust) || !threshold) threshold = 0;] *)
Definition effective_threshold (req : unspent_request) : Z :=
  match use_dust req, dust_threshold req with
  | Some true, _ => 0
  | _, None => 0
  | _, Some t => t
  end.

(** [if (!mixin) mixin = 0;] *)
Definition effective_mixin (req : unspent_request) : Z :=
  match mixin req with Some m => m | None => 0 end.

(** [for (db::output const& out : outputs->make_range())]. *)
Fixpoint collect_unspent (reader : storage_reader) (threshold mixin : Z)
    (outputs : list db.output.t) (received : Z) (unspent : unspent_list)
  : expect (Z * unspent_list) :=
  match outputs with
  | [] => success (received, unspent)
  | out :: outputs' =>
      if (db.output.amount out <? threshold) || (db.output.mixin_count out <? mixin)
      then collect_unspent reader threshold mixin outputs' received unspent
      else
        let received := u64 (received + db.output.amount out) in
        match get_spends reader (db.output.id out) with
        | failure e => failure e
        | success spends =>
            collect_unspent reader threshold mixin outputs' received
              (unspent ++ [(out, map db.spend.image spends)])
        end
  end.

(** [get_unspent_outs]: [request] is the parsed JSON body, [start_read] what
    [disk.start_read()] gives, [generate_body] the JSON writer, [logged_in]
    the flag of the connection context, returned as the call leaves it. *)
Definition get_unspent_outs {prim : primitives}
    (request : expect unspent_request) (start_read : expect storage_reader)
    (generate_body : Z -> Z -> unspent_list -> expect string) (logged_in : bool)
  : bool * expect string :=
  match request with
  | failure e => (logged_in, failure e)
  | success req =>
      if negb (key_check (address req) (view_key req))
      then (logged_in, failure (lws_code kBadViewKey))
      else
        match start_read with
        | failure e => (logged_in, failure e)
        | success reader =>
            match get_account reader (address req) with
            | failure e => (logged_in, failure e)
            | success (status, user) =>
                if is_hidden status then (logged_in, failure (lws_code kNoSuchAccount))
                else
                  match get_outputs reader (db.account.id user) with
                  | failure e => (true, failure e)
                  | success outputs =>
                      let threshold := effective_threshold req in
                      let mixin := effective_mixin req in
                      match collect_unspent reader threshold mixin outputs 0 [] with
                      | failure e => (true, failure e)
                      | success (received, unspent) =>
                          if received <? amount req
                          then (true, failure (lws_code kNoSuchAccount))
                          else (true, generate_body 0 received unspent)
                      end
                  end
            end
        end
  end.

(** The outputs that pass the dust-threshold and mixin filters, and their
    total amount. *)
Definition passes_filters (threshold mixin : Z) (out : db.output.t) : bool :=
  negb ((db.output.amount out <? threshold) || (db.output.mixin_count out <? mixin)).

Definition total_amount (outputs : list db.output.t) : Z :=
  fold_right (fun out acc => db.output.amount out + acc) 0 outputs.

End rest_server.

(** ** Vocabulary of the properties *)

(** Sorted ascending, as [std::is_sorted] has it. *)
Definition sorted (v : list Z) : Prop := Sorted Z.le v.

(** The absolute ids of a ring: the running sums of its offsets in
    [std::uint64_t], starting from [id]. *)
Fixpoint ring_ids (id : Z) (offsets : list Z) : list Z :=
  match offsets with
  | [] => []
  | offset :: offsets' => let id := u64 (id + offset) in id :: ring_ids id offsets'
  end.

Definition mem (v : list Z) (x : Z) : bool := existsb (Z.eqb x) v.

(** The spends a ring yields against a list of received ids. *)
Definition ring_spends (received : list Z) (image : db.key_image) (offsets : list Z)
  : list (db.output_id * db.spend.t) :=
  map (fun id => (id, {| db.spend.image := image;
                         db.spend.mixin_count := Z.max 1 (size offsets) - 1 |}))
      (filter (mem received) (ring_ids 0 offsets)).

Definition with_spends (self : lws.account) (spends : list (db.output_id * db.spend.t))
  : lws.account :=
  {| lws.immutable := lws.immutable self;
     lws.received_ := lws.received_ self;
     lws.spends_ := spends;
     lws.outputs_ := lws.outputs_ self;
     lws.height := lws.height self |}.

(** Whether the packed byte of an output carries a flag of [db::extra]. *)
Definition carries (flag : db.extra) (out : db.output.t) : bool :=
  negb (Z.land (fst (db.unpack (db.output.extra out))) flag =? 0).

Definition is_to_key (input : cryptonote.txin_v) : bool :=
  match input with
  | cryptonote.txin_to_key _ _ _ => true
  | _ => false
  end.

(** The transaction has a ring (to-key) input. *)
Definition has_ring_inputs (tx : cryptonote.transaction) : bool :=
  existsb is_to_key (cryptonote.vin tx).

(** The number of ring members of the last to-key input, 0 without one. *)
Definition last_ring_size (vin : list cryptonote.txin_v) : Z :=
  fold_left
    (fun ring_size input =>
       match input with
       | cryptonote.txin_to_key _ key_offsets _ => size key_offsets
       | _ => ring_size
       end)
    vin 0.

(** The amount field of the transaction output that a row was made from. *)
Definition amount_field (tx : cryptonote.transaction) (out : db.output.t) : Z :=
  match nth_error (cryptonote.vout tx) (Z.to_nat (db.output.index out)) with
  | Some o => cryptonote.amount o
  | None => 0
  end.

Definition amount_was_zero (tx : cryptonote.transaction) (out : db.output.t) : bool :=
  amount_field tx out =? 0.

(** A flag of [db::extra] in a value of the enum. *)
Definition flag_of (flag ext : db.extra) : bool := negb (Z.land ext flag =? 0).

(** What one pass through the body of the output loop may do: leave the
    user alone (and, unless it throws, [ext] too), or append one row for
    the output at [index], packed with the [ext] the pass ends with, which
    gained [kRingct] exactly if the amount field was zero. *)
Definition output_step (index : Z) (out : cryptonote.tx_out)
    (st st' : scanner.out_state) (thrown : option exception) : Prop :=
  (scanner.user st' = scanner.user st
   /\ (thrown = None -> scanner.ext st' = scanner.ext st))
  \/ (thrown = None
      /\ scanner.ext st'
         = (if cryptonote.amount out =? 0
            then Z.lor (scanner.ext st) db.kRingct
            else scanner.ext st)
      /\ exists row,
           scanner.user st' = lws.add_out (scanner.user st) row
           /\ db.output.index row = index
           /\ fst (db.unpack (db.output.extra row)) = Z.land (scanner.ext st') 7).

(** The flags of the rows appended for one user by one call: [kCoinbase]
    is [coinbase] on all of them, [kRingct] is on from the first row on
    whose amount field was zero (or throughout, if [ringct]). *)
Definition flags_follow (tx : cryptonote.transaction) (coinbase ringct : bool)
    (rows : list db.output.t) : Prop :=
  forall (k : nat) (row : db.output.t),
    nth_error rows k = Some row ->
    carries db.kCoinbase row = coinbase
    /\ carries db.kRingct row
       = ringct || existsb (amount_was_zero tx) (firstn (S k) rows).

(** Every to-key input names at least one ring member. *)
Definition rings_nonempty (tx : cryptonote.transaction) : bool :=
  forallb
    (fun input =>
       match input with
       | cryptonote.txin_to_key _ key_offsets _ => 0 <? size key_offsets
       | _ => true
       end)
    (cryptonote.vin tx).

(** The amount fields of the outputs are all zero (all amounts encrypted)
    or all non-zero (all amounts plain). *)
Definition amounts_uniform (tx : cryptonote.transaction) : bool :=
  forallb (fun out => cryptonote.amount out =? 0) (cryptonote.vout tx)
  || forallb (fun out => negb (cryptonote.amount out =? 0)) (cryptonote.vout tx).

(** ** Sample data *)

Module sample.

(** Stand-ins for the primitives, enough to run the scanner on small
    transactions: a public key is twice its secret key, a derivation is a
    sum, an output key is derivation + index + spend key. *)
Definition prim : primitives :=
  {| secret_key_to_public_key := fun k => if k =? 0 then None else Some (2 * k);
     generate_key_derivation := fun pub sec => Some (pub + sec);
     derive_public_key := fun derived index spend => Some (derived + index + spend);
     get_transaction_prefix_hash := fun tx => 1000 + cryptonote.version tx;
     get_transaction_hash := fun tx => Some (2000 + cryptonote.version tx);
     decode_amount := fun mask info derived index =>
                        Some (rct.ecdhTuple.amount info - derived, rct.ecdhTuple.mask info);
     find_tx_extra_pub_key := fun extra => hd_error extra;
     find_tx_extra_nonce := fun extra => match extra with _ :: n :: _ => Some [n] | _ => None end;
     get_payment_id_from_tx_extra_nonce := fun nonce => hd_error nonce;
     get_encrypted_payment_id_from_tx_extra_nonce := fun nonce => None |}.

Definition address : db.account_address :=
  {| db.spend_public := 7; db.view_public := 10 |}.

(** A stored account row: id 1, view key 5 (public 10), scanned to 50. *)
Definition row : db.account.t :=
  {| db.account.id := 1;
     db.account.access := 0;
     db.account.address := address;
     db.account.key := 5;
     db.account.scan_height := 50;
     db.account.start_height := 40;
     db.account.creation := 0 |}.

Definition user : lws.account := lws.account_init (lws.make_internal row) 50 [100].

Definition no_rct : rct.rctSig := {| rct.outPk := []; rct.ecdhInfo := [] |}.

(** With [prim], the derivation for transaction key 3 and view key 5 is 8,
    so the user's output key at index [i] is [8 + i + 7]. *)
Definition rct_two : rct.rctSig :=
  {| rct.outPk := [ {| rct.ctkey.dest := 0; rct.ctkey.mask := 0 |} ];
     rct.ecdhInfo := [ {| rct.ecdhTuple.mask := 9; rct.ecdhTuple.amount := 30 |} ] |}.

(** One ring input of three members; output 0 has an encrypted amount,
    output 1 a plain amount of 5; both belong to the user. *)
Definition tx_mixed : cryptonote.transaction :=
  {| cryptonote.version := 2;
     cryptonote.unlock_time := 0;
     cryptonote.vin := [cryptonote.txin_to_key 0 [90; 5; 5] 42];
     cryptonote.vout := [ {| cryptonote.amount := 0; cryptonote.target := cryptonote.txout_to_key 15 |};
                          {| cryptonote.amount := 5; cryptonote.target := cryptonote.txout_to_key 16 |} ];
     cryptonote.extra := [3];
     cryptonote.rct_signatures := rct_two |}.

(** A RingCT transfer: one ring input of three members and one output with
    an encrypted amount, which belongs to the user. *)
Definition tx_ringct : cryptonote.transaction :=
  {| cryptonote.version := 2;
     cryptonote.unlock_time := 0;
     cryptonote.vin := [cryptonote.txin_to_key 0 [90; 5; 5] 42];
     cryptonote.vout := [ {| cryptonote.amount := 0; cryptonote.target := cryptonote.txout_to_key 15 |} ];
     cryptonote.extra := [3];
     cryptonote.rct_signatures := rct_two |}.

Definition miner_tx : cryptonote.transaction :=
  {| cryptonote.version := 2;
     cryptonote.unlock_time := 60;
     cryptonote.vin := [cryptonote.txin_gen 51];
     cryptonote.vout := [ {| cryptonote.amount := 9; cryptonote.target := cryptonote.txout_to_key 15 |} ];
     cryptonote.extra := [3];
     cryptonote.rct_signatures := no_rct |}.

Definition entry : cryptonote.block_complete_entry :=
  {| cryptonote.block_ := {| cryptonote.timestamp := 0;
                             cryptonote.miner_tx := miner_tx;
                             cryptonote.tx_hashes := [] |};
     cryptonote.transactions := [] |}.

(** A poll interrupted by a signal 400 ms in. *)
Definition interrupted : mzmq.poll_event :=
  {| mzmq.after := 400; mzmq.ready := -1; mzmq.errno := mzmq.EINTR;
     mzmq.parent_revents := false |}.

(** A transfer that goes through at the first attempt. *)
Definition at_once : list sync.io_attempt :=
  [ {| sync.negative := false; sync.is_running := true;
       sync.since_start := 0; sync.errno := 0 |} ].

Definition round_with (hashes : list db.hash) : sync.round :=
  {| sync.send_attempts := at_once;
     sync.msg_init_errno := None;
     sync.recv_attempts := at_once;
     sync.unpacked :=
       Ok (success {| rpc.GetHashesFast.Response.start_height := 0;
                      rpc.GetHashesFast.Response.hashes := hashes |});
     sync.disk_sync_chain := success tt |}.

Definition out_of (id amount mixin : Z) : db.output.t :=
  {| db.output.height := 10;
     db.output.id := id;
     db.output.amount := amount;
     db.output.timestamp := 0;
     db.output.unlock_time := 0;
     db.output.mixin_count := mixin;
     db.output.index := 0;
     db.output.tx_hash := 0;
     db.output.tx_prefix_hash := 0;
     db.output.tx_public := 0;
     db.output.ringct_mask := 0;
     db.output.extra := 0;
     db.output.payment_id := db.pid_zero |}.

Definition reader : rest_server.storage_reader :=
  {| rest_server.get_account := fun _ => success (db.kActive, row);
     rest_server.get_outputs := fun _ => success [out_of 100 3 4; out_of 101 20 0];
     rest_server.get_spends := fun _ => success [] |}.

Definition request : rest_server.unspent_request :=
  {| rest_server.address := address;
     rest_server.view_key := 5;
     rest_server.amount := 10;
     rest_server.mixin := Some 2;
     rest_server.use_dust := None;
     rest_server.dust_threshold := None |}.

Definition generate_body (fee received : Z) (unspent : rest_server.unspent_list)
  : expect string := success "body"%string.

End sample.

(** ** [scanner.cpp]: the rest of [scan_loop]'s iteration *)

Module scan_batch.

Import rpc.GetBlocksFast.

(** What the block loop carries: the users, [resp->start_height] (which the
    loop uses as its height counter) and the [blockchain] vector. *)
Record batch_state : Type := {
  users : list lws.account;
  start_height : Z;
  blockchain : list db.hash
}.

Section with_primitives.
Context {prim : primitives}.
Variable get_block_hash : cryptonote.block -> db.hash.

(** [for (auto tx_data : boost::combine(block.tx_hashes, txes, indices))];
    the three ranges have been checked to be of one size. *)
Fixpoint scan_txes (users : list lws.account) (height timestamp : Z)
    (tx_hashes : list db.hash) (txes : list cryptonote.transaction)
    (indices : list (list Z)) : list lws.account * option exception :=
  match tx_hashes, txes, indices with
  | tx_hash :: tx_hashes', tx :: txes', out_ids :: indices' =>
      match scanner.scan_transaction users height timestamp (Some tx_hash) tx out_ids with
      | (users', Some e) => (users', Some e)
      | (users', None) => scan_txes users' height timestamp tx_hashes' txes' indices'
      end
  | _, _, _ => (users, None)
  end.

(** The body of [for (auto block_data : boost::combine(blocks, indices))]. *)
Definition scan_block (st : batch_state) (entry : cryptonote.block_complete_entry)
    (indices : list (list Z)) : batch_state * option exception :=
  let height := u64 (start_height st + 1) in
  let st := {| users := users st; start_height := height; blockchain := blockchain st |} in
  let block := cryptonote.block_ entry in
  let txes := cryptonote.transactions entry in
  if negb (size (cryptonote.tx_hashes block) =? size txes)
  then (st, Some (runtime_error
                    "Bad daemon response - need same number of txes and tx hashes"))
  else
    match indices with
    | [] => (st, Some (runtime_error "Bad daemon response - missing coinbase tx indices"))
    | miner_ids :: indices =>
        match scanner.scan_transaction (users st) height (cryptonote.timestamp block) None
                (cryptonote.miner_tx block) miner_ids with
        | (users', Some e) =>
            ({| users := users'; start_height := height; blockchain := blockchain st |},
             Some e)
        | (users', None) =>
            let st := {| users := users'; start_height := height;
                         blockchain := blockchain st |} in
            if negb (size txes =? size indices)
            then (st, Some (runtime_error
                              "Bad daemon respnse - need same number of txes and indices"))
            else
              match scan_txes users' height (cryptonote.timestamp block)
                      (cryptonote.tx_hashes block) txes indices with
              | (users'', Some e) =>
                  ({| users := users''; start_height := height;
                      blockchain := blockchain st |}, Some e)
              | (users'', None) =>
                  ({| users := users''; start_height := height;
                      blockchain := blockchain st ++ [get_block_hash block] |}, None)
              end
        end
    end.

Fixpoint scan_blocks (st : batch_state) (blocks : list cryptonote.block_complete_entry)
    (indices : list (list (list Z))) : batch_state * option exception :=
  match blocks, indices with
  | entry :: blocks', block_indices :: indices' =>
      match scan_block st entry block_indices with
      | (st', Some e) => (st', Some e)
      | (st', None) => scan_blocks st' blocks' indices'
      end
  | _, _ => (st, None)
  end.

(** From the size check on [output_indices] to the end of the block loop,
    for a response of more than one block. *)
Definition scan_response (users : list lws.account) (resp : Response.t)
  : batch_state * option exception :=
  let st := {| users := users; start_height := Response.start_height resp;
               blockchain := [] |} in
  if negb (size (Response.blocks resp) =? size (Response.output_indices resp))
  then (st, Some (runtime_error
                    "Bad daemon response - need same number of blocks and indices"))
  else
    match Response.blocks resp with
    | [] => (st, None)
    | front :: _ =>
        let chain := [get_block_hash (cryptonote.block_ front)] in
        if negb (Response.start_height resp =? 1)
        then
          scan_blocks {| users := users; start_height := Response.start_height resp;
                         blockchain := chain |}
            (tl (Response.blocks resp)) (tl (Response.output_indices resp))
        else
          scan_blocks {| users := users; start_height := 0; blockchain := chain |}
            (Response.blocks resp) (Response.output_indices resp)
    end.

(** How an iteration that got past the pipelined send ends. *)
Inductive tail_outcome : Type :=
| tail_return
| tail_throw (e : exception)
| tail_continue (users : list lws.account).

(** The iteration from [if (resp->blocks.size() <= 1)] on: [waited] is what
    [mzmq::wait] gives when only the overlap block came, [update] is
    [disk.update]. *)
Definition scan_tail (users : list lws.account) (resp : Response.t)
    (waited : expect unit)
    (update : db.block_id -> list db.hash -> list lws.account -> expect Z)
  : tail_outcome :=
  if size (Response.blocks resp) <=? 1
  then
    match waited with
    | failure e => if is_lws_error e kAbortScan then tail_return else tail_continue users
    | success _ => tail_continue users
    end
  else
    match scan_response users resp with
    | (_, Some e) => tail_throw e
    | (st, None) =>
        let front_height :=
          match scan_batch.users st with
          | front :: _ => lws.scan_height front
          | [] => 0
          end in
        match update front_height (blockchain st) (scan_batch.users st) with
        | failure e =>
            if is_lws_error e kBlockchainReorg then tail_return
            else tail_throw (system_error e)
        | success updated =>
            if negb (updated =? size (scan_batch.users st)) then tail_return
            else
              tail_continue
                (map (fun user => lws.updated user (start_height st)) (scan_batch.users st))
        end
    end.

End with_primitives.

(** The first request of [scan_loop]: from the scan height of the first
    user, but not from 0. *)
Definition first_request (users : list lws.account) : Request :=
  {| rpc.GetBlocksFast.start_height :=
       Z.max 1 (match users with
                | front :: _ => lws.scan_height front
                | [] => 0
                end);
     prune := false |}.

End scan_batch.

(** ** [scanner.cpp]: [check_loop] and [fetch_loop] *)

Module supervisor.

(** [by_height]. *)
Definition by_height (left right : lws.account) : bool :=
  lws.scan_height left <? lws.scan_height right.

(** [std::sort(users.begin(), users.end(), by_height{})]; the order among
    users of one height is the implementation's choice. *)
Fixpoint insert_by_height (user : lws.account) (users : list lws.account)
  : list lws.account :=
  match users with
  | [] => [user]
  | other :: users' =>
      if by_height other user
      then other :: insert_by_height user users'
      else user :: other :: users'
  end.

Definition sort_by_height (users : list lws.account) : list lws.account :=
  fold_right insert_by_height [] users.

(** [while (!users.empty() && --thread_count)]: each pass moves the last
    [count] users to a new thread.  The result is the threads' users in the
    order the threads are started, the users left, and [thread_count]. *)
Fixpoint spawn_loop (fuel : nat) (per_thread : Z) (users : list lws.account)
    (thread_count : Z) (threads : list (list lws.account))
  : list (list lws.account) * list lws.account * Z :=
  match fuel with
  | O => (threads, users, thread_count)
  | S fuel' =>
      match users with
      | [] => (threads, users, thread_count)
      | _ :: _ =>
          let thread_count := u64 (thread_count - 1) in
          if thread_count =? 0 then (threads, users, thread_count)
          else
            let count := Z.min per_thread (size users) in
            let keep := (length users - Z.to_nat count)%nat in
            spawn_loop fuel' per_thread (firstn keep users) thread_count
              (threads ++ [skipn keep users])
      end
  end.

(** The users of each thread that [check_loop] starts, in starting order. *)
Definition thread_users (users : list lws.account) (thread_count : Z)
  : list (list lws.account) :=
  let users := sort_by_height users in
  let per_thread := Z.max 1 (size users / thread_count) in
  let '(threads, users, _) :=
    spawn_loop (length users) per_thread users thread_count [] in
  match users with
  | [] => threads
  | _ :: _ => threads ++ [users]
  end.

(** [fetch_loop]: [active.insert(std::lower_bound(...), user.id)] for each
    account read. *)
Definition insert_active (active : list db.account_id) (id : db.account_id)
  : list db.account_id :=
  vector_insert active (lower_bound active id) id.

Definition collect_active (ids : list db.account_id) : list db.account_id :=
  fold_left insert_active ids [].

(** The test of [check_loop]'s poll: a different count of active accounts,
    or one of them that is not in [active]. *)
Definition accounts_changed (active current : list db.account_id) : bool :=
  negb (size current =? size active)
  || existsb (fun user_id => negb (binary_search active user_id)) current.

End supervisor.

(** ** Vocabulary of the further properties *)

From Stdlib Require Import Sorting.Permutation.

(** How scanning may change a user: the shared part and the scan height
    stay, [spends_] and [outputs_] gain entries at the end, [received_]
    gains the ids of the new rows and stays sorted if it was, and every
    new spend names an id of [received_]. *)
Definition grows (u u' : lws.account) : Prop :=
  lws.immutable u' = lws.immutable u
  /\ lws.height u' = lws.height u
  /\ (sorted (lws.received_ u) -> sorted (lws.received_ u'))
  /\ exists spends rows,
       lws.spends_ u' = lws.spends_ u ++ spends
       /\ lws.outputs_ u' = lws.outputs_ u ++ rows
       /\ Permutation (lws.received_ u') (lws.received_ u ++ map db.output.id rows)
       /\ Forall (fun entry => In (fst entry) (lws.received_ u')) spends.

(** The fields of a row as [scan_transaction] fills them for the output at
    [index], given the amount and mask it settled on. *)
Definition row_fields (height timestamp : Z) (tx : cryptonote.transaction)
    (out_ids : list Z) (pub_key : db.public_key) (ring_size index amount mask : Z)
    (row : db.output.t) : Prop :=
  db.output.height row = height
  /\ nth_error out_ids (Z.to_nat index) = Some (db.output.id row)
  /\ db.output.amount row = amount
  /\ db.output.timestamp row = timestamp
  /\ db.output.unlock_time row = cryptonote.unlock_time tx
  /\ db.output.mixin_count row = Z.max 1 ring_size - 1
  /\ db.output.index row = index
  /\ db.output.tx_public row = pub_key
  /\ db.output.ringct_mask row = mask.

(** A row that stands for an output of [tx] owned by the holder of [spend]
    under the derivation [derived]: the output at the row's index is a
    to-key output whose key is the one derived for that index, and the
    row's amount is the output's plain amount, or the decoded one when the
    plain amount is zero. *)
Definition row_backed {prim : primitives} (height timestamp : Z)
    (tx : cryptonote.transaction) (out_ids : list Z) (pub_key : db.public_key)
    (derived : Z) (spend : db.public_key) (ring_size : Z) (row : db.output.t) : Prop :=
  exists out key amount mask,
    nth_error (cryptonote.vout tx) (Z.to_nat (db.output.index row)) = Some out
    /\ cryptonote.target out = cryptonote.txout_to_key key
    /\ derive_public_key derived (db.output.index row) spend = Some key
    /\ row_fields height timestamp tx out_ids pub_key ring_size (db.output.index row)
         amount mask row
    /\ (if cryptonote.amount out =? 0
        then exists pk info,
               nth_error (rct.outPk (cryptonote.rct_signatures tx))
                 (Z.to_nat (db.output.index row)) = Some pk
               /\ nth_error (rct.ecdhInfo (cryptonote.rct_signatures tx))
                    (Z.to_nat (db.output.index row)) = Some info
               /\ decode_amount (rct.ctkey.mask pk) info derived (db.output.index row)
                  = Some (amount, mask)
        else amount = cryptonote.amount out /\ mask = 0).

(** [std::is_sorted(users.begin(), users.end(), by_height{})]: scan heights
    never go down along the list. *)
Definition sorted_by_height (users : list lws.account) : Prop :=
  Sorted (fun left right => lws.scan_height left <= lws.scan_height right) users.

(** ** [rest_server.cpp]: the other endpoints *)

Module rest_api.

(** [db::block_info] of [db/data.h]. *)
Record block_info : Type := {
  id : db.block_id;
  hash : db.hash
}.

(** The [spend] of [rest_server.cpp]: one line of [spent_outputs]. *)
Record spend : Type := {
  amount : Z;
  mixin : Z;
  index : Z;
  tx_public : db.public_key;
  image : db.key_image
}.

Record spend_info : Type := {
  images : list spend;
  sent : Z
}.

(** The body of [for (db::spend const& spend : spends->make_range())]. *)
Definition add_spend (out : db.output.t) (self : spend_info) (spend : db.spend.t)
  : spend_info :=
  {| images := images self
               ++ [ {| amount := db.output.amount out;
                       mixin := db.spend.mixin_count spend;
                       index := db.output.index out;
                       tx_public := db.output.tx_public out;
                       image := db.spend.image spend |} ];
     sent := u64 (sent self + db.output.amount out) |}.

(** [spend_info::add]: the object after the call, or the storage error. *)
Definition spend_info_add (self : spend_info) (out : db.output.t)
    (reader : rest_server.storage_reader) : expect spend_info :=
  match rest_server.get_spends reader (db.output.id out) with
  | failure e => failure e
  | success spends => success (fold_left (add_spend out) spends self)
  end.

Section with_config.
(** [CRYPTONOTE_MINED_MONEY_UNLOCK_WINDOW] of the full node's configuration. *)
Variable coinbase_timeout : Z.

Definition is_locked (out : db.output.t) (last : db.block_id) : bool :=
  if fst (db.unpack (db.output.extra out)) =? db.kCoinbase
  then last <=? u64 (db.output.height out + coinbase_timeout)
  else false.

Section with_primitives.
Context {prim : primitives}.

(** [get_account]: [src] is the address and view key read from the JSON
    body, or the error of reading them. *)
Definition get_account (src : expect (db.account_address * Z))
    (reader : rest_server.storage_reader) : expect db.account.t :=
  match src with
  | failure e => failure e
  | success (address, key) =>
      if negb (rest_server.key_check address key)
      then failure (lws_code kBadViewKey)
      else
        match rest_server.get_account reader address with
        | failure e => failure e
        | success (status, user) =>
            if rest_server.is_hidden status
            then failure (lws_code kNoSuchAccount)
            else success user
        end
  end.

(** What [get_address_info] hands to the JSON writer. *)
Record address_info : Type := {
  locked_funds : Z;
  total_received : Z;
  total_sent : Z;
  scanned_height : Z;
  scanned_block_height : Z;
  start_height : Z;
  transaction_height : Z;
  blockchain_height : Z;
  spent_outputs : list spend
}.

(** The loop of [get_address_info] over the account's outputs. *)
Fixpoint sum_outputs (reader : rest_server.storage_reader) (last : db.block_id)
    (outputs : list db.output.t) (locked received : Z) (spends : spend_info)
  : expect (Z * Z * spend_info) :=
  match outputs with
  | [] => success (locked, received, spends)
  | out :: outputs' =>
      let received := u64 (received + db.output.amount out) in
      let locked :=
        if is_locked out last then u64 (locked + db.output.amount out) else locked in
      match spend_info_add spends out reader with
      | failure e => failure e
      | success spends => sum_outputs reader last outputs' locked received spends
      end
  end.

Definition get_address_info (root : expect (db.account_address * Z))
    (start_read : expect rest_server.storage_reader)
    (get_last_block : expect block_info)
    (generate_body : address_info -> expect string) (logged_in : bool)
  : bool * expect string :=
  match start_read with
  | failure e => (logged_in, failure e)
  | success reader =>
      match get_account root reader with
      | failure e => (logged_in, failure e)
      | success user =>
          match rest_server.get_outputs reader (db.account.id user) with
          | failure e => (true, failure e)
          | success outputs =>
              match get_last_block with
              | failure e => (true, failure e)
              | success last =>
                  match sum_outputs reader (id last) outputs 0 0
                          {| images := []; sent := 0 |} with
                  | failure e => (true, failure e)
                  | success (locked, received, spends) =>
                      (true,
                       generate_body
                         {| locked_funds := locked;
                            total_received := received;
                            total_sent := sent spends;
                            scanned_height := db.account.scan_height user;
                            scanned_block_height := db.account.scan_height user;
                            start_height := db.account.start_height user;
                            transaction_height := id last;
                            blockchain_height := id last;
                            spent_outputs := images spends |})
                  end
              end
          end
      end
  end.

(** The [transaction] of [get_address_txs]. *)
Record transaction : Type := {
  out : db.output.t;
  spends : spend_info
}.

Definition add_amount (out : db.output.t) (amount : Z) : db.output.t :=
  {| db.output.height := db.output.height out;
     db.output.id := db.output.id out;
     db.output.amount := u64 (db.output.amount out + amount);
     db.output.timestamp := db.output.timestamp out;
     db.output.unlock_time := db.output.unlock_time out;
     db.output.mixin_count := db.output.mixin_count out;
     db.output.index := db.output.index out;
     db.output.tx_hash := db.output.tx_hash out;
     db.output.tx_prefix_hash := db.output.tx_prefix_hash out;
     db.output.tx_public := db.output.tx_public out;
     db.output.ringct_mask := db.output.ringct_mask out;
     db.output.extra := db.output.extra out;
     db.output.payment_id := db.output.payment_id out |}.

(** [txes.push_back({out})] or [txes.back().out.amount += out.amount]:
    the vector without its last element, and the last element to be. *)
Definition push_or_merge (txes : list transaction) (output : db.output.t)
  : list transaction * transaction :=
  match rev txes with
  | [] => (txes, {| out := output; spends := {| images := []; sent := 0 |} |})
  | back :: _ =>
      if negb (db.output.tx_hash (out back) =? db.output.tx_hash output)
      then (txes, {| out := output; spends := {| images := []; sent := 0 |} |})
      else (removelast txes,
            {| out := add_amount (out back) (db.output.amount output);
               spends := spends back |})
  end.

(** The loop of [get_address_txs] over the account's outputs. *)
Fixpoint group_outputs (reader : rest_server.storage_reader)
    (outputs : list db.output.t) (received : Z) (txes : list transaction)
  : expect (Z * list transaction) :=
  match outputs with
  | [] => success (received, txes)
  | output :: outputs' =>
      let received := u64 (received + db.output.amount output) in
      let '(before, back) := push_or_merge txes output in
      match spend_info_add (spends back) (out back) reader with
      | failure e => failure e
      | success spends' =>
          group_outputs reader outputs' received
            (before ++ [ {| out := out back; spends := spends' |} ])
      end
  end.

(** What [get_address_txs] hands to the JSON writer. *)
Record address_txs : Type := {
  txs_total_received : Z;
  txs_scanned_height : Z;
  txs_start_height : Z;
  txs_blockchain_height : Z;
  transactions : list transaction
}.

Definition get_address_txs (root : expect (db.account_address * Z))
    (start_read : expect rest_server.storage_reader)
    (get_last_block : expect block_info)
    (generate_body : address_txs -> expect string) (logged_in : bool)
  : bool * expect string :=
  match start_read with
  | failure e => (logged_in, failure e)
  | success reader =>
      match get_account root reader with
      | failure e => (logged_in, failure e)
      | success user =>
          match rest_server.get_outputs reader (db.account.id user) with
          | failure e => (true, failure e)
          | success outputs =>
              match get_last_block with
              | failure e => (true, failure e)
              | success last =>
                  match group_outputs reader outputs 0 [] with
                  | failure e => (true, failure e)
                  | success (received, txes) =>
                      (true,
                       generate_body
                         {| txs_total_received := received;
                            txs_scanned_height := db.account.scan_height user;
                            txs_start_height := db.account.start_height user;
                            txs_blockchain_height := id last;
                            transactions := txes |})
                  end
              end
          end
      end
  end.

(** The fields of the [/login] request. *)
Record login_request : Type := {
  login_address : db.account_address;
  login_view_key : Z;
  create_account : bool
}.

(** [login]: the second component tells whether [disk.creation_request]
    was called; [creation_request] is what that call gives, and
    [generate_body] writes [{"new_address": b}]. *)
Definition login (request : expect login_request)
    (start_read : expect rest_server.storage_reader)
    (creation_request : expect unit)
    (generate_body : bool -> expect string) (logged_in : bool)
  : bool * bool * expect string :=
  match request with
  | failure e => (logged_in, false, failure e)
  | success req =>
      if negb (rest_server.key_check (login_address req) (login_view_key req))
      then (logged_in, false, failure (lws_code kBadViewKey))
      else
        match start_read with
        | failure e => (logged_in, false, failure e)
        | success reader =>
            match rest_server.get_account reader (login_address req) with
            | success (status, _) =>
                if rest_server.is_hidden status
                then (logged_in, false, failure (lws_code kNoSuchAccount))
                else (true, false, generate_body false)
            | failure e =>
                if negb (create_account req) || negb (is_lws_error e kNoSuchAccount)
                then (logged_in, false, failure e)
                else
                  match creation_request with
                  | failure e' => (logged_in, true, failure e')
                  | success _ => (logged_in, true, generate_body true)
                  end
            end
        end
  end.

End with_primitives.
End with_config.

Import Ascii.

(** The characters of [rest_server::run]'s address. *)
Definition colon : Ascii.ascii := ":"%char.
Definition bracket : Ascii.ascii := "]"%char.

Definition http_scheme : list Ascii.ascii := list_ascii_of_string "http://".

(** [boost::string_ref::starts_with]. *)
Fixpoint starts_with (s prefix : list Ascii.ascii) : bool :=
  match prefix, s with
  | [], _ => true
  | p :: prefix', c :: s' => Ascii.eqb c p && starts_with s' prefix'
  | _ :: _, [] => false
  end.

(** [find_last_of(":]")]: the last position holding one of the two
    characters, [None] for [npos]. *)
Fixpoint find_last_of (s : list Ascii.ascii) : option nat :=
  match s with
  | [] => None
  | c :: s' =>
      match find_last_of s' with
      | Some i => Some (S i)
      | None => if Ascii.eqb c colon || Ascii.eqb c bracket then Some 0%nat else None
      end
  end.

(** [rest_server::run] up to [impl->init]: the port and the host that the
    server is bound to, or [kInvalidUriScheme] (given as [invalid]). *)
Definition bind_address (invalid : error_code) (address : list Ascii.ascii)
  : expect (list Ascii.ascii * list Ascii.ascii) :=
  if negb (starts_with address http_scheme) then failure invalid
  else
    let address := skipn 7 address in
    match find_last_of address with
    | None => success (list_ascii_of_string "8080", address)
    | Some at_ =>
        if Ascii.eqb (nth at_ address colon) bracket
        then success (list_ascii_of_string "8080", address)
        else success (skipn (at_ + 1) address, firstn at_ address)
    end.

End rest_api.

(** The sum of the amounts of a list of outputs, each counted [weight]
    times. *)
Definition weighted_amount (weight : db.output.t -> Z) (outputs : list db.output.t) : Z :=
  fold_right (fun out acc => weight out * db.output.amount out + acc) 0 outputs.

(** The number of spends that the reader lists for an output. *)
Definition spend_count (reader : rest_server.storage_reader) (out : db.output.t) : Z :=
  match rest_server.get_spends reader (db.output.id out) with
  | success spends => size spends
  | failure _ => 0
  end.

(** The key images that the reader lists for an output. *)
Definition spend_images (reader : rest_server.storage_reader) (out : db.output.t)
  : list db.key_image :=
  match rest_server.get_spends reader (db.output.id out) with
  | success spends => map db.spend.image spends
  | failure _ => []
  end.

(** Every read of the spends of these outputs goes through. *)
Definition spends_readable (reader : rest_server.storage_reader)
    (outputs : list db.output.t) : Prop :=
  Forall (fun out =>
            exists spends, rest_server.get_spends reader (db.output.id out) = success spends)
         outputs.

(** The [spent_outputs] lines that the spends of an output make. *)
Definition spend_lines (reader : rest_server.storage_reader) (out : db.output.t)
  : list rest_api.spend :=
  match rest_server.get_spends reader (db.output.id out) with
  | success spends =>
      map (fun spend =>
             {| rest_api.amount := db.output.amount out;
                rest_api.mixin := db.spend.mixin_count spend;
                rest_api.index := db.output.index out;
                rest_api.tx_public := db.output.tx_public out;
                rest_api.image := db.spend.image spend |})
          spends
  | failure _ => []
  end.

(** No two neighbours in the list are transactions of one hash. *)
Definition no_equal_neighbours (txes : list rest_api.transaction) : Prop :=
  forall before a b after,
    txes = before ++ a :: b :: after ->
    db.output.tx_hash (rest_api.out a) <> db.output.tx_hash (rest_api.out b).

Definition txes_amount (txes : list rest_api.transaction) : Z :=
  fold_right (fun tx acc => db.output.amount (rest_api.out tx) + acc) 0 txes.

(** A character that [find_last_of(":]")] passes over. *)
Definition plain (c : Ascii.ascii) : Prop := c <> rest_api.colon /\ c <> rest_api.bracket.

(** An attempt after which [sync_chain]'s transfer loops go round again:
    the call failed with [EINTR] or [EAGAIN], the scanner is running, and
    the time limit has not passed. *)
Definition would_block (a : sync.io_attempt) : Prop :=
  sync.negative a = true
  /\ sync.is_running a = true
  /\ sync.since_start a < sync.sync_rpc_timeout
  /\ (sync.errno a = mzmq.EINTR \/ sync.errno a = mzmq.EAGAIN).

(** ** [serialization/new/json_core.cpp] *)

Module json.

(** The errors of [json::error] that [json_core.cpp] reports for numbers. *)
Inductive error : Type :=
| kExpectedUnsigned
| kUnderflow
| kOverflow.

Inductive checked (T : Type) : Type :=
| value_of (v : T)
| error_of (e : error).
Arguments value_of {T} v.
Arguments error_of {T} e.

(** A [rapidjson::Value], as far as number reading looks at it: an
    integer literal, or something else. *)
Inductive Value : Type :=
| Integer (z : Z)
| Other.

(** [Value::IsUint64]. *)
Definition IsUint64 (src : Value) : bool :=
  match src with
  | Integer z => (0 <=? z) && (z <? 2 ^ 64)
  | Other => false
  end.

Definition GetUint64 (src : Value) : Z :=
  match src with
  | Integer z => z
  | Other => 0
  end.

Definition numeric_check (value min max : Z) : checked Z :=
  if value <? min then error_of kUnderflow
  else if max <? value then error_of kOverflow
  else value_of value.

Definition get_unsigned (src : Value) (max : Z) : checked Z :=
  if negb (IsUint64 src) then error_of kExpectedUnsigned
  else numeric_check (GetUint64 src) 0 max.

End json.

(** The values of a byte. *)
Definition byte_values : list Z := map Z.of_nat (seq 0 256).

(** ** Further sample data *)

Module fixtures.

Definition get_block_hash (block : cryptonote.block) : db.hash :=
  5000 + cryptonote.timestamp block.

Definition entry_at (timestamp : Z) : cryptonote.block_complete_entry :=
  {| cryptonote.block_ := {| cryptonote.timestamp := timestamp;
                             cryptonote.miner_tx := sample.miner_tx;
                             cryptonote.tx_hashes := [] |};
     cryptonote.transactions := [] |}.

(** Two blocks from height 50: the overlap block and block 51, whose miner
    transaction pays the sample user. *)
Definition response : rpc.GetBlocksFast.Response.t :=
  {| rpc.GetBlocksFast.Response.start_height := 50;
     rpc.GetBlocksFast.Response.blocks := [entry_at 1; entry_at 2];
     rpc.GetBlocksFast.Response.output_indices := [[[300]]; [[301]]] |}.

Definition request : rpc.GetBlocksFast.Request :=
  {| rpc.GetBlocksFast.start_height := 50; rpc.GetBlocksFast.prune := false |}.

(** Storage that updates every user it is given. *)
Definition update (start : db.block_id) (chain : list db.hash) (users : list lws.account)
  : expect Z := success (size users).

Definition users : list lws.account :=
  [sample.user; lws.updated sample.user 49; lws.updated sample.user 52].

(** Asks for 2 at mixin 2, which the sample account's output of 3 covers. *)
Definition small_request : rest_server.unspent_request :=
  {| rest_server.address := sample.address;
     rest_server.view_key := 5;
     rest_server.amount := 2;
     rest_server.mixin := Some 2;
     rest_server.use_dust := None;
     rest_server.dust_threshold := None |}.

Definition credentials : expect (db.account_address * Z) := success (sample.address, 5).

Definition last_block : rest_api.block_info := {| rest_api.id := 60; rest_api.hash := 0 |}.

Definition write_info (info : rest_api.address_info) : expect string :=
  success "info"%string.

Definition write_txs (txs : rest_api.address_txs) : expect string :=
  success "txs"%string.

(** A send that fails with [EAGAIN] 5 seconds in. *)
Definition blocked : sync.io_attempt :=
  {| sync.negative := true; sync.is_running := true;
     sync.since_start := 5; sync.errno := mzmq.EAGAIN |}.

(** A send that still fails 31 seconds in. *)
Definition late : sync.io_attempt :=
  {| sync.negative := true; sync.is_running := true;
     sync.since_start := 31; sync.errno := mzmq.EAGAIN |}.

Definition stuck_round : sync.round :=
  {| sync.send_attempts := [blocked; blocked; late];
     sync.msg_init_errno := None;
     sync.recv_attempts := [];
     sync.unpacked := Throw out_of_range;
     sync.disk_sync_chain := success tt |}.

Definition host : list Ascii.ascii := list_ascii_of_string "127.0.0.1".
Definition port : list Ascii.ascii := list_ascii_of_string "8443".

End fixtures.

(** * Properties *)

(** ** Sorted vectors: [lower_bound], [binary_search], [insert] *)

Section sorted_vectors.

Lemma le_transitive : Relations_1.Transitive Z.le.
Proof. intros x y z; apply Z.le_trans. Qed.

Lemma sorted_strongly (v : list Z) : sorted v <-> StronglySorted Z.le v.
Proof.
  split.
  - apply Sorted_StronglySorted, le_transitive.
  - apply StronglySorted_Sorted.
Qed.

Lemma strongly_sorted_nth (v : list Z) :
  StronglySorted Z.le v ->
  forall i j, (i <= j < length v)%nat -> nth i v 0 <= nth j v 0.
Proof.
  induction 1 as [|a l Hl IH Ha]; intros i j Hij; simpl in Hij.
  - lia.
  - destruct i as [|i], j as [|j]; simpl; try lia.
    + rewrite Forall_forall in Ha. apply Ha, nth_In. lia.
    + apply IH. lia.
Qed.

Lemma strongly_sorted_firstn (v : list Z) (n : nat) :
  StronglySorted Z.le v -> StronglySorted Z.le (firstn n v).
Proof.
  intros H; revert n.
  induction H as [|a l Hl IH Ha]; intros [|n]; simpl; try constructor.
  - apply IH.
  - rewrite Forall_forall in *. intros x Hx. apply Ha.
    rewrite <- (firstn_skipn n l). apply in_or_app. now left.
Qed.

Lemma strongly_sorted_skipn (v : list Z) (n : nat) :
  StronglySorted Z.le v -> StronglySorted Z.le (skipn n v).
Proof.
  intros H; revert n.
  induction H as [|a l Hl IH Ha]; intros [|n]; simpl; try constructor; auto.
Qed.

Lemma strongly_sorted_middle (a b : list Z) (x : Z) :
  StronglySorted Z.le a -> StronglySorted Z.le b ->
  Forall (fun y => y <= x) a -> Forall (fun y => x <= y) b ->
  StronglySorted Z.le (a ++ x :: b).
Proof.
  intros Ha Hb Hax Hxb.
  induction Ha as [|y a Ha IH Hy]; simpl.
  - now constructor.
  - inversion Hax as [|? ? Hyx Hax']; subst.
    constructor; [now apply IH|].
    apply Forall_app; split; [assumption|].
    constructor; [assumption|].
    rewrite Forall_forall in *. intros z Hz. specialize (Hxb z Hz). lia.
Qed.

(** The halving loop narrows [[first, first + len)] around the partition
    point of a sorted vector. *)
Lemma lower_bound_loop_spec (v : list Z) (val : Z) :
  StronglySorted Z.le v ->
  forall fuel first len,
    (len <= fuel)%nat -> (first + len <= length v)%nat ->
    (forall i, (i < first)%nat -> nth i v 0 < val) ->
    (forall i, (first + len <= i < length v)%nat -> val <= nth i v 0) ->
    let r := lower_bound_loop fuel v val first len in
    (first <= r <= first + len)%nat
    /\ (forall i, (i < r)%nat -> nth i v 0 < val)
    /\ (forall i, (r <= i < length v)%nat -> val <= nth i v 0).
Proof.
  intros Hv fuel.
  induction fuel as [|fuel IH]; intros first len Hfuel Hlen Hlo Hhi.
  - assert (len = 0%nat) by lia; subst len. simpl.
    repeat split; try lia; auto.
    intros i Hi. apply Hhi. lia.
  - destruct len as [|len'].
    + simpl. repeat split; try lia; auto.
      intros i Hi. apply Hhi. lia.
    + cbv zeta. cbn [lower_bound_loop].
      pose proof (Nat.lt_div2 (S len') ltac:(lia)) as Hhalf.
      set (half := Nat.div2 (S len')) in *.
      destruct (Z.ltb_spec (nth (first + half) v 0) val) as [Hlt|Hge].
      * destruct (IH (first + half + 1)%nat (S len' - half - 1)%nat) as (Hr & Hl & Hh);
          try lia.
        -- intros i Hi.
           assert (nth i v 0 <= nth (first + half) v 0)
             by (apply strongly_sorted_nth; [assumption|lia]).
           lia.
        -- intros i Hi. apply Hhi. lia.
        -- repeat split; try lia; assumption.
      * destruct (IH first half) as (Hr & Hl & Hh); try lia.
        -- assumption.
        -- intros i Hi.
           assert (nth (first + half) v 0 <= nth i v 0)
             by (apply strongly_sorted_nth; [assumption|lia]).
           lia.
        -- repeat split; try lia; assumption.
Qed.

Lemma lower_bound_spec (v : list Z) (val : Z) :
  sorted v ->
  (lower_bound v val <= length v)%nat
  /\ (forall i, (i < lower_bound v val)%nat -> nth i v 0 < val)
  /\ (forall i, (lower_bound v val <= i < length v)%nat -> val <= nth i v 0).
Proof.
  intros Hv. apply sorted_strongly in Hv.
  destruct (lower_bound_loop_spec v val Hv (length v) 0%nat (length v)) as (Hr & Hl & Hh);
    try lia.
  unfold lower_bound. repeat split; try lia; assumption.
Qed.

Lemma mem_In (v : list Z) (x : Z) : mem v x = true <-> In x v.
Proof.
  unfold mem. rewrite existsb_exists. split.
  - intros (y & Hy & E). apply Z.eqb_eq in E. now subst.
  - intros H. exists x. split; [assumption|apply Z.eqb_refl].
Qed.

(** On a sorted vector [std::binary_search] is membership. *)
Lemma binary_search_sorted (v : list Z) (val : Z) :
  sorted v -> binary_search v val = mem v val.
Proof.
  intros Hv.
  destruct (lower_bound_spec v val Hv) as (Hr & Hl & Hh).
  apply sorted_strongly in Hv.
  apply eq_true_iff_eq. rewrite mem_In.
  unfold binary_search. cbv zeta.
  rewrite andb_true_iff, negb_true_iff, Nat.ltb_lt, Z.ltb_ge.
  split.
  - intros [Hlt Hle].
    assert (val = nth (lower_bound v val) v 0) as -> by (specialize (Hh _ (conj (le_n _) Hlt)); lia).
    now apply nth_In.
  - intros Hin.
    destruct (In_nth v val 0 Hin) as (i & Hi & E).
    assert (lower_bound v val <= i)%nat as Hri.
    { destruct (Nat.le_gt_cases (lower_bound v val) i) as [|Hgt]; [assumption|].
      specialize (Hl i Hgt). lia. }
    split; [lia|].
    rewrite <- E at 2. apply strongly_sorted_nth; [assumption|lia].
Qed.

(** Inserting at [lower_bound] keeps a sorted vector sorted. *)
Lemma insert_lower_bound_sorted (v : list Z) (x : Z) :
  sorted v -> sorted (vector_insert v (lower_bound v x) x).
Proof.
  intros Hv.
  destruct (lower_bound_spec v x Hv) as (Hr & Hl & Hh).
  apply sorted_strongly in Hv. apply sorted_strongly.
  unfold vector_insert.
  apply strongly_sorted_middle.
  - now apply strongly_sorted_firstn.
  - now apply strongly_sorted_skipn.
  - apply Forall_forall. intros y Hy.
    destruct (In_nth _ _ 0 Hy) as (i & Hi & E).
    rewrite length_firstn in Hi.
    rewrite nth_firstn in E.
    destruct (Nat.ltb_spec i (lower_bound v x)) as [Hlt|]; [|lia].
    specialize (Hl i Hlt). lia.
  - apply Forall_forall. intros y Hy.
    destruct (In_nth _ _ 0 Hy) as (i & Hi & E).
    rewrite length_skipn in Hi.
    rewrite nth_skipn in E. subst y.
    apply Hh. lia.
Qed.

(** [add_out] keeps [received_] sorted and appends to [outputs_]. *)
Lemma add_out_sorted (self : lws.account) (out : db.output.t) :
  sorted (lws.received_ self) ->
  sorted (lws.received_ (lws.add_out self out)).
Proof. intros H. simpl. now apply insert_lower_bound_sorted. Qed.

End sorted_vectors.

(** ** The account's [received_] list *)

Section account_state.

(** The constructor hands its argument over as it came. *)
Lemma account_of_received (source : db.account.t) (received : list db.output_id) :
  lws.received_ (lws.account_of source received) = received.
Proof. reflexivity. Qed.

(** What the constructor's [std::sort] works on is the emptied parameter. *)
Lemma account_construct_sorts_parameter (source : db.account.t) (received : list db.output_id) :
  snd (lws.account_construct source received) = [].
Proof. reflexivity. Qed.

(** C1, at the failing input: an account built from the ids [[2; 1]] holds
    them in that order, so its [received_] is not sorted ascending, and the
    binary search of [check_spends] then finds neither id. *)
Theorem account_of_unsorted :
  lws.received_ (lws.account_of sample.row [2; 1]) = [2; 1]
  /\ ~ sorted (lws.received_ (lws.account_of sample.row [2; 1]))
  /\ binary_search (lws.received_ (lws.account_of sample.row [2; 1])) 2 = false
  /\ binary_search (lws.received_ (lws.account_of sample.row [2; 1])) 1 = false.
Proof.
  repeat split.
  intros H. rewrite account_of_received in H.
  inversion H as [|? ? _ Hhd]; subst.
  inversion Hhd as [|? ? Hle]; subst. lia.
Qed.

Lemma check_spend_fold (image : db.key_image) (mixin : Z) (offsets : list Z) :
  forall (id : Z) (self : lws.account),
    sorted (lws.received_ self) ->
    snd (fold_left (lws.check_spend image mixin) offsets (id, self))
    = with_spends self
        (lws.spends_ self
         ++ map (fun id => (id, {| db.spend.image := image; db.spend.mixin_count := mixin |}))
                (filter (mem (lws.received_ self)) (ring_ids id offsets))).
Proof.
  induction offsets as [|offset offsets IH]; intros id self Hs.
  - simpl. rewrite app_nil_r. now destruct self.
  - cbn [fold_left ring_ids filter]. cbv zeta.
    unfold lws.check_spend at 2.
    rewrite (binary_search_sorted _ _ Hs).
    destruct (mem (lws.received_ self) (u64 (id + offset))) eqn:E.
    + rewrite IH by exact Hs. unfold with_spends. cbn [lws.immutable lws.received_
        lws.spends_ lws.outputs_ lws.height map].
      now rewrite <- app_assoc.
    + now rewrite IH.
Qed.

(** C3: on a sorted [received_], [check_spends] appends to [spends_] one
    entry [(id, {image, max(1, n) - 1})] for each running sum [id] of the
    [n] offsets that is in [received_], in offset order, and changes nothing
    else.  The number of offsets is one that the 32-bit mixin count can
    hold, as it is for every ring. *)
Theorem check_spends_appends (self : lws.account) (image : db.key_image)
    (offsets : list Z) :
  sorted (lws.received_ self) ->
  size offsets - 1 <= u32_max ->
  lws.check_spends self image offsets
  = Ok (with_spends self
          (lws.spends_ self ++ ring_spends (lws.received_ self) image offsets)).
Proof.
  intros Hs Hn. unfold lws.check_spends, numeric_cast_u32.
  destruct (Z.leb_spec (Z.max 1 (size offsets) - 1) u32_max) as [_|Hgt];
    [|unfold u32_max in *; lia].
  now rewrite check_spend_fold.
Qed.

Lemma check_spends_appends_witness :
  lws.check_spends sample.user 42 [90; 5; 5]
  = Ok (with_spends sample.user
          [(100, {| db.spend.image := 42; db.spend.mixin_count := 2 |})]).
Proof.
  apply (check_spends_appends sample.user 42 [90; 5; 5]).
  - repeat constructor.
  - vm_compute. discriminate.
Defined.

(** Past that size the checked narrowing of the mixin count throws. *)
Lemma check_spends_throws (self : lws.account) (image : db.key_image) (offsets : list Z) :
  u32_max < size offsets - 1 ->
  lws.check_spends self image offsets = Throw bad_numeric_cast.
Proof.
  intros Hn. unfold lws.check_spends, numeric_cast_u32.
  destruct (Z.leb_spec (Z.max 1 (size offsets) - 1) u32_max);
    [unfold u32_max in *; lia|reflexivity].
Qed.

End account_state.

(** ** The packed [extra_and_length] byte *)

Section packed_byte.

(** Lengths that fit the five high bits come back. *)
Lemma unpack_pack_below_32 (val : db.extra) (length : Z) :
  In val db.extra_values -> 0 <= length < 32 ->
  db.unpack (db.pack val length) = (val, length).
Proof.
  intros Hval Hlen.
  assert (In length (map Z.of_nat (seq 0 32))) as Hin.
  { rewrite <- (Z2Nat.id length) by lia. apply in_map, in_seq. lia. }
  assert (Forall (fun len => Forall (fun e => db.unpack (db.pack e len) = (e, len))
                                    db.extra_values)
                 (map Z.of_nat (seq 0 32))) as Hall
    by (repeat (apply Forall_cons; [repeat (constructor; try reflexivity)|]);
        apply Forall_nil).
  rewrite Forall_forall in Hall. specialize (Hall length Hin).
  rewrite Forall_forall in Hall. exact (Hall val Hval).
Qed.

(** C2, at the failing input: a length of 32, which [pack]'s assertion
    allows and which the scanner passes for a long payment id, is shifted
    out of the byte; every variant comes back with length 0. *)
Theorem unpack_pack_32 :
  db.pack_assert 32
  /\ map (fun val => db.unpack (db.pack val 32)) db.extra_values
     = map (fun val => (val, 0)) db.extra_values.
Proof. split; [unfold db.pack_assert; lia | reflexivity]. Qed.

End packed_byte.

(** ** The socket wait helper *)

Section socket_wait.

(** With a clock that does not run backwards, no iteration of [wait] ever
    lowers the remaining timeout: [spent] is [start - end], which is not
    positive, so [min(spent, timeout)] is [spent] and subtracting it adds
    the elapsed time. *)
Lemma wait_loop_timeout_grows (events : list mzmq.poll_event) :
  forall st : mzmq.wait_state,
    0 <= mzmq.timeout st ->
    Forall (fun ev => 0 <= mzmq.after ev) events ->
    mzmq.timeout st <= mzmq.timeout (fst (mzmq.wait_loop events st)).
Proof.
  induction events as [|ev events IH]; intros st Ht Hev.
  - simpl. lia.
  - inversion Hev as [|? ? Hafter Hev']; subst.
    cbn [mzmq.wait_loop]. unfold mzmq.zmq_poll.
    set (st1 := fun elapsed : Z =>
                  {| mzmq.now := mzmq.now st + elapsed;
                     mzmq.timeout :=
                       mzmq.timeout st
                       - Z.min (mzmq.now st - (mzmq.now st + elapsed)) (mzmq.timeout st);
                     mzmq.polled := mzmq.polled st ++ [mzmq.timeout st] |}).
    assert (forall elapsed, 0 <= elapsed -> mzmq.timeout st <= mzmq.timeout (st1 elapsed))
      as Hst1 by (intros; simpl; lia).
    destruct ((0 <=? mzmq.timeout st) && (mzmq.timeout st <=? mzmq.after ev)).
    + cbv iota beta zeta. fold (st1 (mzmq.timeout st)).
      change (0 =? 0) with true. cbv iota. simpl fst. now apply Hst1.
    + cbv iota beta zeta. fold (st1 (mzmq.after ev)).
      specialize (Hst1 (mzmq.after ev) Hafter).
      destruct (mzmq.ready ev =? 0); [exact Hst1|].
      destruct (0 <? mzmq.ready ev); [exact Hst1|].
      destruct (negb (mzmq.errno ev =? mzmq.EINTR)); [exact Hst1|].
      etransitivity; [exact Hst1|]. apply IH; [lia|assumption].
Qed.

(** Three interrupted polls, by evaluation: the timeouts handed to
    [zmq_poll] are 1000, 1400 and 1800 ms. *)
Example wait_interrupted_thrice :
  mzmq.wait [sample.interrupted; sample.interrupted; sample.interrupted] 0 1000
  = ({| mzmq.now := 1200; mzmq.timeout := 2200; mzmq.polled := [1000; 1400; 1800] |},
     None).
Proof. reflexivity. Qed.

Lemma wait_loop_interrupted (k : nat) :
  forall st : mzmq.wait_state,
    400 < mzmq.timeout st ->
    snd (mzmq.wait_loop (repeat sample.interrupted k) st) = None
    /\ mzmq.now (fst (mzmq.wait_loop (repeat sample.interrupted k) st))
       = mzmq.now st + 400 * Z.of_nat k
    /\ mzmq.timeout (fst (mzmq.wait_loop (repeat sample.interrupted k) st))
       = mzmq.timeout st + 400 * Z.of_nat k.
Proof.
  induction k as [|k IH]; intros st Ht.
  - simpl. repeat split; lia.
  - cbn [repeat mzmq.wait_loop]. unfold mzmq.zmq_poll.
    change (mzmq.after sample.interrupted) with 400.
    destruct (Z.leb_spec (mzmq.timeout st) 400) as [|_]; [lia|].
    rewrite andb_false_r. cbv iota beta zeta.
    change (mzmq.ready sample.interrupted) with (-1).
    change (mzmq.errno sample.interrupted =? mzmq.EINTR) with true.
    cbn [Z.eqb Z.ltb Z.compare negb].
    destruct (IH {| mzmq.now := mzmq.now st + 400;
                    mzmq.timeout :=
                      mzmq.timeout st
                      - Z.min (mzmq.now st - (mzmq.now st + 400)) (mzmq.timeout st);
                    mzmq.polled := mzmq.polled st ++ [mzmq.timeout st] |})
      as (Hnone & Hnow & Htimeout); [simpl; lia|].
    rewrite Hnone, Hnow, Htimeout. cbn [mzmq.now mzmq.timeout].
    repeat split; lia.
Qed.

(** C4, at the failing input: a wait of 1000 ms whose poll is interrupted
    by a signal every 400 ms.  However many polls [k] go by, the wait has
    not returned; [400 * k] ms have passed and the remaining timeout stands
    at [1000 + 400 * k] ms, not at [1000 - 400 * k] clamped at zero. *)
Theorem wait_interrupted_never_expires (k : nat) :
  snd (mzmq.wait (repeat sample.interrupted k) 0 1000) = None
  /\ mzmq.now (fst (mzmq.wait (repeat sample.interrupted k) 0 1000)) = 400 * Z.of_nat k
  /\ mzmq.timeout (fst (mzmq.wait (repeat sample.interrupted k) 0 1000))
     = 1000 + 400 * Z.of_nat k.
Proof.
  unfold mzmq.wait.
  destruct (wait_loop_interrupted k
              {| mzmq.now := 0; mzmq.timeout := 1000; mzmq.polled := [] |})
    as (Hnone & Hnow & Htimeout); [simpl; lia|].
  rewrite Hnone, Hnow, Htimeout. simpl. repeat split; lia.
Qed.

(** A poll that runs into its timeout does return the connection failure. *)
Lemma wait_expires_when_idle (ev : mzmq.poll_event) (events : list mzmq.poll_event)
    (start timeout : Z) :
  0 <= timeout <= mzmq.after ev ->
  snd (mzmq.wait (ev :: events) start timeout)
  = Some (failure (lws_code kDaemonConnectionFailure)).
Proof.
  intros H. unfold mzmq.wait. cbn [mzmq.wait_loop mzmq.timeout mzmq.now]. unfold mzmq.zmq_poll.
  destruct (Z.leb_spec 0 timeout); [|lia].
  destruct (Z.leb_spec timeout (mzmq.after ev)); [|lia].
  reflexivity.
Qed.

End socket_wait.

(** ** Authorization by view key *)

Section authorization.
Context {prim : primitives}.

(** C5: [key_check] accepts a view key exactly when its public key can be
    derived and is the address's [view_public]. *)
Theorem key_check_iff (user : db.account_address) (key : Z) :
  rest_server.key_check user key = true
  <-> secret_key_to_public_key key = Some (db.view_public user).
Proof.
  unfold rest_server.key_check.
  destruct (secret_key_to_public_key key) as [verify|].
  - destruct (Z.eqb_spec verify (db.view_public user)) as [->|Hne]; simpl.
    + tauto.
    + split; [discriminate|]. intros [= E]. contradiction.
  - split; discriminate.
Qed.

End authorization.

(** ** The pipelined block request *)

Section pipelining.

Import rpc.GetBlocksFast.

(** C9, as amended: after a successful non-empty response whose start height
    is the one requested, the next request starts at the previous start
    plus the number of returned blocks minus one (in [std::uint64_t]), and
    the iteration goes on as the send of that request allows. *)
Theorem receive_head_next_start (req : Request) (resp : Response.t)
    (send : mzmq.send_outcome) :
  Response.blocks resp <> [] ->
  Response.start_height resp = start_height req ->
  scan_loop.receive_head req (success resp) send
  = ({| start_height := u64 (start_height req + size (Response.blocks resp) - 1);
        prune := prune req |},
     scan_loop.after_send send (scan_loop.head_scan resp)).
Proof.
  intros Hblocks Hstart. unfold scan_loop.receive_head.
  destruct (Response.blocks resp) as [|b blocks] eqn:E; [contradiction|].
  rewrite Hstart, Z.eqb_refl. reflexivity.
Qed.

Lemma receive_head_next_start_witness :
  scan_loop.receive_head
    {| start_height := 5; prune := false |}
    (success {| Response.start_height := 5;
                Response.blocks := [sample.entry; sample.entry; sample.entry];
                Response.output_indices := [] |})
    mzmq.sent
  = ({| start_height := 7; prune := false |},
     scan_loop.head_scan {| Response.start_height := 5;
                            Response.blocks := [sample.entry; sample.entry; sample.entry];
                            Response.output_indices := [] |}).
Proof.
  apply (receive_head_next_start
           {| start_height := 5; prune := false |}
           {| Response.start_height := 5;
              Response.blocks := [sample.entry; sample.entry; sample.entry];
              Response.output_indices := [] |}
           mzmq.sent).
  - simpl. discriminate.
  - reflexivity.
Defined.

(** A response that starts elsewhere ends the worker: nothing is computed
    and nothing is sent. *)
Lemma receive_head_wrong_start (req : Request) (resp : Response.t)
    (send : mzmq.send_outcome) :
  Response.blocks resp <> [] ->
  Response.start_height resp <> start_height req ->
  scan_loop.receive_head req (success resp) send = (req, scan_loop.head_return).
Proof.
  intros Hblocks Hstart. unfold scan_loop.receive_head.
  destruct (Response.blocks resp) as [|b blocks] eqn:E; [contradiction|].
  destruct (Z.eqb_spec (Response.start_height resp) (start_height req)); [contradiction|].
  reflexivity.
Qed.

(** C9 as stated fails: the request asked for height 5, the daemon answers
    with two blocks from height 7; the worker returns with the request
    still at 5, not at 5 + 2 - 1. *)
Lemma next_start_counterexample :
  let req := {| start_height := 5; prune := false |} in
  let resp := {| Response.start_height := 7;
                 Response.blocks := [sample.entry; sample.entry];
                 Response.output_indices := [] |} in
  Response.blocks resp <> []
  /\ scan_loop.receive_head req (success resp) mzmq.sent = (req, scan_loop.head_return)
  /\ start_height (fst (scan_loop.receive_head req (success resp) mzmq.sent))
     <> u64 (start_height req + size (Response.blocks resp) - 1).
Proof.
  cbv zeta. split; [discriminate|]. split; [reflexivity|].
  vm_compute. discriminate.
Qed.

End pipelining.

(** ** Chain sync *)

Section chain_sync.

Import rpc.GetHashesFast.

Lemma synced_iff (known : list db.hash) (resp : Response.t) :
  sync.synced known resp = true
  <-> size (Response.hashes resp) <= 1
      \/ last (Response.hashes resp) 0 = hd 0 known.
Proof.
  unfold sync.synced. rewrite orb_true_iff, Z.leb_le, Z.eqb_eq. tauto.
Qed.

(** Closes a case in which the round ends before a response is unpacked. *)
Ltac undelivered := split; [discriminate|intros (? & [=] & _)].

(** A round ends the loop with success exactly when its response arrives
    and passes the exit test. *)
Lemma sync_round_success (known : list db.hash) (r : sync.round) :
  sync.sync_round known r = sync.round_return (Ok (success tt))
  <-> exists resp, sync.delivered r = Some resp /\ sync.synced known resp = true.
Proof.
  unfold sync.sync_round, sync.delivered.
  destruct (sync.io_retry (sync.send_attempts r)); [|undelivered..].
  destruct (sync.msg_init_errno r); [undelivered|].
  destruct (sync.io_retry (sync.recv_attempts r)); [|undelivered..].
  destruct (sync.unpacked r) as [[resp|e]|e]; [|undelivered..].
  destruct (sync.synced known resp) eqn:E.
  - split; [intros _; now exists resp|reflexivity].
  - split.
    + destruct (sync.disk_sync_chain r); discriminate.
    + intros (resp' & [= <-] & E'). congruence.
Qed.

(** The locator is never empty after the first round. *)
Lemma next_known_hashes_nonempty (known hashes : list db.hash) :
  sync.next_known_hashes known hashes <> [].
Proof.
  unfold sync.next_known_hashes. intros H. apply app_eq_nil in H. destruct H; discriminate.
Qed.

(** The witnessing round is the first one: its outcome is the successful
    return, against what the case at hand says. *)
Ltac first_round Hloc Hnth resp :=
  simpl in Hloc, Hnth; injection Hloc as <-; injection Hnth as <-;
  match goal with
  | Er : sync.sync_round ?known ?r = _ |- _ =>
      assert (sync.sync_round known r = sync.round_return (Ok (success tt)))
        by (apply sync_round_success; now exists resp);
      congruence
  end.

Lemma sync_loop_success (rounds : list sync.round) :
  forall known : list db.hash,
    sync.sync_loop rounds known = Some (Ok (success tt))
    <-> exists n k r resp,
          sync.locator_at rounds known n = Some k
          /\ nth_error rounds n = Some r
          /\ sync.delivered r = Some resp
          /\ sync.synced k resp = true.
Proof.
  induction rounds as [|r rounds IH]; intros known.
  - destruct known as [|h known]; simpl.
    + split; [discriminate|]. intros ([|n] & k & r & resp & [=] & _).
    + split; [discriminate|]. intros ([|n] & k & r & resp & _ & [=] & _).
  - destruct known as [|h known].
    + simpl. split; [discriminate|]. intros ([|n] & k & r' & resp & [=] & _).
    + cbn [sync.sync_loop].
      destruct (sync.sync_round (h :: known) r) as [res|known'|] eqn:Er.
      * split.
        -- intros [= ->]. apply sync_round_success in Er. destruct Er as (resp & Hd & Hs).
           exists 0%nat, (h :: known), r, resp. repeat split; assumption.
        -- intros (n & k & r' & resp & Hloc & Hnth & Hd & Hs).
           destruct n as [|n].
           ++ f_equal. first_round Hloc Hnth resp.
           ++ cbn [sync.locator_at] in Hloc. rewrite Er in Hloc. discriminate.
      * rewrite IH. split.
        -- intros (n & k & r' & resp & Hloc & Hnth & Hd & Hs).
           exists (S n), k, r', resp. cbn [sync.locator_at nth_error]. rewrite Er.
           repeat split; assumption.
        -- intros (n & k & r' & resp & Hloc & Hnth & Hd & Hs).
           destruct n as [|n].
           ++ first_round Hloc Hnth resp.
           ++ cbn [sync.locator_at nth_error] in Hloc, Hnth. rewrite Er in Hloc.
              exists n, k, r', resp. repeat split; assumption.
      * split; [discriminate|].
        intros (n & k & r' & resp & Hloc & Hnth & Hd & Hs).
        destruct n as [|n].
        -- first_round Hloc Hnth resp.
        -- cbn [sync.locator_at] in Hloc. rewrite Er in Hloc. discriminate.
Qed.

(** C6: with an empty locator [sync_chain] fails with [BadBlockchain],
    whatever the daemon would do; and its loop ends with success exactly
    when some round is reached in which the response arrives and holds at
    most one hash, or ends in the first hash of the locator sent in that
    round. *)
Theorem sync_chain_exits (rounds : list sync.round) (known : list db.hash) :
  sync.sync_chain (success tt) (success []) rounds
  = Some (Ok (failure (lws_code kBadBlockchain)))
  /\ sync.sync_loop rounds [] = Some (Ok (failure (lws_code kBadBlockchain)))
  /\ (sync.sync_chain (success tt) (success known) rounds = Some (Ok (success tt))
      <-> exists n k r resp,
            sync.locator_at rounds known n = Some k
            /\ nth_error rounds n = Some r
            /\ sync.delivered r = Some resp
            /\ (size (Response.hashes resp) <= 1
                \/ last (Response.hashes resp) 0 = hd 0 k)).
Proof.
  split; [now destruct rounds|]. split; [now destruct rounds|].
  unfold sync.sync_chain. rewrite sync_loop_success.
  split; intros (n & k & r & resp & Hloc & Hnth & Hd & Hs);
    exists n, k, r, resp; repeat split; try assumption; now apply synced_iff.
Qed.

(** Two rounds by example: the first response brings new hashes, the second
    ends in the head of the rebuilt locator. *)
Example sync_chain_two_rounds :
  sync.sync_chain (success tt) (success [1; 2])
    [sample.round_with [3; 4; 5]; sample.round_with [9; 5]]
  = Some (Ok (success tt))
  /\ sync.locator_at [sample.round_with [3; 4; 5]; sample.round_with [9; 5]] [1; 2] 1
     = Some [5; 4; 3; 2].
Proof. split; reflexivity. Qed.

End chain_sync.

(** ** Unspent outputs *)

Section unspent_outputs.
Context {prim : primitives}.

Lemma u64_range (z : Z) : 0 <= u64 z < 2 ^ 64.
Proof. unfold u64. apply Z.mod_pos_bound. lia. Qed.

Lemma u64_le (z : Z) : 0 <= z -> u64 z <= z.
Proof. intros H. unfold u64. apply Z.mod_le; lia. Qed.

(** When every read of the spends goes through, the loop ends with a
    running total that the true total of the kept outputs bounds. *)
Lemma collect_unspent_total (reader : rest_server.storage_reader) (threshold mixin : Z)
    (outputs : list db.output.t) :
  forall (received : Z) (unspent : rest_server.unspent_list),
    0 <= received ->
    Forall (fun out => 0 <= db.output.amount out) outputs ->
    Forall (fun out =>
              rest_server.passes_filters threshold mixin out = true ->
              exists spends,
                rest_server.get_spends reader (db.output.id out) = success spends)
           outputs ->
    exists received' unspent',
      rest_server.collect_unspent reader threshold mixin outputs received unspent
      = success (received', unspent')
      /\ 0 <= received'
         <= received
            + rest_server.total_amount
                (filter (rest_server.passes_filters threshold mixin) outputs).
Proof.
  induction outputs as [|out outputs IH]; intros received unspent Hr Hpos Hsp.
  - exists received, unspent. simpl. split; [reflexivity|lia].
  - inversion Hpos as [|? ? Hout Hpos']; subst.
    inversion Hsp as [|? ? Hread Hsp']; subst.
    cbn [rest_server.collect_unspent filter]. unfold rest_server.passes_filters in *.
    destruct ((db.output.amount out <? threshold) || (db.output.mixin_count out <? mixin)).
    + simpl negb. cbv iota. now apply IH.
    + simpl negb in *. cbv iota. destruct (Hread eq_refl) as (spends & ->).
      pose proof (u64_range (received + db.output.amount out)) as Hrange.
      pose proof (u64_le (received + db.output.amount out) ltac:(lia)) as Hle.
      destruct (IH (u64 (received + db.output.amount out))
                   (unspent ++ [(out, map db.spend.image spends)]))
        as (received' & unspent' & E & Hbound); try assumption; try lia.
      exists received', unspent'. split; [exact E|].
      cbn [rest_server.total_amount fold_right].
      fold (rest_server.total_amount
              (filter (fun out0 =>
                         negb ((db.output.amount out0 <? threshold)
                               || (db.output.mixin_count out0 <? mixin))) outputs)).
      lia.
Qed.

(** C10: for an authenticated account that is found and not hidden, whose
    outputs and spends can be read, a total over the outputs that pass the
    dust-threshold and mixin filters below the requested amount makes
    [get_unspent_outs] fail with [NoSuchAccount]. *)
Theorem get_unspent_outs_insufficient
    (req : rest_server.unspent_request) (reader : rest_server.storage_reader)
    (generate_body : Z -> Z -> rest_server.unspent_list -> expect string)
    (logged_in : bool) (status : db.account_status) (user : db.account.t)
    (outputs : list db.output.t) :
  rest_server.key_check (rest_server.address req) (rest_server.view_key req) = true ->
  rest_server.get_account reader (rest_server.address req) = success (status, user) ->
  rest_server.is_hidden status = false ->
  rest_server.get_outputs reader (db.account.id user) = success outputs ->
  Forall (fun out => 0 <= db.output.amount out) outputs ->
  Forall (fun out =>
            rest_server.passes_filters (rest_server.effective_threshold req)
              (rest_server.effective_mixin req) out = true ->
            exists spends,
              rest_server.get_spends reader (db.output.id out) = success spends)
         outputs ->
  rest_server.total_amount
    (filter (rest_server.passes_filters (rest_server.effective_threshold req)
               (rest_server.effective_mixin req)) outputs)
  < rest_server.amount req ->
  rest_server.get_unspent_outs (success req) (success reader) generate_body logged_in
  = (true, failure (lws_code kNoSuchAccount)).
Proof.
  intros Hkey Hacct Hhidden Houts Hpos Hsp Htotal.
  unfold rest_server.get_unspent_outs.
  rewrite Hkey, Hacct, Hhidden, Houts. cbn [negb].
  destruct (collect_unspent_total reader (rest_server.effective_threshold req)
              (rest_server.effective_mixin req) outputs 0 [] ltac:(lia) Hpos Hsp)
    as (received & unspent & -> & Hbound).
  destruct (Z.ltb_spec received (rest_server.amount req)); [reflexivity|lia].
Qed.

End unspent_outputs.

(** The sample account holds 3 (mixin 4) and 20 (mixin 0); asked for 10 at
    mixin 2, only the 3 counts. *)
Lemma get_unspent_outs_insufficient_witness :
  @rest_server.get_unspent_outs sample.prim (success sample.request)
    (success sample.reader) sample.generate_body false
  = (true, failure (lws_code kNoSuchAccount)).
Proof.
  apply (@get_unspent_outs_insufficient sample.prim sample.request sample.reader
           sample.generate_body false db.kActive sample.row
           [sample.out_of 100 3 4; sample.out_of 101 20 0]).
  - reflexivity.
  - reflexivity.
  - reflexivity.
  - reflexivity.
  - repeat constructor; simpl; lia.
  - repeat constructor; intros _; exists []; reflexivity.
  - vm_compute. reflexivity.
Defined.

(** ** Users that are already past the block *)

Section frame.
Context {prim : primitives}.

Lemma scan_user_skips (height timestamp : Z) (tx : cryptonote.transaction)
    (out_ids : list Z) (pub_key : db.public_key) (c : scanner.tx_cache)
    (user : lws.account) :
  height <= lws.scan_height user ->
  scanner.scan_user height timestamp tx out_ids pub_key c user = (user, c, None).
Proof.
  intros H. unfold scanner.scan_user.
  destruct (Z.leb_spec height (lws.scan_height user)); [reflexivity|lia].
Qed.

Lemma scan_users_skips (height timestamp : Z) (tx : cryptonote.transaction)
    (out_ids : list Z) (pub_key : db.public_key) (users : list lws.account) :
  forall (c : scanner.tx_cache) (n : nat) (u : lws.account),
    nth_error users n = Some u ->
    height <= lws.scan_height u ->
    nth_error (fst (scanner.scan_users height timestamp tx out_ids pub_key c users)) n
    = Some u.
Proof.
  induction users as [|user users IH]; intros c n u Hn Hu.
  - destruct n; discriminate.
  - cbn [scanner.scan_users]. destruct n as [|n].
    + simpl in Hn. injection Hn as ->. rewrite scan_user_skips by assumption.
      destruct (scanner.scan_users height timestamp tx out_ids pub_key c users).
      reflexivity.
    + simpl in Hn.
      destruct (scanner.scan_user height timestamp tx out_ids pub_key c user)
        as [[user' c'] [e|]].
      * exact Hn.
      * specialize (IH c' n u Hn Hu).
        destruct (scanner.scan_users height timestamp tx out_ids pub_key c' users).
        exact IH.
Qed.

(** C8: a user whose [scan_height] is at or past the height being scanned
    comes out of [scan_transaction] as it went in, whether the call returns
    or throws. *)
Theorem scan_transaction_skips (users : list lws.account) (height timestamp : Z)
    (tx_hash : option db.hash) (tx : cryptonote.transaction) (out_ids : list Z)
    (n : nat) (u : lws.account) :
  nth_error users n = Some u ->
  height <= lws.scan_height u ->
  nth_error (fst (scanner.scan_transaction users height timestamp tx_hash tx out_ids)) n
  = Some u.
Proof.
  intros Hn Hu. unfold scanner.scan_transaction.
  destruct (2 <? cryptonote.version tx); [exact Hn|].
  destruct (find_tx_extra_pub_key (cryptonote.extra tx)); [|exact Hn].
  now apply scan_users_skips.
Qed.

End frame.

(** Scanning height 50 again: the sample user, at 50, is skipped although
    the output is theirs, while a copy still at 49 receives it. *)
Lemma scan_transaction_skips_witness :
  nth_error
    (fst (@scanner.scan_transaction sample.prim
            [lws.updated sample.user 49; sample.user] 50 0 None sample.miner_tx [200]))
    1
  = Some sample.user.
Proof.
  apply (@scan_transaction_skips sample.prim
           [lws.updated sample.user 49; sample.user] 50 0 None sample.miner_tx [200]
           1%nat sample.user).
  - reflexivity.
  - vm_compute. discriminate.
Defined.

(** ** The flags of scanned outputs *)

Section output_flags.
Context {prim : primitives}.

(** The three low bits survive [pack] and [unpack], whatever the length. *)
Lemma unpack_pack_extra (ext length : Z) :
  fst (db.unpack (db.pack ext length)) = Z.land ext 7.
Proof.
  unfold db.unpack, db.pack, u8. cbn [fst].
  apply Z.bits_inj'. intros n Hn.
  rewrite !Z.land_spec.
  destruct (Z.ltb_spec n 3) as [Hlt|Hge].
  - rewrite !Z.mod_pow2_bits_low by lia.
    rewrite Z.lor_spec, Z.land_spec, Z.shiftl_spec_low by lia.
    rewrite Z.mod_pow2_bits_low by lia.
    now rewrite orb_false_r, <- andb_assoc, andb_diag.
  - assert (Z.testbit 7 n = false) as ->
      by (apply Z.bits_above_log2; [lia|change (Z.log2 7) with 2; lia]).
    now rewrite !andb_false_r.
Qed.

Lemma extra_cases (ext : Z) :
  0 <= ext <= 3 -> ext = 0 \/ ext = 1 \/ ext = 2 \/ ext = 3.
Proof. lia. Qed.

Lemma carries_packed (flag : db.extra) (row : db.output.t) (ext : Z) :
  0 <= ext <= 3 ->
  fst (db.unpack (db.output.extra row)) = Z.land ext 7 ->
  carries flag row = flag_of flag ext.
Proof.
  intros Hext E. unfold carries, flag_of. rewrite E.
  destruct (extra_cases ext Hext) as [-> | [-> | [-> | ->]]]; reflexivity.
Qed.

Lemma record_output_step (height timestamp : Z) (tx : cryptonote.transaction)
    (out_ids : list Z) (pub_key : db.public_key) (ring_size index amount mask : Z)
    (st : scanner.out_state) :
  let '(st', thrown) :=
    scanner.record_output height timestamp tx out_ids pub_key ring_size index amount mask st in
  scanner.ext st' = scanner.ext st
  /\ ((scanner.user st' = scanner.user st /\ thrown <> None)
      \/ (thrown = None
          /\ exists row,
               scanner.user st' = lws.add_out (scanner.user st) row
               /\ db.output.index row = index
               /\ fst (db.unpack (db.output.extra row)) = Z.land (scanner.ext st) 7)).
Proof.
  unfold scanner.record_output. cbv zeta.
  destruct (nth_error out_ids (Z.to_nat index)) as [out_id|];
    [|split; [reflexivity|left; split; [reflexivity|discriminate]]].
  destruct (numeric_cast_u32 (Z.max 1 ring_size - 1)) as [mixin|e];
    [|split; [reflexivity|left; split; [reflexivity|discriminate]]].
  unfold numeric_cast_u32.
  destruct (index <=? u32_max);
    [|split; [reflexivity|left; split; [reflexivity|discriminate]]].
  split; [reflexivity|]. right. split; [reflexivity|].
  eexists. split; [reflexivity|]. split; [reflexivity|].
  cbn [db.output.extra scanner.ext]. apply unpack_pack_extra.
Qed.

Lemma decode_output_step (height timestamp : Z) (tx : cryptonote.transaction)
    (out_ids : list Z) (pub_key : db.public_key) (derived ring_size index : Z)
    (out : cryptonote.tx_out) (st : scanner.out_state) :
  let '(st', thrown) :=
    scanner.decode_output height timestamp tx out_ids pub_key derived ring_size index out st in
  output_step index out st st' thrown.
Proof.
  unfold scanner.decode_output, output_step. cbv zeta.
  destruct (cryptonote.amount out =? 0).
  - destruct (nth_error (rct.outPk (cryptonote.rct_signatures tx)) (Z.to_nat index)) as [pk|];
      [|left; split; [reflexivity|discriminate]].
    destruct (nth_error (rct.ecdhInfo (cryptonote.rct_signatures tx)) (Z.to_nat index))
      as [info|]; [|left; split; [reflexivity|discriminate]].
    destruct (decode_amount (rct.ctkey.mask pk) info derived index) as [[amount mask]|];
      [|left; split; reflexivity].
    pose proof (record_output_step height timestamp tx out_ids pub_key ring_size index
                  amount mask
                  {| scanner.user := scanner.user st;
                     scanner.ext := Z.lor (scanner.ext st) db.kRingct;
                     scanner.cache := scanner.cache st |}) as H.
    destruct (scanner.record_output _ _ _ _ _ _ _ _ _ _) as [st' thrown].
    cbn [scanner.user scanner.ext] in H.
    destruct H as (Hext & [[Huser Hthrown]|(Hnone & row & Hrow & Hidx & Hflags)]);
      [|subst thrown].
    + left. split; [exact Huser|]. intros ->. contradiction.
    + right. split; [reflexivity|]. split; [exact Hext|].
      exists row. rewrite Hext. repeat split; assumption.
  - pose proof (record_output_step height timestamp tx out_ids pub_key ring_size index
                  (cryptonote.amount out) 0 st) as H.
    destruct (scanner.record_output _ _ _ _ _ _ _ _ _ _) as [st' thrown].
    destruct H as (Hext & [[Huser Hthrown]|(Hnone & row & Hrow & Hidx & Hflags)]);
      [|subst thrown].
    + left. split; [exact Huser|intros _; exact Hext].
    + right. split; [reflexivity|]. split; [exact Hext|].
      exists row. rewrite Hext. repeat split; assumption.
Qed.

Lemma scan_output_step (height timestamp : Z) (tx : cryptonote.transaction)
    (out_ids : list Z) (pub_key : db.public_key) (derived ring_size index : Z)
    (out : cryptonote.tx_out) (st : scanner.out_state) :
  let '(st', thrown) :=
    scanner.scan_output height timestamp tx out_ids pub_key derived ring_size index out st in
  output_step index out st st' thrown.
Proof.
  unfold scanner.scan_output. cbv zeta.
  assert (output_step index out st st None) as Hskip by (left; split; reflexivity).
  destruct (cryptonote.target out) as [| |key]; try exact Hskip.
  destruct (negb _); [exact Hskip|].
  match goal with
  | |- context [scanner.tx_hash ?c] => set (c1 := c)
  end.
  destruct (scanner.tx_hash c1) as [h|].
  - apply (decode_output_step height timestamp tx out_ids pub_key derived ring_size index out
             {| scanner.user := scanner.user st; scanner.ext := scanner.ext st;
                scanner.cache := c1 |}).
  - destruct (get_transaction_hash tx) as [h|].
    + apply (decode_output_step height timestamp tx out_ids pub_key derived ring_size index
               out
               {| scanner.user := scanner.user st; scanner.ext := scanner.ext st;
                  scanner.cache :=
                    {| scanner.prefix_hash := scanner.prefix_hash c1;
                       scanner.tx_hash := Some h;
                       scanner.payment_id := scanner.payment_id c1 |} |}).
    + left. split; reflexivity.
Qed.

Lemma flags_follow_nil (tx : cryptonote.transaction) (coinbase ringct : bool) :
  flags_follow tx coinbase ringct [].
Proof. intros [|k] row H; discriminate. Qed.

(** The rows appended by the output loop from position [index] on. *)
Lemma scan_outputs_flags (height timestamp : Z) (tx : cryptonote.transaction)
    (out_ids : list Z) (pub_key : db.public_key) (derived ring_size : Z)
    (vout : list cryptonote.tx_out) :
  forall (index : Z) (st : scanner.out_state),
    0 <= index ->
    (forall j out, nth_error vout j = Some out ->
                   nth_error (cryptonote.vout tx) (Z.to_nat index + j) = Some out) ->
    0 <= scanner.ext st <= 3 ->
    exists rows,
      lws.outputs_
        (scanner.user
           (fst (scanner.scan_outputs height timestamp tx out_ids pub_key derived ring_size
                   vout index st)))
      = lws.outputs_ (scanner.user st) ++ rows
      /\ flags_follow tx (flag_of db.kCoinbase (scanner.ext st))
           (flag_of db.kRingct (scanner.ext st)) rows.
Proof.
  induction vout as [|out vout IH]; intros index st Hidx Hpos Hext.
  - exists []. simpl. rewrite app_nil_r. split; [reflexivity|apply flags_follow_nil].
  - cbn [scanner.scan_outputs].
    pose proof (scan_output_step height timestamp tx out_ids pub_key derived ring_size index
                  out st) as Hstep.
    destruct (scanner.scan_output _ _ _ _ _ _ _ _ _ _) as [st1 thrown].
    assert (forall j o, nth_error vout j = Some o ->
                        nth_error (cryptonote.vout tx) (Z.to_nat (index + 1) + j) = Some o)
      as Hpos'.
    { intros j o Hj. rewrite Z2Nat.inj_add by lia.
      replace (Z.to_nat index + Z.to_nat 1 + j)%nat with (Z.to_nat index + S j)%nat by lia.
      now apply Hpos. }
    destruct Hstep as [[Huser Hsame]|(Hnone & Hext1 & row & Hrow & Hindex & Hpacked)].
    + destruct thrown as [e|].
      * exists []. cbn [fst]. rewrite Huser, app_nil_r.
        split; [reflexivity|apply flags_follow_nil].
      * specialize (Hsame eq_refl).
        destruct (IH (index + 1) st1 ltac:(lia) Hpos' ltac:(lia)) as (rows & Hrows & Hflags).
        exists rows. rewrite Hrows, Huser, Hsame in *. split; [reflexivity|exact Hflags].
    + subst thrown.
      assert (0 <= scanner.ext st1 <= 3) as Hext1'.
      { rewrite Hext1. destruct (cryptonote.amount out =? 0); [|exact Hext].
        destruct (extra_cases _ Hext) as [-> | [-> | [-> | ->]]]; vm_compute; split; discriminate. }
      destruct (IH (index + 1) st1 ltac:(lia) Hpos' Hext1') as (rows & Hrows & Hflags).
      exists (row :: rows). split.
      * rewrite Hrows, Hrow. cbn [lws.add_out lws.outputs_]. now rewrite <- app_assoc.
      * assert (amount_was_zero tx row = (cryptonote.amount out =? 0)) as Hzero.
        { unfold amount_was_zero, amount_field. rewrite Hindex.
          specialize (Hpos 0%nat out eq_refl). rewrite Nat.add_0_r in Hpos.
          now rewrite Hpos. }
        assert (flag_of db.kCoinbase (scanner.ext st1) = flag_of db.kCoinbase (scanner.ext st)
                /\ flag_of db.kRingct (scanner.ext st1)
                   = flag_of db.kRingct (scanner.ext st) || amount_was_zero tx row)
          as [Hcb Hrct].
        { rewrite Hzero, Hext1.
          destruct (cryptonote.amount out =? 0);
            destruct (extra_cases _ Hext) as [-> | [-> | [-> | ->]]]; split; reflexivity. }
        intros [|k] row' Hk.
        -- simpl in Hk. injection Hk as <-.
           rewrite !(carries_packed _ row (scanner.ext st1)) by assumption.
           split; [exact Hcb|].
           cbn [firstn existsb]. now rewrite orb_false_r.
        -- simpl in Hk. destruct (Hflags k row' Hk) as [Hc Hr].
           split; [now rewrite Hc|].
           rewrite Hr, Hrct. cbn [firstn existsb]. now rewrite orb_assoc.
Qed.

Lemma check_spend_fold_outputs (image : db.key_image) (mixin : Z) (offsets : list Z) :
  forall (id : Z) (self : lws.account),
    lws.outputs_ (snd (fold_left (lws.check_spend image mixin) offsets (id, self)))
    = lws.outputs_ self.
Proof.
  induction offsets as [|offset offsets IH]; intros id self; [reflexivity|].
  cbn [fold_left]. unfold lws.check_spend at 2.
  destruct (binary_search _ _); now rewrite IH.
Qed.

(** The input loop touches no output row, and unless it throws it leaves
    [ring_size] at the size of the last ring. *)
Lemma scan_inputs_outputs (vin : list cryptonote.txin_v) :
  forall (ring_size : Z) (user : lws.account),
    let '(ring_size', user', thrown) := scanner.scan_inputs vin ring_size user in
    lws.outputs_ user' = lws.outputs_ user
    /\ (thrown = None ->
        ring_size'
        = fold_left
            (fun ring_size input =>
               match input with
               | cryptonote.txin_to_key _ key_offsets _ => size key_offsets
               | _ => ring_size
               end)
            vin ring_size).
Proof.
  induction vin as [|input vin IH]; intros ring_size user.
  - simpl. now split.
  - destruct input as [h| | |amount key_offsets k_image]; cbn [scanner.scan_inputs fold_left];
      try apply IH.
    unfold lws.check_spends.
    destruct (numeric_cast_u32 _) as [mixin|e].
    + specialize (IH (size key_offsets)
                     (snd (fold_left (lws.check_spend k_image mixin) key_offsets (0, user)))).
      destruct (scanner.scan_inputs vin _ _) as [[ring_size' user'] thrown].
      now rewrite check_spend_fold_outputs in IH.
    + split; [reflexivity|discriminate].
Qed.

Lemma scan_user_flags (height timestamp : Z) (tx : cryptonote.transaction)
    (out_ids : list Z) (pub_key : db.public_key) (c : scanner.tx_cache)
    (user : lws.account) :
  exists rows,
    lws.outputs_
      (fst (fst (scanner.scan_user height timestamp tx out_ids pub_key c user)))
    = lws.outputs_ user ++ rows
    /\ flags_follow tx (last_ring_size (cryptonote.vin tx) =? 0) false rows.
Proof.
  assert (forall (u : lws.account) (c' : scanner.tx_cache) (thrown : option exception),
             lws.outputs_ u = lws.outputs_ user ->
             exists rows,
               lws.outputs_ (fst (fst (u, c', thrown)))
               = lws.outputs_ user ++ rows
               /\ flags_follow tx (last_ring_size (cryptonote.vin tx) =? 0) false rows)
    as Hnone.
  { intros u c' thrown E. exists []. cbn [fst]. rewrite E, app_nil_r.
    split; [reflexivity|apply flags_follow_nil]. }
  unfold scanner.scan_user.
  destruct (height <=? lws.scan_height user); [now apply Hnone|].
  destruct (generate_key_derivation _ _) as [derived|]; [|now apply Hnone].
  pose proof (scan_inputs_outputs (cryptonote.vin tx) 0 user) as Hin.
  destruct (scanner.scan_inputs (cryptonote.vin tx) 0 user) as [[ring_size user1] [e|]];
    destruct Hin as [Houts Hring]; [now apply Hnone|].
  specialize (Hring eq_refl). fold (last_ring_size (cryptonote.vin tx)) in Hring.
  subst ring_size.
  set (ext := if last_ring_size (cryptonote.vin tx) =? 0 then db.kCoinbase else db.kNone).
  destruct (scan_outputs_flags height timestamp tx out_ids pub_key derived
              (last_ring_size (cryptonote.vin tx)) (cryptonote.vout tx) 0
              {| scanner.user := user1; scanner.ext := ext; scanner.cache := c |})
    as (rows & Hrows & Hflags).
  - lia.
  - intros j out Hj. exact Hj.
  - cbn [scanner.ext]. subst ext.
    destruct (last_ring_size (cryptonote.vin tx) =? 0); vm_compute; split; discriminate.
  - destruct (scanner.scan_outputs _ _ _ _ _ _ _ _ _ _) as [st thrown].
    cbn [fst scanner.user scanner.ext] in *.
    exists rows. rewrite Hrows, Houts. split; [reflexivity|].
    replace (last_ring_size (cryptonote.vin tx) =? 0) with (flag_of db.kCoinbase ext)
      by (subst ext; now destruct (last_ring_size (cryptonote.vin tx) =? 0)).
    replace false with (flag_of db.kRingct ext)
      by (subst ext; now destruct (last_ring_size (cryptonote.vin tx) =? 0)).
    exact Hflags.
Qed.

Lemma scan_users_flags (height timestamp : Z) (tx : cryptonote.transaction)
    (out_ids : list Z) (pub_key : db.public_key) (users : list lws.account) :
  forall (c : scanner.tx_cache) (n : nat) (u u' : lws.account),
    nth_error users n = Some u ->
    nth_error (fst (scanner.scan_users height timestamp tx out_ids pub_key c users)) n
    = Some u' ->
    exists rows,
      lws.outputs_ u' = lws.outputs_ u ++ rows
      /\ flags_follow tx (last_ring_size (cryptonote.vin tx) =? 0) false rows.
Proof.
  induction users as [|user users IH]; intros c n u u' Hn Hn'.
  - destruct n; discriminate.
  - cbn [scanner.scan_users] in Hn'.
    pose proof (scan_user_flags height timestamp tx out_ids pub_key c user) as Huser.
    destruct (scanner.scan_user height timestamp tx out_ids pub_key c user)
      as [[user' c'] thrown].
    cbn [fst] in Huser.
    destruct thrown as [e|].
    + destruct n as [|n]; simpl in Hn, Hn'.
      * injection Hn as <-. injection Hn' as <-. exact Huser.
      * rewrite Hn in Hn'. injection Hn' as <-.
        exists []. rewrite app_nil_r. split; [reflexivity|apply flags_follow_nil].
    + specialize (IH c').
      destruct (scanner.scan_users height timestamp tx out_ids pub_key c' users)
        as [rest thrown].
      destruct n as [|n]; simpl in Hn, Hn'.
      * injection Hn as <-. injection Hn' as <-. exact Huser.
      * now apply (IH n).
Qed.

(** The rows that [scan_transaction] appends for a user follow the [ext]
    variable of the code: all carry [kCoinbase] exactly if [ring_size] ends
    at zero, and a row carries [kRingct] exactly if its own amount field,
    or that of a row appended before it for the same user by the same
    call, was zero. *)
Lemma scan_transaction_ext (users : list lws.account) (height timestamp : Z)
    (tx_hash : option db.hash) (tx : cryptonote.transaction) (out_ids : list Z)
    (n : nat) (u u' : lws.account) :
  nth_error users n = Some u ->
  nth_error (fst (scanner.scan_transaction users height timestamp tx_hash tx out_ids)) n
  = Some u' ->
  exists rows,
    lws.outputs_ u' = lws.outputs_ u ++ rows
    /\ forall (k : nat) (row : db.output.t),
         nth_error rows k = Some row ->
         carries db.kCoinbase row = (last_ring_size (cryptonote.vin tx) =? 0)
         /\ carries db.kRingct row = existsb (amount_was_zero tx) (firstn (S k) rows).
Proof.
  intros Hn Hn'.
  assert (u' = u ->
          exists rows,
            lws.outputs_ u' = lws.outputs_ u ++ rows
            /\ flags_follow tx (last_ring_size (cryptonote.vin tx) =? 0) false rows)
    as Hsame.
  { intros ->. exists []. rewrite app_nil_r. split; [reflexivity|apply flags_follow_nil]. }
  unfold scanner.scan_transaction in Hn'.
  destruct (2 <? cryptonote.version tx); [apply Hsame; cbn [fst] in Hn'; congruence|].
  destruct (find_tx_extra_pub_key (cryptonote.extra tx)) as [pub_key|];
    [|apply Hsame; cbn [fst] in Hn'; congruence].
  exact (scan_users_flags height timestamp tx out_ids pub_key users _ n u u' Hn Hn').
Qed.

End output_flags.


(** * Further properties *)

(** ** Searching and inserting without the sortedness assumption *)

Section any_vector.

(** Where the halving loop stops, the element is not below [val], unless
    the loop stops at the end of the range it never left. *)
Lemma lower_bound_loop_stop (v : list Z) (val : Z) :
  forall fuel first len,
    (len <= fuel)%nat ->
    (first + len)%nat = length v \/ val <= nth (first + len) v 0 ->
    let r := lower_bound_loop fuel v val first len in
    r = length v \/ val <= nth r v 0.
Proof.
  induction fuel as [|fuel IH]; intros first len Hfuel Hinv.
  - assert (len = 0%nat) by lia; subst len. simpl. now rewrite Nat.add_0_r in Hinv.
  - destruct len as [|len'].
    + simpl. now rewrite Nat.add_0_r in Hinv.
    + cbv zeta. cbn [lower_bound_loop].
      pose proof (Nat.lt_div2 (S len') ltac:(lia)) as Hhalf.
      set (half := Nat.div2 (S len')) in *.
      destruct (Z.ltb_spec (nth (first + half) v 0) val) as [Hlt|Hge].
      * apply IH; [lia|].
        replace (first + half + 1 + (S len' - half - 1))%nat with (first + S len')%nat by lia.
        exact Hinv.
      * apply IH; [lia|]. now right.
Qed.

(** [std::binary_search] has no false positives, sorted vector or not. *)
Lemma binary_search_In (v : list Z) (val : Z) :
  binary_search v val = true -> In val v.
Proof.
  unfold binary_search. cbv zeta.
  rewrite andb_true_iff, negb_true_iff, Nat.ltb_lt, Z.ltb_ge.
  intros [Hlt Hle].
  destruct (lower_bound_loop_stop v val (length v) 0%nat (length v)) as [Hend|Hge];
    [lia|now left|fold (lower_bound v val) in Hend; lia|].
  fold (lower_bound v val) in Hge.
  assert (val = nth (lower_bound v val) v 0) as -> by lia.
  now apply nth_In.
Qed.

Lemma vector_insert_permutation (v : list Z) (pos : nat) (x : Z) :
  Permutation (vector_insert v pos x) (v ++ [x]).
Proof.
  unfold vector_insert.
  rewrite <- (firstn_skipn pos v) at 3.
  rewrite <- app_assoc.
  apply Permutation_app_head.
  change (x :: skipn pos v) with ([x] ++ skipn pos v).
  apply Permutation_app_comm.
Qed.

End any_vector.

(** ** More on the account state *)

Section account_more.

Lemma check_spend_fold_frame (image : db.key_image) (mixin : Z) (offsets : list Z) :
  forall (id : Z) (self : lws.account),
    exists new,
      snd (fold_left (lws.check_spend image mixin) offsets (id, self))
      = with_spends self (lws.spends_ self ++ new)
      /\ (length new <= length offsets)%nat
      /\ Forall (fun entry =>
                   In (fst entry) (lws.received_ self)
                   /\ snd entry = {| db.spend.image := image; db.spend.mixin_count := mixin |})
                new.
Proof.
  induction offsets as [|offset offsets IH]; intros id self.
  - exists []. simpl. rewrite app_nil_r. split; [now destruct self|]. split; [lia|constructor].
  - cbn [fold_left]. unfold lws.check_spend at 2.
    destruct (binary_search (lws.received_ self) (u64 (id + offset))) eqn:E.
    + match goal with
      | |- context [fold_left _ offsets (?i, ?s)] => destruct (IH i s) as (new & Hnew & Hlen & Hall)
      end.
      cbn [lws.received_ lws.spends_] in *.
      exists ((u64 (id + offset),
               {| db.spend.image := image; db.spend.mixin_count := mixin |}) :: new).
      split; [|split].
      * rewrite Hnew. unfold with_spends. cbn [lws.immutable lws.received_ lws.outputs_
          lws.height]. now rewrite <- app_assoc.
      * simpl. lia.
      * constructor; [|exact Hall]. split; [|reflexivity].
        now apply binary_search_In.
    + destruct (IH (u64 (id + offset)) self) as (new & Hnew & Hlen & Hall).
      exists new. split; [exact Hnew|]. split; [simpl; lia|exact Hall].
Qed.

(** X1: whenever [check_spends] returns, sorted [received_] or not, it has
    only appended to [spends_]: at most one entry per offset, each for an
    id that is in [received_], with the given key image and a mixin of
    [max(1, n) - 1]. *)
Theorem check_spends_sound (self self' : lws.account) (image : db.key_image)
    (offsets : list Z) :
  lws.check_spends self image offsets = Ok self' ->
  exists new,
    self' = with_spends self (lws.spends_ self ++ new)
    /\ (length new <= length offsets)%nat
    /\ Forall (fun entry =>
                 In (fst entry) (lws.received_ self)
                 /\ snd entry = {| db.spend.image := image;
                                   db.spend.mixin_count := Z.max 1 (size offsets) - 1 |})
              new.
Proof.
  unfold lws.check_spends, numeric_cast_u32.
  destruct (Z.max 1 (size offsets) - 1 <=? u32_max); [|discriminate].
  intros [= <-]. apply check_spend_fold_frame.
Qed.

Lemma check_spends_sound_witness :
  exists new,
    with_spends sample.user
      [(100, {| db.spend.image := 42; db.spend.mixin_count := 2 |})]
    = with_spends sample.user (lws.spends_ sample.user ++ new)
    /\ (length new <= length [90; 5; 5])%nat
    /\ Forall (fun entry =>
                 In (fst entry) (lws.received_ sample.user)
                 /\ snd entry = {| db.spend.image := 42;
                                   db.spend.mixin_count := Z.max 1 (size [90; 5; 5]) - 1 |})
              new.
Proof.
  apply (check_spends_sound sample.user
           (with_spends sample.user
              [(100, {| db.spend.image := 42; db.spend.mixin_count := 2 |})])
           42 [90; 5; 5]).
  reflexivity.
Defined.

(** X2: on a sorted [received_], a search after [add_out] finds the id of
    the added output and otherwise what it found before. *)
Theorem add_out_lookup (self : lws.account) (out : db.output.t) (id : db.output_id) :
  sorted (lws.received_ self) ->
  binary_search (lws.received_ (lws.add_out self out)) id
  = (id =? db.output.id out) || binary_search (lws.received_ self) id.
Proof.
  intros Hs.
  rewrite (binary_search_sorted _ _ (add_out_sorted self out Hs)).
  rewrite (binary_search_sorted _ _ Hs).
  apply eq_true_iff_eq.
  rewrite orb_true_iff, !mem_In, Z.eqb_eq.
  cbn [lws.add_out lws.received_].
  split.
  - intros H. apply (Permutation_in _ (vector_insert_permutation _ _ _)) in H.
    apply in_app_or in H. destruct H as [H|[H|[]]]; auto.
  - intros H. apply (Permutation_in _ (Permutation_sym (vector_insert_permutation _ _ _))).
    apply in_or_app. destruct H as [->|H]; [right; now left|now left].
Qed.

Lemma add_out_lookup_witness :
  binary_search (lws.received_ (lws.add_out sample.user (sample.out_of 7 1 0))) 7
  = (7 =? db.output.id (sample.out_of 7 1 0)) || binary_search (lws.received_ sample.user) 7.
Proof.
  apply (add_out_lookup sample.user (sample.out_of 7 1 0) 7).
  repeat constructor.
Defined.

(** X3: on an account whose [received_] is sorted, an output recorded by
    [add_out] is recognised when it is spent in a later batch: after
    [updated] has cleared the scratch lists, a ring of at most [2^32]
    members whose offsets sum up to the output's id yields a spend for that
    id (possibly after spends for earlier ring members).  Without the
    sortedness the search of [check_spends] can miss the id. *)
Theorem add_out_then_spent (self : lws.account) (out : db.output.t)
    (new_height : db.block_id) (image : db.key_image) (offsets : list Z) :
  sorted (lws.received_ self) ->
  size offsets - 1 <= u32_max ->
  In (db.output.id out) (ring_ids 0 offsets) ->
  exists self',
    lws.check_spends (lws.updated (lws.add_out self out) new_height) image offsets = Ok self'
    /\ In (db.output.id out,
           {| db.spend.image := image;
              db.spend.mixin_count := Z.max 1 (size offsets) - 1 |})
          (lws.spends_ self')
    /\ lws.outputs_ self' = [].
Proof.
  intros Hs Hn Hin.
  unfold lws.check_spends, numeric_cast_u32.
  destruct (Z.leb_spec (Z.max 1 (size offsets) - 1) u32_max) as [_|Hgt];
    [|unfold u32_max in *; lia].
  eexists. split; [reflexivity|].
  rewrite check_spend_fold by (apply (add_out_sorted self out Hs)).
  cbn [with_spends lws.spends_ lws.outputs_ lws.updated lws.received_ app].
  split; [|reflexivity].
  apply in_map_iff. exists (db.output.id out). split; [reflexivity|].
  apply filter_In. split; [exact Hin|].
  apply mem_In.
  apply (Permutation_in _ (Permutation_sym (vector_insert_permutation _ _ _))).
  apply in_or_app. right. now left.
Qed.

Lemma add_out_then_spent_witness :
  exists self',
    lws.check_spends (lws.updated (lws.add_out sample.user (sample.out_of 95 1 0)) 51)
      42 [90; 5; 5]
    = Ok self'
    /\ In (95, {| db.spend.image := 42;
                  db.spend.mixin_count := Z.max 1 (size [90; 5; 5]) - 1 |})
          (lws.spends_ self')
    /\ lws.outputs_ self' = [].
Proof.
  apply (add_out_then_spent sample.user (sample.out_of 95 1 0) 51 42 [90; 5; 5]).
  - repeat constructor.
  - vm_compute. discriminate.
  - vm_compute. auto.
Defined.

End account_more.

(** ** What scanning keeps of every user *)

Section scanning_invariants.
Context {prim : primitives}.

Lemma grows_refl (u : lws.account) : grows u u.
Proof.
  repeat split; auto.
  exists [], []. rewrite !app_nil_r. repeat split; auto.
Qed.

Lemma grows_trans (u1 u2 u3 : lws.account) : grows u1 u2 -> grows u2 u3 -> grows u1 u3.
Proof.
  intros (Hi1 & Hh1 & Hs1 & s1 & r1 & Hsp1 & Ho1 & Hp1 & Hf1)
         (Hi2 & Hh2 & Hs2 & s2 & r2 & Hsp2 & Ho2 & Hp2 & Hf2).
  split; [congruence|]. split; [congruence|]. split; [auto|].
  exists (s1 ++ s2), (r1 ++ r2).
  split; [rewrite Hsp2, Hsp1; now rewrite app_assoc|].
  split; [rewrite Ho2, Ho1; now rewrite app_assoc|].
  split.
  - rewrite Hp2, map_app, app_assoc. now apply Permutation_app_tail.
  - apply Forall_app. split; [|exact Hf2].
    rewrite Forall_forall in *. intros e He.
    apply (Permutation_in _ (Permutation_sym Hp2)), in_or_app. left. now apply Hf1.
Qed.

Lemma add_out_grows (u : lws.account) (out : db.output.t) : grows u (lws.add_out u out).
Proof.
  split; [reflexivity|]. split; [reflexivity|]. split; [apply add_out_sorted|].
  exists [], [out]. rewrite app_nil_r.
  repeat split; try constructor.
  cbn [lws.add_out lws.received_ map]. apply vector_insert_permutation.
Qed.

Lemma check_spends_grows (u u' : lws.account) (image : db.key_image) (offsets : list Z) :
  lws.check_spends u image offsets = Ok u' -> grows u u'.
Proof.
  intros H. apply check_spends_sound in H. destruct H as (new & -> & _ & Hall).
  split; [reflexivity|]. split; [reflexivity|]. split; [auto|].
  exists new, []. rewrite !app_nil_r. repeat split; auto.
  cbn [with_spends lws.received_].
  eapply Forall_impl; [|exact Hall]. intros e [He _]. exact He.
Qed.

Lemma scan_inputs_grows (vin : list cryptonote.txin_v) :
  forall (ring_size : Z) (u : lws.account),
    grows u (snd (fst (scanner.scan_inputs vin ring_size u))).
Proof.
  induction vin as [|input vin IH]; intros ring_size u.
  - apply grows_refl.
  - destruct input as [h| | |amount key_offsets k_image]; cbn [scanner.scan_inputs];
      try apply IH.
    destruct (lws.check_spends u k_image key_offsets) as [u'|e] eqn:E.
    + apply (grows_trans _ u'); [now apply check_spends_grows in E|apply IH].
    + apply grows_refl.
Qed.

Lemma scan_output_grows (height timestamp : Z) (tx : cryptonote.transaction)
    (out_ids : list Z) (pub_key : db.public_key) (derived ring_size index : Z)
    (out : cryptonote.tx_out) (st : scanner.out_state) :
  grows (scanner.user st)
    (scanner.user
       (fst (scanner.scan_output height timestamp tx out_ids pub_key derived ring_size
               index out st))).
Proof.
  pose proof (scan_output_step height timestamp tx out_ids pub_key derived ring_size index
                out st) as H.
  destruct (scanner.scan_output _ _ _ _ _ _ _ _ _ _) as [st' thrown].
  cbn [fst].
  destruct H as [[-> _]|(_ & _ & row & -> & _)].
  - apply grows_refl.
  - apply add_out_grows.
Qed.

Lemma scan_outputs_grows (height timestamp : Z) (tx : cryptonote.transaction)
    (out_ids : list Z) (pub_key : db.public_key) (derived ring_size : Z)
    (vout : list cryptonote.tx_out) :
  forall (index : Z) (st : scanner.out_state),
    grows (scanner.user st)
      (scanner.user
         (fst (scanner.scan_outputs height timestamp tx out_ids pub_key derived ring_size
                 vout index st))).
Proof.
  induction vout as [|out vout IH]; intros index st.
  - apply grows_refl.
  - cbn [scanner.scan_outputs].
    pose proof (scan_output_grows height timestamp tx out_ids pub_key derived ring_size
                  index out st) as H.
    destruct (scanner.scan_output _ _ _ _ _ _ _ _ _ _) as [st' [e|]]; cbn [fst] in *.
    + exact H.
    + apply (grows_trans _ (scanner.user st')); [exact H|apply IH].
Qed.

Lemma scan_user_grows (height timestamp : Z) (tx : cryptonote.transaction)
    (out_ids : list Z) (pub_key : db.public_key) (c : scanner.tx_cache)
    (u : lws.account) :
  grows u (fst (fst (scanner.scan_user height timestamp tx out_ids pub_key c u))).
Proof.
  unfold scanner.scan_user.
  destruct (height <=? lws.scan_height u); [apply grows_refl|].
  destruct (generate_key_derivation _ _) as [derived|]; [|apply grows_refl].
  pose proof (scan_inputs_grows (cryptonote.vin tx) 0 u) as Hin.
  destruct (scanner.scan_inputs (cryptonote.vin tx) 0 u) as [[ring_size u1] [e|]];
    cbn [fst snd] in *; [exact Hin|].
  match goal with
  | |- context [scanner.scan_outputs ?a ?b ?c0 ?d ?e0 ?f ?g ?h ?i ?st] =>
      pose proof (scan_outputs_grows a b c0 d e0 f g h i st) as Hout;
      destruct (scanner.scan_outputs a b c0 d e0 f g h i st) as [st' thrown]
  end.
  cbn [fst scanner.user] in *.
  now apply (grows_trans _ u1).
Qed.

Lemma scan_users_grows (height timestamp : Z) (tx : cryptonote.transaction)
    (out_ids : list Z) (pub_key : db.public_key) (users : list lws.account) :
  forall c : scanner.tx_cache,
    Forall2 grows users
      (fst (scanner.scan_users height timestamp tx out_ids pub_key c users)).
Proof.
  induction users as [|u users IH]; intros c.
  - constructor.
  - cbn [scanner.scan_users].
    pose proof (scan_user_grows height timestamp tx out_ids pub_key c u) as Hu.
    destruct (scanner.scan_user height timestamp tx out_ids pub_key c u)
      as [[u' c'] [e|]]; cbn [fst] in *.
    + constructor; [exact Hu|]. clear. induction users; constructor; auto using grows_refl.
    + specialize (IH c').
      destruct (scanner.scan_users height timestamp tx out_ids pub_key c' users).
      now constructor.
Qed.

Lemma Forall2_grows_refl (users : list lws.account) : Forall2 grows users users.
Proof. induction users; constructor; auto using grows_refl. Qed.

Lemma Forall2_grows_trans (us1 us2 us3 : list lws.account) :
  Forall2 grows us1 us2 -> Forall2 grows us2 us3 -> Forall2 grows us1 us3.
Proof.
  intros H12. revert us3.
  induction H12 as [|u1 u2 us1 us2 Hu H12 IH]; intros us3 H23; inversion H23; subst.
  - constructor.
  - constructor; [now apply (grows_trans _ u2)|now apply IH].
Qed.

Lemma scan_transaction_grows (users : list lws.account) (height timestamp : Z)
    (tx_hash : option db.hash) (tx : cryptonote.transaction) (out_ids : list Z) :
  Forall2 grows users
    (fst (scanner.scan_transaction users height timestamp tx_hash tx out_ids)).
Proof.
  unfold scanner.scan_transaction.
  destruct (2 <? cryptonote.version tx); [apply Forall2_grows_refl|].
  destruct (find_tx_extra_pub_key (cryptonote.extra tx)); [|apply Forall2_grows_refl].
  apply scan_users_grows.
Qed.

Lemma Forall2_nth_error {A B : Type} (R : A -> B -> Prop) (l : list A) (l' : list B) :
  Forall2 R l l' ->
  forall n a b, nth_error l n = Some a -> nth_error l' n = Some b -> R a b.
Proof.
  induction 1 as [|x y l l' Hxy H IH]; intros [|n] a b Ha Hb; simpl in *;
    try discriminate.
  - congruence.
  - now apply (IH n).
Qed.

(** X4: [scan_transaction] keeps the [received_] list of every user sorted,
    whether it returns or throws. *)
Theorem scan_transaction_keeps_sorted (users : list lws.account) (height timestamp : Z)
    (tx_hash : option db.hash) (tx : cryptonote.transaction) (out_ids : list Z)
    (n : nat) (u u' : lws.account) :
  nth_error users n = Some u ->
  nth_error (fst (scanner.scan_transaction users height timestamp tx_hash tx out_ids)) n
  = Some u' ->
  sorted (lws.received_ u) ->
  sorted (lws.received_ u').
Proof.
  intros Hn Hn' Hs.
  destruct (Forall2_nth_error _ _ _
              (scan_transaction_grows users height timestamp tx_hash tx out_ids)
              n u u' Hn Hn') as (_ & _ & Hsorted & _).
  now apply Hsorted.
Qed.

(** X5: [scan_transaction] neither adds nor drops a user, leaves the shared
    part and the scan height of each as they are, and only appends to
    [spends_] and [outputs_], whether it returns or throws. *)
Theorem scan_transaction_frame (users : list lws.account) (height timestamp : Z)
    (tx_hash : option db.hash) (tx : cryptonote.transaction) (out_ids : list Z) :
  let users' := fst (scanner.scan_transaction users height timestamp tx_hash tx out_ids) in
  length users' = length users
  /\ forall (n : nat) (u u' : lws.account),
       nth_error users n = Some u ->
       nth_error users' n = Some u' ->
       lws.immutable u' = lws.immutable u
       /\ lws.scan_height u' = lws.scan_height u
       /\ firstn (length (lws.spends_ u)) (lws.spends_ u') = lws.spends_ u
       /\ firstn (length (lws.outputs_ u)) (lws.outputs_ u') = lws.outputs_ u.
Proof.
  cbv zeta.
  pose proof (scan_transaction_grows users height timestamp tx_hash tx out_ids) as H.
  split; [symmetry; now apply (Forall2_length H)|].
  intros n u u' Hn Hn'.
  destruct (Forall2_nth_error _ _ _ H n u u' Hn Hn')
    as (Hi & Hh & _ & spends & rows & Hsp & Ho & _).
  repeat split; try assumption.
  - rewrite Hsp, firstn_app, Nat.sub_diag, firstn_all. simpl. apply app_nil_r.
  - rewrite Ho, firstn_app, Nat.sub_diag, firstn_all. simpl. apply app_nil_r.
Qed.

(** X6: after [scan_transaction] the [received_] list of a user holds what
    it held before and the ids of the rows appended to [outputs_], each
    once more per row, so that every output found can later be recognised
    as spent. *)
Theorem scan_transaction_received (users : list lws.account) (height timestamp : Z)
    (tx_hash : option db.hash) (tx : cryptonote.transaction) (out_ids : list Z)
    (n : nat) (u u' : lws.account) :
  nth_error users n = Some u ->
  nth_error (fst (scanner.scan_transaction users height timestamp tx_hash tx out_ids)) n
  = Some u' ->
  Permutation (lws.received_ u')
    (lws.received_ u
     ++ map db.output.id (skipn (length (lws.outputs_ u)) (lws.outputs_ u'))).
Proof.
  intros Hn Hn'.
  destruct (Forall2_nth_error _ _ _
              (scan_transaction_grows users height timestamp tx_hash tx out_ids)
              n u u' Hn Hn') as (_ & _ & _ & spends & rows & _ & Ho & Hp & _).
  rewrite Ho, skipn_app, Nat.sub_diag, skipn_all. exact Hp.
Qed.

(** X7: every spend that [scan_transaction] appends for a user names an
    output id that is in the user's [received_], sorted or not. *)
Theorem scan_transaction_spends_known (users : list lws.account) (height timestamp : Z)
    (tx_hash : option db.hash) (tx : cryptonote.transaction) (out_ids : list Z)
    (n : nat) (u u' : lws.account) (entry : db.output_id * db.spend.t) :
  nth_error users n = Some u ->
  nth_error (fst (scanner.scan_transaction users height timestamp tx_hash tx out_ids)) n
  = Some u' ->
  In entry (skipn (length (lws.spends_ u)) (lws.spends_ u')) ->
  In (fst entry) (lws.received_ u').
Proof.
  intros Hn Hn' Hin.
  destruct (Forall2_nth_error _ _ _
              (scan_transaction_grows users height timestamp tx_hash tx out_ids)
              n u u' Hn Hn') as (_ & _ & _ & spends & rows & Hsp & _ & _ & Hall).
  rewrite Hsp, skipn_app, Nat.sub_diag, skipn_all in Hin. simpl in Hin.
  rewrite Forall_forall in Hall. now apply Hall.
Qed.

End scanning_invariants.

(** ** Every row stands for an owned output *)

Section owned_rows.
Context {prim : primitives}.

Lemma record_output_row (height timestamp : Z) (tx : cryptonote.transaction)
    (out_ids : list Z) (pub_key : db.public_key) (ring_size index amount mask : Z)
    (st : scanner.out_state) :
  let st' :=
    fst (scanner.record_output height timestamp tx out_ids pub_key ring_size index amount
           mask st) in
  scanner.user st' = scanner.user st
  \/ exists row,
       scanner.user st' = lws.add_out (scanner.user st) row
       /\ row_fields height timestamp tx out_ids pub_key ring_size index amount mask row.
Proof.
  unfold scanner.record_output. cbv zeta.
  destruct (nth_error out_ids (Z.to_nat index)) as [out_id|] eqn:Eid; [|now left].
  destruct (numeric_cast_u32 (Z.max 1 ring_size - 1)) as [mixin|e] eqn:Emix; [|now left].
  unfold numeric_cast_u32 in *.
  destruct (index <=? u32_max); [|now left].
  destruct (Z.max 1 ring_size - 1 <=? u32_max); [|discriminate].
  injection Emix as <-.
  right. eexists. split; [reflexivity|].
  unfold row_fields. cbn. repeat split. exact Eid.
Qed.

Lemma decode_output_row (height timestamp : Z) (tx : cryptonote.transaction)
    (out_ids : list Z) (pub_key : db.public_key) (derived ring_size index : Z)
    (out : cryptonote.tx_out) (st : scanner.out_state) :
  let st' :=
    fst (scanner.decode_output height timestamp tx out_ids pub_key derived ring_size index
           out st) in
  scanner.user st' = scanner.user st
  \/ exists row amount mask,
       scanner.user st' = lws.add_out (scanner.user st) row
       /\ row_fields height timestamp tx out_ids pub_key ring_size index amount mask row
       /\ (if cryptonote.amount out =? 0
           then exists pk info,
                  nth_error (rct.outPk (cryptonote.rct_signatures tx)) (Z.to_nat index)
                  = Some pk
                  /\ nth_error (rct.ecdhInfo (cryptonote.rct_signatures tx)) (Z.to_nat index)
                     = Some info
                  /\ decode_amount (rct.ctkey.mask pk) info derived index
                     = Some (amount, mask)
           else amount = cryptonote.amount out /\ mask = 0).
Proof.
  unfold scanner.decode_output. cbv zeta.
  destruct (cryptonote.amount out =? 0).
  - destruct (nth_error (rct.outPk _) _) as [pk|]; [|now left].
    destruct (nth_error (rct.ecdhInfo _) _) as [info|]; [|now left].
    destruct (decode_amount _ _ _ _) as [[amount mask]|] eqn:Edec; [|now left].
    match goal with
    | |- context [scanner.record_output ?a ?b ?c ?d ?e ?f ?g ?h ?i ?s] =>
        destruct (record_output_row a b c d e f g h i s) as [H|(row & H & Hf)]
    end.
    + left. exact H.
    + right. exists row, amount, mask. split; [exact H|]. split; [exact Hf|].
      exists pk, info. auto.
  - destruct (record_output_row height timestamp tx out_ids pub_key ring_size index
                (cryptonote.amount out) 0 st) as [H|(row & H & Hf)].
    + left. exact H.
    + right. exists row, (cryptonote.amount out), 0. auto.
Qed.

Lemma scan_output_row (height timestamp : Z) (tx : cryptonote.transaction)
    (out_ids : list Z) (pub_key : db.public_key) (derived ring_size index : Z)
    (out : cryptonote.tx_out) (st : scanner.out_state) :
  nth_error (cryptonote.vout tx) (Z.to_nat index) = Some out ->
  let st' :=
    fst (scanner.scan_output height timestamp tx out_ids pub_key derived ring_size index
           out st) in
  scanner.user st' = scanner.user st
  \/ exists row,
       scanner.user st' = lws.add_out (scanner.user st) row
       /\ db.output.index row = index
       /\ row_backed height timestamp tx out_ids pub_key derived
            (lws.spend_public (scanner.user st)) ring_size row.
Proof.
  intros Hout. unfold scanner.scan_output. cbv zeta.
  destruct (cryptonote.target out) as [| |key] eqn:Etarget; try now left.
  destruct (derive_public_key derived index (lws.spend_public (scanner.user st)))
    as [derived_pub|] eqn:Ederive; [|now left].
  destruct (Z.eqb_spec derived_pub key) as [->|]; [|now left].
  cbn [negb].
  assert (forall st0 : scanner.out_state,
             scanner.user st0 = scanner.user st ->
             scanner.user
               (fst (scanner.decode_output height timestamp tx out_ids pub_key derived
                       ring_size index out st0))
             = scanner.user st
             \/ exists row,
                  scanner.user
                    (fst (scanner.decode_output height timestamp tx out_ids pub_key derived
                            ring_size index out st0))
                  = lws.add_out (scanner.user st) row
                  /\ db.output.index row = index
                  /\ row_backed height timestamp tx out_ids pub_key derived
                       (lws.spend_public (scanner.user st)) ring_size row) as Hdecode.
  { intros st0 E.
    destruct (decode_output_row height timestamp tx out_ids pub_key derived ring_size index
                out st0) as [H|(row & amount & mask & H & Hf & Ham)].
    - left. congruence.
    - right. exists row. rewrite H, E. split; [reflexivity|].
      assert (db.output.index row = index) as Hidx by apply Hf.
      split; [exact Hidx|].
      exists out, key, amount, mask. rewrite Hidx. auto. }
  match goal with
  | |- context [scanner.tx_hash ?c] => set (c1 := c)
  end.
  destruct (scanner.tx_hash c1).
  - now apply Hdecode.
  - destruct (get_transaction_hash tx); [now apply Hdecode|now left].
Qed.

Lemma scan_outputs_rows (height timestamp : Z) (tx : cryptonote.transaction)
    (out_ids : list Z) (pub_key : db.public_key) (derived ring_size : Z)
    (vout : list cryptonote.tx_out) :
  forall (index : Z) (st : scanner.out_state),
    0 <= index ->
    (forall j out, nth_error vout j = Some out ->
                   nth_error (cryptonote.vout tx) (Z.to_nat index + j) = Some out) ->
    exists rows,
      lws.outputs_
        (scanner.user
           (fst (scanner.scan_outputs height timestamp tx out_ids pub_key derived ring_size
                   vout index st)))
      = lws.outputs_ (scanner.user st) ++ rows
      /\ lws.spend_public
           (scanner.user
              (fst (scanner.scan_outputs height timestamp tx out_ids pub_key derived
                      ring_size vout index st)))
         = lws.spend_public (scanner.user st)
      /\ Forall (row_backed height timestamp tx out_ids pub_key derived
                   (lws.spend_public (scanner.user st)) ring_size) rows.
Proof.
  induction vout as [|out vout IH]; intros index st Hidx Hpos.
  - exists []. simpl. rewrite app_nil_r. auto.
  - cbn [scanner.scan_outputs].
    assert (nth_error (cryptonote.vout tx) (Z.to_nat index) = Some out) as Hout
      by (specialize (Hpos 0%nat out eq_refl); now rewrite Nat.add_0_r in Hpos).
    pose proof (scan_output_row height timestamp tx out_ids pub_key derived ring_size index
                  out st Hout) as Hstep.
    destruct (scanner.scan_output _ _ _ _ _ _ _ _ _ _) as [st1 thrown].
    cbn [fst] in Hstep.
    assert (forall j o, nth_error vout j = Some o ->
                        nth_error (cryptonote.vout tx) (Z.to_nat (index + 1) + j) = Some o)
      as Hpos'.
    { intros j o Hj. rewrite Z2Nat.inj_add by lia.
      replace (Z.to_nat index + Z.to_nat 1 + j)%nat with (Z.to_nat index + S j)%nat by lia.
      now apply Hpos. }
    destruct thrown as [e|].
    + cbn [fst].
      destruct Hstep as [->|(row & -> & _ & Hrow)].
      * exists []. rewrite app_nil_r. auto.
      * exists [row]. auto.
    + destruct (IH (index + 1) st1 ltac:(lia) Hpos') as (rows & Hrows & Hspend & Hall).
      destruct Hstep as [E|(row & E & _ & Hrow)]; rewrite E in *.
      * exists rows. auto.
      * exists (row :: rows). split; [|split].
        -- rewrite Hrows. cbn [lws.add_out lws.outputs_]. now rewrite <- app_assoc.
        -- exact Hspend.
        -- constructor; assumption.
Qed.

(** X8: every row that [scan_transaction] appends for a user is at the
    height scanned, above the user's scan height, and stands for an output
    of the transaction that is the user's: the output at the row's index is
    a to-key output whose key is the one derived from the transaction key,
    the user's view key and spend key for that index; the row's id is the
    entry of [out_ids] at that index, its mixin is [max(1, ring_size) - 1],
    and its amount is the output's plain amount, or the decoded one when
    that is zero. *)
Theorem scan_transaction_rows_owned (users : list lws.account) (height timestamp : Z)
    (tx_hash : option db.hash) (tx : cryptonote.transaction) (out_ids : list Z)
    (n : nat) (u u' : lws.account) (row : db.output.t) :
  nth_error users n = Some u ->
  nth_error (fst (scanner.scan_transaction users height timestamp tx_hash tx out_ids)) n
  = Some u' ->
  In row (skipn (length (lws.outputs_ u)) (lws.outputs_ u')) ->
  lws.scan_height u < height
  /\ exists pub_key derived,
       find_tx_extra_pub_key (cryptonote.extra tx) = Some pub_key
       /\ generate_key_derivation pub_key (lws.view_key (lws.immutable u)) = Some derived
       /\ row_backed height timestamp tx out_ids pub_key derived (lws.spend_public u)
            (last_ring_size (cryptonote.vin tx)) row.
Proof.
  intros Hn Hn' Hin.
  assert (forall v : lws.account,
             lws.outputs_ v = lws.outputs_ u ->
             ~ In row (skipn (length (lws.outputs_ u)) (lws.outputs_ v))) as Hnone.
  { intros v E. rewrite E, skipn_all. auto. }
  unfold scanner.scan_transaction in Hn'.
  destruct (2 <? cryptonote.version tx);
    [cbn [fst] in Hn'; exfalso; apply (Hnone u' ltac:(congruence)); exact Hin|].
  destruct (find_tx_extra_pub_key (cryptonote.extra tx)) as [pub_key|];
    [|cbn [fst] in Hn'; exfalso; apply (Hnone u' ltac:(congruence)); exact Hin].
  revert n Hn Hn'.
  generalize ({| scanner.prefix_hash := None; scanner.tx_hash := tx_hash;
                 scanner.payment_id := None |}).
  induction users as [|user users IH]; intros c n Hn Hn'; [destruct n; discriminate|].
  cbn [scanner.scan_users] in Hn'.
  destruct n as [|n].
  - simpl in Hn. injection Hn as ->.
    assert (u' = fst (fst (scanner.scan_user height timestamp tx out_ids pub_key c u)))
      as Hu'.
    { destruct (scanner.scan_user height timestamp tx out_ids pub_key c u)
        as [[u1 c1] [e|]]; cbn [fst] in *.
      - simpl in Hn'. congruence.
      - destruct (scanner.scan_users height timestamp tx out_ids pub_key c1 users).
        simpl in Hn'. congruence. }
    clear Hn' IH. subst u'. revert Hin.
    unfold scanner.scan_user.
    destruct (Z.leb_spec height (lws.scan_height u)) as [|Hheight];
      [intros Hin; exfalso; now apply (Hnone u)|].
    destruct (generate_key_derivation pub_key (lws.view_key (lws.immutable u)))
      as [derived|] eqn:Ederived; [|intros Hin; exfalso; now apply (Hnone u)].
    pose proof (scan_inputs_outputs (cryptonote.vin tx) 0 u) as Hin1.
    pose proof (scan_inputs_grows (cryptonote.vin tx) 0 u) as Hgrow.
    destruct (scanner.scan_inputs (cryptonote.vin tx) 0 u) as [[ring_size u1] [e|]];
      destruct Hin1 as [Houts Hring]; cbn [fst snd] in *;
      [intros Hin; exfalso; now apply (Hnone u1)|].
    specialize (Hring eq_refl). fold (last_ring_size (cryptonote.vin tx)) in Hring.
    subst ring_size.
    match goal with
    | |- context [scanner.scan_outputs ?a ?b ?c0 ?d ?e0 ?f ?g ?h ?i ?st] =>
        destruct (scan_outputs_rows a b c0 d e0 f g h i st ltac:(lia)
                    ltac:(intros j o Hj; exact Hj)) as (rows & Hrows & _ & Hall);
        destruct (scanner.scan_outputs a b c0 d e0 f g h i st) as [st' thrown]
    end.
    cbn [fst scanner.user] in *.
    rewrite Hrows, Houts, skipn_app, Nat.sub_diag, skipn_all. simpl.
    intros Hin. split; [exact Hheight|].
    exists pub_key, derived. split; [reflexivity|]. split; [exact Ederived|].
    rewrite Forall_forall in Hall.
    replace (lws.spend_public u) with (lws.spend_public u1)
      by (unfold lws.spend_public; destruct Hgrow as (-> & _); reflexivity).
    now apply Hall.
  - simpl in Hn.
    destruct (scanner.scan_user height timestamp tx out_ids pub_key c user)
      as [[u1 c1] [e|]]; cbn [fst] in *.
    + simpl in Hn'. exfalso. apply (Hnone u'); [congruence|exact Hin].
    + specialize (IH c1 n Hn).
      destruct (scanner.scan_users height timestamp tx out_ids pub_key c1 users).
      simpl in Hn'. now apply IH.
Qed.

End owned_rows.

(** ** The flags of the outputs of a well-formed transaction *)

Section conforming_flags.
Context {prim : primitives}.

(** With no empty ring, [ring_size] ends at zero exactly when the loop met
    no to-key input and started from zero. *)
Lemma ring_size_zero (vin : list cryptonote.txin_v) :
  forall ring_size : Z,
    forallb
      (fun input =>
         match input with
         | cryptonote.txin_to_key _ key_offsets _ => 0 <? size key_offsets
         | _ => true
         end)
      vin = true ->
    (fold_left
       (fun ring_size input =>
          match input with
          | cryptonote.txin_to_key _ key_offsets _ => size key_offsets
          | _ => ring_size
          end)
       vin ring_size =? 0)
    = negb (existsb is_to_key vin) && (ring_size =? 0).
Proof.
  induction vin as [|input vin IH]; intros ring_size Hall; [reflexivity|].
  simpl in Hall. apply andb_true_iff in Hall as [Hin Hall].
  cbn [fold_left existsb]. rewrite (IH _ Hall).
  destruct input as [h| | |amount key_offsets image]; cbn [is_to_key orb negb andb];
    try reflexivity.
  apply Z.ltb_lt in Hin.
  destruct (Z.eqb_spec (size key_offsets) 0); [lia|]. apply andb_false_r.
Qed.

Lemma last_ring_size_zero (tx : cryptonote.transaction) :
  rings_nonempty tx = true ->
  (last_ring_size (cryptonote.vin tx) =? 0) = negb (has_ring_inputs tx).
Proof.
  intros Hall. unfold last_ring_size, has_ring_inputs.
  rewrite (ring_size_zero _ 0 Hall). apply andb_true_r.
Qed.

(** Every appended row was made from an output of the transaction. *)
Lemma scan_transaction_rows_index (users : list lws.account) (height timestamp : Z)
    (tx_hash : option db.hash) (tx : cryptonote.transaction) (out_ids : list Z)
    (n : nat) (u u' : lws.account) (row : db.output.t) :
  nth_error users n = Some u ->
  nth_error (fst (scanner.scan_transaction users height timestamp tx_hash tx out_ids)) n
  = Some u' ->
  In row (skipn (length (lws.outputs_ u)) (lws.outputs_ u')) ->
  exists out,
    nth_error (cryptonote.vout tx) (Z.to_nat (db.output.index row)) = Some out.
Proof.
  intros Hn Hn' Hin.
  assert (forall v : lws.account,
             lws.outputs_ v = lws.outputs_ u ->
             ~ In row (skipn (length (lws.outputs_ u)) (lws.outputs_ v))) as Hnone.
  { intros v E. rewrite E, skipn_all. auto. }
  unfold scanner.scan_transaction in Hn'.
  destruct (2 <? cryptonote.version tx);
    [cbn [fst] in Hn'; exfalso; apply (Hnone u' ltac:(congruence)); exact Hin|].
  destruct (find_tx_extra_pub_key (cryptonote.extra tx)) as [pub_key|];
    [|cbn [fst] in Hn'; exfalso; apply (Hnone u' ltac:(congruence)); exact Hin].
  revert n Hn Hn'.
  generalize ({| scanner.prefix_hash := None; scanner.tx_hash := tx_hash;
                 scanner.payment_id := None |}).
  induction users as [|user users IH]; intros c n Hn Hn'; [destruct n; discriminate|].
  cbn [scanner.scan_users] in Hn'.
  destruct n as [|n].
  - simpl in Hn. injection Hn as ->.
    assert (u' = fst (fst (scanner.scan_user height timestamp tx out_ids pub_key c u)))
      as Hu'.
    { destruct (scanner.scan_user height timestamp tx out_ids pub_key c u)
        as [[u1 c1] [e|]]; cbn [fst] in *.
      - simpl in Hn'. congruence.
      - destruct (scanner.scan_users height timestamp tx out_ids pub_key c1 users).
        simpl in Hn'. congruence. }
    clear Hn' IH. subst u'. revert Hin.
    unfold scanner.scan_user.
    destruct (height <=? lws.scan_height u);
      [intros Hin; exfalso; now apply (Hnone u)|].
    destruct (generate_key_derivation pub_key (lws.view_key (lws.immutable u)))
      as [derived|]; [|intros Hin; exfalso; now apply (Hnone u)].
    pose proof (scan_inputs_outputs (cryptonote.vin tx) 0 u) as Hin1.
    destruct (scanner.scan_inputs (cryptonote.vin tx) 0 u) as [[ring_size u1] [e|]];
      destruct Hin1 as [Houts _]; cbn [fst snd] in *;
      [intros Hin; exfalso; now apply (Hnone u1)|].
    match goal with
    | |- context [scanner.scan_outputs ?a ?b ?c0 ?d ?e0 ?f ?g ?h ?i ?st] =>
        destruct (scan_outputs_rows a b c0 d e0 f g h i st ltac:(lia)
                    ltac:(intros j o Hj; exact Hj)) as (rows & Hrows & _ & Hall);
        destruct (scanner.scan_outputs a b c0 d e0 f g h i st) as [st' thrown]
    end.
    cbn [fst scanner.user] in *.
    rewrite Hrows, Houts, skipn_app, Nat.sub_diag, skipn_all. simpl.
    intros Hin. rewrite Forall_forall in Hall.
    destruct (Hall row Hin) as (out & key & amount & mask & Hout & _).
    now exists out.
  - simpl in Hn.
    destruct (scanner.scan_user height timestamp tx out_ids pub_key c user)
      as [[u1 c1] [e|]]; cbn [fst] in *.
    + simpl in Hn'. exfalso. apply (Hnone u'); [congruence|exact Hin].
    + specialize (IH c1 n Hn).
      destruct (scanner.scan_users height timestamp tx out_ids pub_key c1 users).
      simpl in Hn'. now apply IH.
Qed.

(** C7: for a transaction in which every to-key input names at least one
    ring member and the amount fields of the outputs are all zero or all
    non-zero, every row that [scan_transaction] appends for a user carries
    [kCoinbase] exactly if the transaction has no ring (to-key) input, and
    carries [kRingct] exactly if the amount field of its output was zero
    (and so was decrypted from the ringct data). *)
Theorem scan_transaction_flags (users : list lws.account) (height timestamp : Z)
    (tx_hash : option db.hash) (tx : cryptonote.transaction) (out_ids : list Z)
    (n : nat) (u u' : lws.account) :
  rings_nonempty tx = true ->
  amounts_uniform tx = true ->
  nth_error users n = Some u ->
  nth_error (fst (scanner.scan_transaction users height timestamp tx_hash tx out_ids)) n
  = Some u' ->
  exists rows,
    lws.outputs_ u' = lws.outputs_ u ++ rows
    /\ Forall (fun row =>
                 carries db.kCoinbase row = negb (has_ring_inputs tx)
                 /\ carries db.kRingct row = amount_was_zero tx row)
              rows.
Proof.
  intros Hrings Hamounts Hn Hn'.
  destruct (scan_transaction_ext users height timestamp tx_hash tx out_ids n u u' Hn Hn')
    as (rows & Hrows & Hflags).
  exists rows. split; [exact Hrows|].
  assert (forall row, In row rows ->
            exists out,
              nth_error (cryptonote.vout tx) (Z.to_nat (db.output.index row)) = Some out)
    as Hindex.
  { intros row Hin.
    apply (scan_transaction_rows_index users height timestamp tx_hash tx out_ids n u u' row
             Hn Hn').
    now rewrite Hrows, skipn_app, Nat.sub_diag, skipn_all. }
  apply Forall_forall. intros row Hin.
  destruct (In_nth_error _ _ Hin) as [k Hk].
  destruct (Hflags k row Hk) as [Hcoinbase Hringct].
  split; [now rewrite Hcoinbase, last_ring_size_zero|].
  rewrite Hringct.
  assert (In row (firstn (S k) rows)) as Hfirst.
  { apply (nth_error_In _ k). rewrite nth_error_firstn.
    destruct (Nat.ltb_spec k (S k)); [exact Hk|lia]. }
  unfold amounts_uniform in Hamounts. apply orb_true_iff in Hamounts.
  destruct Hamounts as [Hzero|Hplain].
  - assert (forall r, amount_was_zero tx r = true) as Hall.
    { intros r. unfold amount_was_zero, amount_field.
      destruct (nth_error (cryptonote.vout tx) (Z.to_nat (db.output.index r)))
        as [out|] eqn:Eout; [|reflexivity].
      rewrite forallb_forall in Hzero. apply Hzero. eapply nth_error_In, Eout. }
    rewrite Hall. apply existsb_exists. exists row. auto.
  - assert (forall r, In r rows -> amount_was_zero tx r = false) as Hall.
    { intros r Hr. unfold amount_was_zero, amount_field.
      destruct (Hindex r Hr) as [out Eout]. rewrite Eout.
      rewrite forallb_forall in Hplain. apply negb_true_iff, Hplain.
      eapply nth_error_In, Eout. }
    rewrite (Hall row Hin).
    apply not_true_iff_false. intros Hex.
    apply existsb_exists in Hex as (r & Hr & Hzero).
    rewrite Hall in Hzero; [discriminate|].
    rewrite <- (firstn_skipn (S k) rows). apply in_or_app. now left.
Qed.

End conforming_flags.

(** ** A whole response *)

Section whole_response.
Context {prim : primitives}.
Variable get_block_hash : cryptonote.block -> db.hash.

Import rpc.GetBlocksFast.

Lemma scan_txes_grows (height timestamp : Z) (tx_hashes : list db.hash) :
  forall (txes : list cryptonote.transaction) (indices : list (list Z))
         (users : list lws.account),
    Forall2 grows users
      (fst (scan_batch.scan_txes users height timestamp tx_hashes txes indices)).
Proof.
  induction tx_hashes as [|h tx_hashes IH]; intros txes indices users;
    [apply Forall2_grows_refl|].
  destruct txes as [|tx txes]; [apply Forall2_grows_refl|].
  destruct indices as [|ids indices]; [apply Forall2_grows_refl|].
  cbn [scan_batch.scan_txes].
  pose proof (scan_transaction_grows users height timestamp (Some h) tx ids) as H.
  destruct (scanner.scan_transaction users height timestamp (Some h) tx ids)
    as [users' [e|]]; cbn [fst] in *; [exact H|].
  apply (Forall2_grows_trans _ users'); [exact H|apply IH].
Qed.

Lemma scan_block_grows (st : scan_batch.batch_state)
    (entry : cryptonote.block_complete_entry) (indices : list (list Z)) :
  Forall2 grows (scan_batch.users st)
    (scan_batch.users (fst (scan_batch.scan_block get_block_hash st entry indices))).
Proof.
  unfold scan_batch.scan_block. cbv zeta.
  destruct (negb _); [apply Forall2_grows_refl|].
  destruct indices as [|miner_ids indices]; [apply Forall2_grows_refl|].
  cbn [scan_batch.users].
  match goal with
  | |- context [scanner.scan_transaction ?a ?b ?c ?d ?e ?f] =>
      pose proof (scan_transaction_grows a b c d e f) as Hminer;
      destruct (scanner.scan_transaction a b c d e f) as [users' [e1|]]
  end; cbn [fst] in *; [exact Hminer|].
  destruct (negb _); [exact Hminer|].
  match goal with
  | |- context [scan_batch.scan_txes ?a ?b ?c ?d ?e ?f] =>
      pose proof (scan_txes_grows b c d e f a) as Htxes;
      destruct (scan_batch.scan_txes a b c d e f) as [users'' [e2|]]
  end; cbn [fst scan_batch.users] in *;
    now apply (Forall2_grows_trans _ users').
Qed.

Lemma scan_blocks_grows (blocks : list cryptonote.block_complete_entry) :
  forall (indices : list (list (list Z))) (st : scan_batch.batch_state),
    Forall2 grows (scan_batch.users st)
      (scan_batch.users (fst (scan_batch.scan_blocks get_block_hash st blocks indices))).
Proof.
  induction blocks as [|entry blocks IH]; intros indices st; [apply Forall2_grows_refl|].
  destruct indices as [|block_indices indices]; [apply Forall2_grows_refl|].
  cbn [scan_batch.scan_blocks].
  pose proof (scan_block_grows st entry block_indices) as H.
  destruct (scan_batch.scan_block get_block_hash st entry block_indices) as [st' [e|]];
    cbn [fst] in *; [exact H|].
  apply (Forall2_grows_trans _ (scan_batch.users st')); [exact H|apply IH].
Qed.

Lemma scan_response_grows (users : list lws.account) (resp : Response.t) :
  Forall2 grows users
    (scan_batch.users (fst (scan_batch.scan_response get_block_hash users resp))).
Proof.
  unfold scan_batch.scan_response. cbv zeta.
  destruct (negb _); [apply Forall2_grows_refl|].
  destruct (Response.blocks resp) as [|front blocks]; [apply Forall2_grows_refl|].
  destruct (negb _);
    match goal with
    | |- context [scan_batch.scan_blocks _ ?st ?b ?i] => apply (scan_blocks_grows b i st)
    end.
Qed.

(** X9: scanning all the blocks of a response, to the end or to the point
    where something throws, keeps the order and number of the users, the
    scan height of each, and the sortedness of each [received_]. *)
Theorem scan_response_keeps (users : list lws.account) (resp : Response.t) :
  let users' := scan_batch.users (fst (scan_batch.scan_response get_block_hash users resp)) in
  length users' = length users
  /\ map lws.scan_height users' = map lws.scan_height users
  /\ Forall2 (fun u u' => sorted (lws.received_ u) -> sorted (lws.received_ u'))
       users users'.
Proof.
  cbv zeta. pose proof (scan_response_grows users resp) as H.
  split; [symmetry; apply (Forall2_length H)|].
  split.
  - induction H as [|u u' us us' Hu H IH]; [reflexivity|].
    cbn [map]. f_equal; [|exact IH]. unfold lws.scan_height. apply Hu.
  - eapply Forall2_impl; [|exact H]. intros u u' Hu. apply Hu.
Qed.

Lemma scan_block_normal (st st' : scan_batch.batch_state)
    (entry : cryptonote.block_complete_entry) (indices : list (list Z)) :
  scan_batch.scan_block get_block_hash st entry indices = (st', None) ->
  scan_batch.start_height st' = u64 (scan_batch.start_height st + 1)
  /\ scan_batch.blockchain st'
     = scan_batch.blockchain st ++ [get_block_hash (cryptonote.block_ entry)].
Proof.
  unfold scan_batch.scan_block. cbv zeta.
  destruct (negb _); [discriminate|].
  destruct indices as [|miner_ids indices]; [discriminate|].
  destruct (scanner.scan_transaction _ _ _ _ _ _) as [users' [e1|]]; [discriminate|].
  destruct (negb _); [discriminate|].
  destruct (scan_batch.scan_txes _ _ _ _ _ _) as [users'' [e2|]]; [discriminate|].
  intros [= <-]. split; reflexivity.
Qed.

Lemma u64_succ (z k : Z) : u64 (u64 (z + 1) + k) = u64 (z + (1 + k)).
Proof. unfold u64. rewrite Zplus_mod_idemp_l. f_equal. lia. Qed.

Lemma scan_blocks_normal (blocks : list cryptonote.block_complete_entry) :
  forall (indices : list (list (list Z))) (st st' : scan_batch.batch_state),
    length blocks = length indices ->
    blocks <> [] ->
    scan_batch.scan_blocks get_block_hash st blocks indices = (st', None) ->
    scan_batch.start_height st' = u64 (scan_batch.start_height st + size blocks)
    /\ scan_batch.blockchain st'
       = scan_batch.blockchain st
         ++ map (fun entry => get_block_hash (cryptonote.block_ entry)) blocks.
Proof.
  induction blocks as [|entry blocks IH]; intros indices st st' Hlen Hne H;
    [contradiction|].
  destruct indices as [|block_indices indices]; [discriminate|].
  cbn [scan_batch.scan_blocks] in H.
  destruct (scan_batch.scan_block get_block_hash st entry block_indices) as [st1 [e|]] eqn:E;
    [discriminate|].
  apply scan_block_normal in E. destruct E as [Hh Hc].
  destruct blocks as [|entry2 blocks].
  - destruct indices; [|discriminate]. simpl in H. injection H as <-.
    rewrite Hh, Hc. split; reflexivity.
  - destruct (IH indices st1 st' ltac:(simpl in *; lia) ltac:(discriminate) H) as [Hh' Hc'].
    rewrite Hh', Hc', Hh, Hc. split.
    + rewrite u64_succ. f_equal. unfold size. cbn [length]. lia.
    + now rewrite <- app_assoc.
Qed.

(** X10: when the scan of a response of [n >= 2] blocks runs to its end,
    the block counter that the loop leaves in [resp->start_height], which
    is the height later given to [account::updated] (not the one given to
    [disk.update], the scan height of the first user), is
    [start_height + n - 1] (in [std::uint64_t]), and [blockchain] holds the
    hash of the first block followed by the hashes of the blocks scanned:
    all but the first, or, for a response that starts at height 1, all of
    them, so that the hash of the first block is there twice. *)
Theorem scan_response_normal (users : list lws.account) (resp : Response.t)
    (st : scan_batch.batch_state) (front : cryptonote.block_complete_entry) :
  scan_batch.scan_response get_block_hash users resp = (st, None) ->
  2 <= size (Response.blocks resp) ->
  hd_error (Response.blocks resp) = Some front ->
  scan_batch.start_height st
  = u64 (Response.start_height resp + size (Response.blocks resp) - 1)
  /\ scan_batch.blockchain st
     = get_block_hash (cryptonote.block_ front)
       :: map (fun entry => get_block_hash (cryptonote.block_ entry))
            (if Response.start_height resp =? 1
             then Response.blocks resp
             else tl (Response.blocks resp)).
Proof.
  unfold scan_batch.scan_response. cbv zeta.
  destruct (Z.eqb_spec (size (Response.blocks resp)) (size (Response.output_indices resp)))
    as [Hsize|]; [|discriminate].
  cbn [negb].
  destruct (Response.blocks resp) as [|front' blocks] eqn:Eb; [discriminate|].
  destruct (Response.output_indices resp) as [|idx indices] eqn:Ei;
    [unfold size in Hsize; simpl in Hsize; lia|].
  intros H Hn [= ->].
  unfold size in Hsize, Hn. cbn [length] in Hsize, Hn.
  destruct (Z.eqb_spec (Response.start_height resp) 1) as [E1|]; cbn [negb] in H.
  - apply scan_blocks_normal in H; [|simpl; lia|discriminate].
    cbn [scan_batch.start_height scan_batch.blockchain] in H.
    destruct H as [-> ->]. split; [|reflexivity].
    rewrite E1. f_equal. lia.
  - cbn [tl] in *.
    apply scan_blocks_normal in H; [|lia|destruct blocks; [simpl in Hn; lia|discriminate]].
    cbn [scan_batch.start_height scan_batch.blockchain] in H.
    destruct H as [-> ->]. split; [|reflexivity].
    f_equal. unfold size. cbn [length]. lia.
Qed.

(** X11: the request that [scan_loop] pipelines after a response and the
    height its users reach by scanning that response agree: when the scan
    of a response of two or more blocks runs to its end, the next request
    starts at the height that the users are then updated to. *)
Theorem pipelined_start_is_new_height (req : Request) (resp : Response.t)
    (send : mzmq.send_outcome) (users : list lws.account)
    (st : scan_batch.batch_state) :
  Response.start_height resp = start_height req ->
  2 <= size (Response.blocks resp) ->
  scan_batch.scan_response get_block_hash users resp = (st, None) ->
  start_height (fst (scan_loop.receive_head req (success resp) send))
  = scan_batch.start_height st.
Proof.
  intros Hstart Hn Hscan.
  destruct (Response.blocks resp) as [|front blocks] eqn:Eb;
    [unfold size in Hn; simpl in Hn; lia|].
  destruct (scan_response_normal users resp st front Hscan) as [-> _];
    [now rewrite Eb|now rewrite Eb|].
  unfold scan_loop.receive_head. rewrite Eb, Hstart, Z.eqb_refl. reflexivity.
Qed.

Lemma scan_transaction_skips_user (users : list lws.account) (height timestamp : Z)
    (tx_hash : option db.hash) (tx : cryptonote.transaction) (out_ids : list Z)
    (n : nat) (u : lws.account) :
  nth_error users n = Some u ->
  height <= lws.scan_height u ->
  nth_error (fst (scanner.scan_transaction users height timestamp tx_hash tx out_ids)) n
  = Some u.
Proof.
  intros Hn Hu. unfold scanner.scan_transaction.
  destruct (2 <? cryptonote.version tx); [exact Hn|].
  destruct (find_tx_extra_pub_key (cryptonote.extra tx)); [|exact Hn].
  now apply scan_users_skips.
Qed.

Lemma scan_txes_skips (height timestamp : Z) (n : nat) (u : lws.account)
    (tx_hashes : list db.hash) :
  height <= lws.scan_height u ->
  forall (txes : list cryptonote.transaction) (indices : list (list Z))
         (users : list lws.account),
    nth_error users n = Some u ->
    nth_error (fst (scan_batch.scan_txes users height timestamp tx_hashes txes indices)) n
    = Some u.
Proof.
  intros Hu.
  induction tx_hashes as [|h tx_hashes IH]; intros txes indices users Hn; [exact Hn|].
  destruct txes as [|tx txes]; [exact Hn|].
  destruct indices as [|ids indices]; [exact Hn|].
  cbn [scan_batch.scan_txes].
  pose proof (scan_transaction_skips_user users height timestamp (Some h) tx ids n u Hn Hu)
    as H.
  destruct (scanner.scan_transaction users height timestamp (Some h) tx ids)
    as [users' [e|]]; cbn [fst] in *; [exact H|].
  now apply IH.
Qed.

Lemma scan_block_skips (st : scan_batch.batch_state)
    (entry : cryptonote.block_complete_entry) (indices : list (list Z))
    (n : nat) (u : lws.account) :
  nth_error (scan_batch.users st) n = Some u ->
  u64 (scan_batch.start_height st + 1) <= lws.scan_height u ->
  nth_error
    (scan_batch.users (fst (scan_batch.scan_block get_block_hash st entry indices))) n
  = Some u.
Proof.
  intros Hn Hu. unfold scan_batch.scan_block. cbv zeta.
  destruct (negb _); [exact Hn|].
  destruct indices as [|miner_ids indices]; [exact Hn|].
  cbn [scan_batch.users].
  match goal with
  | |- context [scanner.scan_transaction ?a ?b ?c ?d ?e ?f] =>
      pose proof (scan_transaction_skips_user a b c d e f n u Hn Hu) as Hminer;
      destruct (scanner.scan_transaction a b c d e f) as [users' [e1|]]
  end; cbn [fst] in *; [exact Hminer|].
  destruct (negb _); [exact Hminer|].
  match goal with
  | |- context [scan_batch.scan_txes ?a ?b ?c ?d ?e ?f] =>
      pose proof (scan_txes_skips b c n u d Hu e f a Hminer) as Htxes;
      destruct (scan_batch.scan_txes a b c d e f) as [users'' [e2|]]
  end; exact Htxes.
Qed.

Lemma scan_block_start (st : scan_batch.batch_state)
    (entry : cryptonote.block_complete_entry) (indices : list (list Z)) :
  scan_batch.start_height (fst (scan_batch.scan_block get_block_hash st entry indices))
  = u64 (scan_batch.start_height st + 1).
Proof.
  unfold scan_batch.scan_block. cbv zeta.
  destruct (negb _); [reflexivity|].
  destruct indices as [|miner_ids indices]; [reflexivity|].
  destruct (scanner.scan_transaction _ _ _ _ _ _) as [users' [e1|]]; [reflexivity|].
  destruct (negb _); [reflexivity|].
  destruct (scan_batch.scan_txes _ _ _ _ _ _) as [users'' [e2|]]; reflexivity.
Qed.

Lemma scan_blocks_skips (n : nat) (u : lws.account)
    (blocks : list cryptonote.block_complete_entry) :
  forall (indices : list (list (list Z))) (st : scan_batch.batch_state),
    nth_error (scan_batch.users st) n = Some u ->
    0 <= scan_batch.start_height st ->
    scan_batch.start_height st + size blocks <= lws.scan_height u ->
    nth_error
      (scan_batch.users (fst (scan_batch.scan_blocks get_block_hash st blocks indices))) n
    = Some u.
Proof.
  induction blocks as [|entry blocks IH]; intros indices st Hn Hpos Hu; [exact Hn|].
  destruct indices as [|block_indices indices]; [exact Hn|].
  cbn [scan_batch.scan_blocks].
  unfold size in Hu. cbn [length] in Hu.
  pose proof (u64_le (scan_batch.start_height st + 1) ltac:(lia)) as Hle.
  pose proof (u64_range (scan_batch.start_height st + 1)) as Hrange.
  pose proof (scan_block_skips st entry block_indices n u Hn ltac:(lia)) as H.
  pose proof (scan_block_start st entry block_indices) as Hstart.
  destruct (scan_batch.scan_block get_block_hash st entry block_indices) as [st' [e|]];
    cbn [fst] in *; [exact H|].
  apply IH; [exact H|lia|unfold size; lia].
Qed.

(** X12: a user whose scan height is at or past the height of the last
    block of a response comes out of the scan of that response as it went
    in. *)
Theorem scan_response_skips (users : list lws.account) (resp : Response.t)
    (n : nat) (u : lws.account) :
  nth_error users n = Some u ->
  0 <= Response.start_height resp ->
  Response.start_height resp + size (Response.blocks resp) - 1 <= lws.scan_height u ->
  nth_error
    (scan_batch.users (fst (scan_batch.scan_response get_block_hash users resp))) n
  = Some u.
Proof.
  intros Hn Hpos Hu. unfold scan_batch.scan_response. cbv zeta.
  destruct (negb _); [exact Hn|].
  destruct (Response.blocks resp) as [|front blocks] eqn:Eb; [exact Hn|].
  unfold size in Hu. cbn [length] in Hu.
  destruct (Z.eqb_spec (Response.start_height resp) 1) as [E1|]; cbn [negb].
  - apply scan_blocks_skips; cbn [scan_batch.users scan_batch.start_height];
      [exact Hn|lia|unfold size; cbn [length]; lia].
  - apply scan_blocks_skips; cbn [scan_batch.users scan_batch.start_height tl];
      [exact Hn|lia|unfold size; lia].
Qed.

(** X13: when an iteration over a response of two or more blocks ends with
    a commit, every user leaves it at the height [start_height + n - 1]
    with empty [outputs_] and [spends_]; no user is added or dropped. *)
Theorem scan_tail_committed (users users' : list lws.account) (resp : Response.t)
    (waited : expect unit)
    (update : db.block_id -> list db.hash -> list lws.account -> expect Z) :
  2 <= size (Response.blocks resp) ->
  scan_batch.scan_tail get_block_hash users resp waited update
  = scan_batch.tail_continue users' ->
  length users' = length users
  /\ Forall (fun u' =>
               lws.scan_height u'
               = u64 (Response.start_height resp + size (Response.blocks resp) - 1)
               /\ lws.outputs_ u' = []
               /\ lws.spends_ u' = [])
            users'.
Proof.
  intros Hn. unfold scan_batch.scan_tail.
  destruct (Z.leb_spec (size (Response.blocks resp)) 1); [lia|].
  pose proof (scan_response_grows users resp) as Hgrow.
  destruct (scan_batch.scan_response get_block_hash users resp) as [st [e|]] eqn:Escan;
    [discriminate|].
  destruct (update _ _ _) as [updated|e]; [|destruct (is_lws_error _ _); discriminate].
  destruct (negb _); [discriminate|].
  intros [= <-].
  destruct (Response.blocks resp) as [|front blocks] eqn:Eb;
    [unfold size in Hn; simpl in Hn; lia|].
  destruct (scan_response_normal users resp st front Escan) as [Hh _];
    [now rewrite Eb|now rewrite Eb|].
  rewrite Eb in Hh.
  split.
  - rewrite length_map. symmetry. apply (Forall2_length Hgrow).
  - apply Forall_map, Forall_forall. intros u _. cbn. rewrite Hh. auto.
Qed.

End whole_response.

(** ** Sharing the users among the scan threads *)

Section threads.

Lemma sorted_firstn {A : Type} (R : A -> A -> Prop) (l : list A) :
  Sorted R l -> forall n, Sorted R (firstn n l).
Proof.
  induction 1 as [|a l Hl IH Ha]; intros [|n]; simpl; try constructor.
  - apply IH.
  - destruct Ha as [|b l' Hab]; destruct n; simpl; constructor. exact Hab.
Qed.

Lemma sorted_skipn {A : Type} (R : A -> A -> Prop) (l : list A) :
  Sorted R l -> forall n, Sorted R (skipn n l).
Proof.
  induction 1 as [|a l Hl IH Ha]; intros [|n]; simpl; try constructor; auto.
Qed.

Lemma insert_by_height_sorted (user : lws.account) (users : list lws.account) :
  sorted_by_height users -> sorted_by_height (supervisor.insert_by_height user users).
Proof.
  unfold sorted_by_height.
  induction 1 as [|other users Hs IH Hhd]; simpl.
  - repeat constructor.
  - unfold supervisor.by_height.
    destruct (Z.ltb_spec (lws.scan_height other) (lws.scan_height user)).
    + constructor; [exact IH|].
      destruct Hhd as [|next users' Hnext]; simpl.
      * constructor. lia.
      * unfold supervisor.by_height.
        destruct (Z.ltb_spec (lws.scan_height next) (lws.scan_height user));
          constructor; lia.
    + constructor; [now constructor|]. constructor. lia.
Qed.

Lemma insert_by_height_permutation (user : lws.account) (users : list lws.account) :
  Permutation (supervisor.insert_by_height user users) (user :: users).
Proof.
  induction users as [|other users IH]; simpl; [reflexivity|].
  destruct (supervisor.by_height other user); [|reflexivity].
  rewrite IH. apply perm_swap.
Qed.

Lemma sort_by_height_sorted (users : list lws.account) :
  sorted_by_height (supervisor.sort_by_height users).
Proof.
  induction users as [|user users IH]; simpl; [constructor|].
  now apply insert_by_height_sorted.
Qed.

Lemma sort_by_height_permutation (users : list lws.account) :
  Permutation (supervisor.sort_by_height users) users.
Proof.
  induction users as [|user users IH]; simpl; [reflexivity|].
  rewrite insert_by_height_permutation. now constructor.
Qed.

Lemma concat_rev_permutation {A : Type} (l : list (list A)) :
  Permutation (concat (rev l)) (concat l).
Proof.
  induction l as [|a l IH]; simpl; [reflexivity|].
  rewrite concat_app. simpl. rewrite app_nil_r.
  rewrite Permutation_app_comm. now apply Permutation_app_head.
Qed.

(** What the spawning loop keeps: no user is lost or doubled, new threads
    are not empty and are sorted, and no more than [thread_count - 1] of
    them are started. *)
Lemma spawn_loop_spec (per_thread : Z) :
  1 <= per_thread ->
  forall (fuel : nat) (users : list lws.account) (thread_count : Z)
         (threads : list (list lws.account)),
    (length users <= fuel)%nat ->
    1 <= thread_count < 2 ^ 64 ->
    sorted_by_height users ->
    Forall (fun t => t <> [] /\ sorted_by_height t) threads ->
    let '(threads', users', _) :=
      supervisor.spawn_loop fuel per_thread users thread_count threads in
    users' ++ concat (rev threads') = users ++ concat (rev threads)
    /\ Z.of_nat (length threads') <= Z.of_nat (length threads) + thread_count - 1
    /\ sorted_by_height users'
    /\ Forall (fun t => t <> [] /\ sorted_by_height t) threads'.
Proof.
  intros Hper. induction fuel as [|fuel IH]; intros users tc threads Hfuel Htc Hs Hall.
  - simpl. repeat split; auto; lia.
  - cbn [supervisor.spawn_loop].
    destruct users as [|user users]; [repeat split; auto; lia|].
    set (us := user :: users) in *.
    assert (u64 (tc - 1) = tc - 1) as -> by (unfold u64; apply Z.mod_small; lia).
    destruct (Z.eqb_spec (tc - 1) 0) as [|Hne]; [repeat split; auto; lia|].
    cbv zeta.
    set (count := Z.min per_thread (size us)).
    assert (1 <= count <= size us) as Hcount
      by (unfold count, size, us; cbn [length]; lia).
    set (keep := (length us - Z.to_nat count)%nat).
    assert (keep < length us)%nat as Hkeep by (unfold keep, size in *; lia).
    specialize (IH (firstn keep us) (tc - 1) (threads ++ [skipn keep us])).
    destruct (supervisor.spawn_loop fuel per_thread (firstn keep us) (tc - 1)
                (threads ++ [skipn keep us])) as [[threads' users'] tc'].
    destruct IH as (Hcat & Hlen & Hs' & Hall').
    + rewrite length_firstn. unfold us in *. cbn [length] in *. lia.
    + lia.
    + now apply sorted_firstn.
    + apply Forall_app. split; [exact Hall|]. constructor; [|constructor].
      split; [|now apply sorted_skipn].
      intros E. apply (f_equal (@length _)) in E. rewrite length_skipn in E.
      change (length (@nil lws.account)) with 0%nat in E. lia.
    + split; [|split; [|split]]; try assumption.
      * rewrite Hcat, rev_app_distr. cbn [rev app concat]. rewrite app_assoc.
        now rewrite firstn_skipn.
      * rewrite length_app in Hlen. simpl in Hlen. lia.
Qed.

Lemma thread_users_spec (users : list lws.account) (thread_count : Z) :
  1 <= thread_count < 2 ^ 64 ->
  concat (rev (supervisor.thread_users users thread_count))
  = supervisor.sort_by_height users
  /\ Z.of_nat (length (supervisor.thread_users users thread_count)) <= thread_count
  /\ Forall (fun t => t <> [] /\ sorted_by_height t)
       (supervisor.thread_users users thread_count).
Proof.
  intros Htc. unfold supervisor.thread_users. cbv zeta.
  pose proof (spawn_loop_spec
                (Z.max 1 (size (supervisor.sort_by_height users) / thread_count))
                ltac:(lia) (length (supervisor.sort_by_height users))
                (supervisor.sort_by_height users) thread_count [] (le_n _) Htc
                (sort_by_height_sorted users) (Forall_nil _)) as H.
  destruct (supervisor.spawn_loop _ _ _ _ _) as [[threads users'] tc'].
  destruct H as (Hcat & Hlen & Hs & Hall).
  simpl in Hcat, Hlen. rewrite app_nil_r in Hcat.
  destruct users' as [|user users'].
  - simpl in Hcat. repeat split; auto. lia.
  - split; [|split].
    + rewrite rev_app_distr. simpl. simpl in Hcat. exact Hcat.
    + rewrite length_app. simpl. lia.
    + apply Forall_app. split; [exact Hall|]. constructor; [|constructor].
      split; [discriminate|exact Hs].
Qed.

(** X14: [check_loop] puts every user on exactly one scan thread, starts
    no thread without users, and starts no more threads than
    [thread_count]. *)
Theorem thread_users_partition (users : list lws.account) (thread_count : Z) :
  1 <= thread_count < 2 ^ 64 ->
  Permutation (concat (supervisor.thread_users users thread_count)) users
  /\ Forall (fun t => t <> []) (supervisor.thread_users users thread_count)
  /\ Z.of_nat (length (supervisor.thread_users users thread_count)) <= thread_count.
Proof.
  intros Htc. destruct (thread_users_spec users thread_count Htc) as (Hcat & Hlen & Hall).
  split; [|split; [|exact Hlen]].
  - rewrite <- concat_rev_permutation, Hcat. apply sort_by_height_permutation.
  - eapply Forall_impl; [|exact Hall]. intros t [H _]. exact H.
Qed.

(** X15: the users handed to each scan thread are in ascending order of
    scan height, as [scan_loop] asserts, and the threads started later get
    the users of lower height: the threads' lists, last thread first, make
    up the list of all users in ascending order of scan height, with every
    user in it once. *)
Theorem thread_users_sorted (users : list lws.account) (thread_count : Z) :
  1 <= thread_count < 2 ^ 64 ->
  Forall sorted_by_height (supervisor.thread_users users thread_count)
  /\ sorted_by_height (concat (rev (supervisor.thread_users users thread_count)))
  /\ Permutation (concat (rev (supervisor.thread_users users thread_count))) users.
Proof.
  intros Htc. destruct (thread_users_spec users thread_count Htc) as (Hcat & _ & Hall).
  split; [|split].
  - eapply Forall_impl; [|exact Hall]. intros t [_ H]. exact H.
  - rewrite Hcat. apply sort_by_height_sorted.
  - rewrite Hcat. apply sort_by_height_permutation.
Qed.

Lemma collect_active_fold (ids : list db.account_id) :
  forall active : list db.account_id,
    sorted active ->
    sorted (fold_left supervisor.insert_active ids active)
    /\ Permutation (fold_left supervisor.insert_active ids active) (active ++ ids).
Proof.
  induction ids as [|id ids IH]; intros active Hs; simpl.
  - rewrite app_nil_r. split; [exact Hs|reflexivity].
  - destruct (IH (supervisor.insert_active active id)) as [Hs' Hp].
    + now apply insert_lower_bound_sorted.
    + split; [exact Hs'|].
      rewrite Hp. unfold supervisor.insert_active.
      rewrite vector_insert_permutation, <- app_assoc. reflexivity.
Qed.

(** X16: the [active] list that [fetch_loop] builds is sorted and holds
    exactly the ids of the accounts read; [check_loop]'s poll then reports
    no change exactly when the number of active accounts is the same and
    each of them was among those read. *)
Theorem accounts_changed_exact (ids current : list db.account_id) :
  sorted (supervisor.collect_active ids)
  /\ Permutation (supervisor.collect_active ids) ids
  /\ (supervisor.accounts_changed (supervisor.collect_active ids) current = false
      <-> length current = length ids /\ forall id, In id current -> In id ids).
Proof.
  destruct (collect_active_fold ids [] ltac:(constructor)) as [Hs Hp].
  fold (supervisor.collect_active ids) in Hs, Hp. simpl in Hp.
  split; [exact Hs|]. split; [exact Hp|].
  unfold supervisor.accounts_changed.
  rewrite orb_false_iff, negb_false_iff, Z.eqb_eq.
  unfold size. rewrite (Permutation_length Hp), Nat2Z.inj_iff.
  apply and_iff_compat_l.
  rewrite <- not_true_iff_false, existsb_exists.
  split.
  - intros H id Hin.
    apply (Permutation_in _ Hp), mem_In.
    rewrite <- (binary_search_sorted _ _ Hs).
    destruct (binary_search (supervisor.collect_active ids) id) eqn:E; [reflexivity|].
    exfalso. apply H. exists id. now rewrite E.
  - intros H (id & Hin & Hneg).
    apply negb_true_iff in Hneg.
    rewrite (binary_search_sorted _ _ Hs) in Hneg.
    apply not_true_iff_false in Hneg. apply Hneg, mem_In.
    apply (Permutation_in _ (Permutation_sym Hp)). now apply H.
Qed.

End threads.

(** ** The REST endpoints *)

Section endpoints.
Context {prim : primitives}.

(** [get_account] gives the stored account exactly when the request
    parses, the view key matches the address, the address is in storage
    and its status is not hidden. *)
Theorem get_account_iff (src : expect (db.account_address * Z))
    (reader : rest_server.storage_reader) (user : db.account.t) :
  rest_api.get_account src reader = success user
  <-> exists address key status,
        src = success (address, key)
        /\ rest_server.key_check address key = true
        /\ rest_server.get_account reader address = success (status, user)
        /\ rest_server.is_hidden status = false.
Proof.
  unfold rest_api.get_account. split.
  - destruct src as [[address key]|e]; [|discriminate].
    destruct (rest_server.key_check address key) eqn:Ek; [|discriminate].
    cbn [negb].
    destruct (rest_server.get_account reader address) as [[status user']|e] eqn:Ea;
      [|discriminate].
    destruct (rest_server.is_hidden status) eqn:Eh; [discriminate|].
    intros [= ->]. exists address, key, status. auto.
  - intros (address & key & status & -> & -> & -> & ->). reflexivity.
Qed.

(** X17: [login] asks storage to create an account only for a request
    with [create_account] set, a matching view key, and an address whose
    lookup failed with [NoSuchAccount]; and it marks the connection as
    logged in only when the account exists and is not hidden, never on a
    creation request. *)
Theorem login_creation (request : expect rest_api.login_request)
    (start_read : expect rest_server.storage_reader) (creation_request : expect unit)
    (generate_body : bool -> expect string) (logged_in : bool) :
  let '(logged_in', requested, _) :=
    rest_api.login request start_read creation_request generate_body logged_in in
  (requested = true <->
   exists req reader e,
     request = success req
     /\ rest_server.key_check (rest_api.login_address req) (rest_api.login_view_key req) = true
     /\ start_read = success reader
     /\ rest_server.get_account reader (rest_api.login_address req) = failure e
     /\ is_lws_error e kNoSuchAccount = true
     /\ rest_api.create_account req = true)
  /\ (logged_in' <> logged_in ->
      requested = false
      /\ exists req reader status user,
           request = success req
           /\ start_read = success reader
           /\ rest_server.get_account reader (rest_api.login_address req)
              = success (status, user)
           /\ rest_server.is_hidden status = false).
Proof.
  unfold rest_api.login.
  destruct request as [req|e];
    [|split; [split; [discriminate|intros (? & ? & ? & [=] & _)]|intros []; reflexivity]].
  destruct (rest_server.key_check _ _) eqn:Ek; cbn [negb];
    [|split; [split; [discriminate|intros (? & ? & ? & [= <-] & ? & _); congruence]
             |intros []; reflexivity]].
  destruct start_read as [reader|e];
    [|split; [split; [discriminate|intros (? & ? & ? & _ & _ & [=] & _)]
             |intros []; reflexivity]].
  destruct (rest_server.get_account reader (rest_api.login_address req))
    as [[status user]|e] eqn:Ea.
  - destruct (rest_server.is_hidden status) eqn:Eh.
    + split; [split; [discriminate|intros (? & ? & ? & [= <-] & _ & [= <-] & ? & _);
                                   congruence]
             |intros []; reflexivity].
    + split; [split; [discriminate|intros (? & ? & ? & [= <-] & _ & [= <-] & ? & _);
                                   congruence]|].
      intros _. split; [reflexivity|]. exists req, reader, status, user. auto.
  - destruct (rest_api.create_account req) eqn:Ec; cbn [negb orb].
    + destruct (is_lws_error e kNoSuchAccount) eqn:En; cbn [negb].
      * destruct creation_request;
          (split; [split; [intros _; exists req, reader, e; repeat split; auto|reflexivity]
                  |intros []; reflexivity]).
      * split; [split; [discriminate|]|intros []; reflexivity].
        intros (? & ? & ? & [= <-] & _ & [= <-] & Ea' & En' & _).
        rewrite Ea in Ea'. injection Ea' as <-. congruence.
    + split; [split; [discriminate|]|intros []; reflexivity].
      intros (? & ? & ? & [= <-] & _ & _ & _ & _ & Ec'). congruence.
Qed.

Lemma collect_unspent_list (reader : rest_server.storage_reader) (threshold mixin : Z)
    (outputs : list db.output.t) :
  spends_readable reader (filter (rest_server.passes_filters threshold mixin) outputs) ->
  forall (received : Z) (unspent : rest_server.unspent_list),
    rest_server.collect_unspent reader threshold mixin outputs received unspent
    = success
        (u64 (received
              + rest_server.total_amount
                  (filter (rest_server.passes_filters threshold mixin) outputs)),
         unspent
         ++ map (fun out => (out, spend_images reader out))
              (filter (rest_server.passes_filters threshold mixin) outputs))
    \/ (filter (rest_server.passes_filters threshold mixin) outputs = []
        /\ rest_server.collect_unspent reader threshold mixin outputs received unspent
           = success (received, unspent)).
Proof.
  induction outputs as [|out outputs IH]; intros Hread received unspent.
  - right. split; reflexivity.
  - cbn [rest_server.collect_unspent filter] in *.
    unfold rest_server.passes_filters in *.
    destruct ((db.output.amount out <? threshold) || (db.output.mixin_count out <? mixin)).
    + cbn [negb] in *. now apply IH.
    + cbn [negb] in *. left.
      inversion Hread as [|? ? (spends & Hsp) Hread']; subst.
      rewrite Hsp.
      destruct (IH Hread' (u64 (received + db.output.amount out))
                   (unspent ++ [(out, map db.spend.image spends)])) as [->|[Hnil ->]].
      * f_equal. f_equal.
        -- cbn [rest_server.total_amount fold_right].
           fold (rest_server.total_amount
                   (filter (fun out0 =>
                              negb ((db.output.amount out0 <? threshold)
                                    || (db.output.mixin_count out0 <? mixin))) outputs)).
           unfold u64. rewrite Zplus_mod_idemp_l. f_equal. lia.
        -- rewrite <- app_assoc. cbn [map app]. unfold spend_images. now rewrite Hsp.
      * rewrite Hnil. cbn [rest_server.total_amount fold_right map].
        f_equal. f_equal.
        -- f_equal. lia.
        -- unfold spend_images. now rewrite Hsp.
Qed.

(** X18: when [get_unspent_outs] answers for an authenticated, visible
    account whose outputs and spends can be read, the list it writes holds
    exactly the outputs that pass the dust-threshold and mixin filters, in
    storage order, each with the key images of all its spends; the amount
    it writes is their total (in [std::uint64_t]), and the fee is 0. *)
Theorem get_unspent_outs_lists
    (req : rest_server.unspent_request) (reader : rest_server.storage_reader)
    (generate_body : Z -> Z -> rest_server.unspent_list -> expect string)
    (logged_in : bool) (status : db.account_status) (user : db.account.t)
    (outputs : list db.output.t) :
  let kept :=
    filter (rest_server.passes_filters (rest_server.effective_threshold req)
              (rest_server.effective_mixin req)) outputs in
  rest_server.key_check (rest_server.address req) (rest_server.view_key req) = true ->
  rest_server.get_account reader (rest_server.address req) = success (status, user) ->
  rest_server.is_hidden status = false ->
  rest_server.get_outputs reader (db.account.id user) = success outputs ->
  spends_readable reader kept ->
  rest_server.amount req <= u64 (rest_server.total_amount kept) ->
  rest_server.get_unspent_outs (success req) (success reader) generate_body logged_in
  = (true,
     generate_body 0 (u64 (rest_server.total_amount kept))
       (map (fun out => (out, spend_images reader out)) kept)).
Proof.
  cbv zeta. intros Hkey Hacct Hhidden Houts Hread Hamount.
  unfold rest_server.get_unspent_outs.
  rewrite Hkey, Hacct, Hhidden, Houts. cbn [negb].
  destruct (collect_unspent_list reader _ _ outputs Hread 0 []) as [->|[Hnil ->]].
  - cbn [app Z.add].
    destruct (Z.ltb_spec
                (u64 (rest_server.total_amount
                        (filter (rest_server.passes_filters
                                   (rest_server.effective_threshold req)
                                   (rest_server.effective_mixin req)) outputs)))
                (rest_server.amount req)); [lia|reflexivity].
  - rewrite Hnil in *. cbn [rest_server.total_amount fold_right map] in *.
    change (u64 0) with 0 in *.
    destruct (Z.ltb_spec 0 (rest_server.amount req)); [lia|reflexivity].
Qed.


Variable coinbase_timeout : Z.

Lemma u64_idem (z : Z) : u64 (u64 z) = u64 z.
Proof. unfold u64. apply Zmod_mod. Qed.

Lemma u64_add_l (a b : Z) : u64 (u64 a + b) = u64 (a + b).
Proof. unfold u64. apply Zplus_mod_idemp_l. Qed.

Lemma add_spend_fold (out : db.output.t) (spends : list db.spend.t) :
  forall self : rest_api.spend_info,
    u64 (rest_api.sent self) = rest_api.sent self ->
    fold_left (rest_api.add_spend out) spends self
    = {| rest_api.images :=
           rest_api.images self
           ++ map (fun spend =>
                     {| rest_api.amount := db.output.amount out;
                        rest_api.mixin := db.spend.mixin_count spend;
                        rest_api.index := db.output.index out;
                        rest_api.tx_public := db.output.tx_public out;
                        rest_api.image := db.spend.image spend |})
                  spends;
         rest_api.sent := u64 (rest_api.sent self + size spends * db.output.amount out) |}.
Proof.
  induction spends as [|spend spends IH]; intros self Hn.
  - simpl. rewrite app_nil_r, Z.add_0_r, Hn. now destruct self.
  - cbn [fold_left]. rewrite IH by (cbn; apply u64_idem).
    cbn [rest_api.add_spend rest_api.images rest_api.sent map].
    rewrite <- app_assoc, u64_add_l. f_equal. f_equal.
    unfold size. cbn [length]. lia.
Qed.

Lemma weighted_amount_cons (weight : db.output.t -> Z) (out : db.output.t)
    (outputs : list db.output.t) :
  weighted_amount weight (out :: outputs)
  = weight out * db.output.amount out + weighted_amount weight outputs.
Proof. reflexivity. Qed.

Lemma sum_outputs_totals (reader : rest_server.storage_reader) (last : db.block_id)
    (outputs : list db.output.t) :
  spends_readable reader outputs ->
  forall (locked received : Z) (spends : rest_api.spend_info),
    u64 locked = locked -> u64 received = received ->
    u64 (rest_api.sent spends) = rest_api.sent spends ->
    rest_api.sum_outputs coinbase_timeout reader last outputs locked received spends
    = success
        (u64 (locked
              + weighted_amount
                  (fun out => if rest_api.is_locked coinbase_timeout out last then 1 else 0)
                  outputs),
         u64 (received + weighted_amount (fun _ => 1) outputs),
         {| rest_api.images :=
              rest_api.images spends ++ flat_map (spend_lines reader) outputs;
            rest_api.sent :=
              u64 (rest_api.sent spends + weighted_amount (spend_count reader) outputs) |}).
Proof.
  induction 1 as [|out outputs (sp & Hsp) Hread IH]; intros locked received spends Hl Hr Hs.
  - simpl. rewrite app_nil_r, !Z.add_0_r, Hl, Hr, Hs. now destruct spends.
  - cbn [rest_api.sum_outputs]. unfold rest_api.spend_info_add. rewrite Hsp.
    rewrite add_spend_fold by exact Hs.
    rewrite IH; [|destruct (rest_api.is_locked _ _ _); [apply u64_idem|exact Hl]
                 |apply u64_idem|apply u64_idem].
    rewrite !weighted_amount_cons.
    cbn [flat_map rest_api.images rest_api.sent].
    unfold spend_lines at 2, spend_count at 2. rewrite Hsp.
    f_equal. apply f_equal2; [apply f_equal2|apply f_equal2].
    + destruct (rest_api.is_locked coinbase_timeout out last).
      * rewrite u64_add_l. f_equal; lia.
      * f_equal; lia.
    + rewrite u64_add_l. f_equal; lia.
    + now rewrite <- app_assoc.
    + rewrite u64_add_l. f_equal; lia.
Qed.

(** X19: for an account that [get_account] accepts and whose outputs,
    spends and last block can be read, [get_address_info] writes, all in
    [std::uint64_t]: as received the sum of the amounts of all outputs; as
    locked the sum over the outputs that [is_locked] holds for; as sent the
    sum of each amount times the number of spends listed for the output;
    and one [spent_outputs] line per listed spend, in output order. *)
Theorem get_address_info_totals (root : expect (db.account_address * Z))
    (reader : rest_server.storage_reader) (last : rest_api.block_info)
    (generate_body : rest_api.address_info -> expect string) (logged_in : bool)
    (user : db.account.t) (outputs : list db.output.t) :
  rest_api.get_account root reader = success user ->
  rest_server.get_outputs reader (db.account.id user) = success outputs ->
  spends_readable reader outputs ->
  rest_api.get_address_info coinbase_timeout root (success reader) (success last)
    generate_body logged_in
  = (true,
     generate_body
       {| rest_api.locked_funds :=
            u64 (weighted_amount
                   (fun out =>
                      if rest_api.is_locked coinbase_timeout out (rest_api.id last)
                      then 1 else 0)
                   outputs);
          rest_api.total_received := u64 (weighted_amount (fun _ => 1) outputs);
          rest_api.total_sent := u64 (weighted_amount (spend_count reader) outputs);
          rest_api.scanned_height := db.account.scan_height user;
          rest_api.scanned_block_height := db.account.scan_height user;
          rest_api.start_height := db.account.start_height user;
          rest_api.transaction_height := rest_api.id last;
          rest_api.blockchain_height := rest_api.id last;
          rest_api.spent_outputs := flat_map (spend_lines reader) outputs |}).
Proof.
  intros Hacct Houts Hread. unfold rest_api.get_address_info.
  rewrite Hacct, Houts.
  rewrite (sum_outputs_totals reader (rest_api.id last) outputs Hread 0 0
             {| rest_api.images := []; rest_api.sent := 0 |});
    reflexivity.
Qed.

(** An output is counted as locked only if its packed flags are
    exactly [kCoinbase]; one flagged [kCoinbaseAndRingct] never is, nor is
    a coinbase output once the last block is more than the unlock window
    past its height. *)
Theorem is_locked_only_plain_coinbase (out : db.output.t) (last : db.block_id) :
  rest_api.is_locked coinbase_timeout out last = true ->
  fst (db.unpack (db.output.extra out)) = db.kCoinbase
  /\ carries db.kRingct out = false
  /\ last <= u64 (db.output.height out + coinbase_timeout).
Proof.
  unfold rest_api.is_locked, carries.
  destruct (Z.eqb_spec (fst (db.unpack (db.output.extra out))) db.kCoinbase) as [E|];
    [|discriminate].
  intros H. apply Z.leb_le in H. rewrite E. auto.
Qed.

Lemma txes_amount_app (txes : list rest_api.transaction) (tx : rest_api.transaction) :
  txes_amount (txes ++ [tx]) = txes_amount txes + db.output.amount (rest_api.out tx).
Proof.
  unfold txes_amount. induction txes as [|t txes IH]; simpl; [lia|]. rewrite IH. lia.
Qed.

Lemma no_equal_neighbours_snoc (txes : list rest_api.transaction)
    (tx : rest_api.transaction) :
  no_equal_neighbours txes ->
  (forall before back, txes = before ++ [back] ->
                       db.output.tx_hash (rest_api.out back)
                       <> db.output.tx_hash (rest_api.out tx)) ->
  no_equal_neighbours (txes ++ [tx]).
Proof.
  intros Hq Hlast before a b after E.
  destruct after as [|z after'].
  - change (a :: [b]) with ([a] ++ [b]) in E. rewrite app_assoc in E.
    apply app_inj_tail in E. destruct E as [-> ->]. now apply (Hlast before a).
  - destruct (@exists_last _ (z :: after') ltac:(discriminate)) as (after'' & y & E').
    rewrite E' in E.
    change (a :: b :: after'' ++ [y]) with ((a :: b :: after'') ++ [y]) in E.
    rewrite app_assoc in E. apply app_inj_tail in E. destruct E as [-> _].
    now apply (Hq before a b after'').
Qed.

Lemma no_equal_neighbours_last (txes : list rest_api.transaction)
    (back back' : rest_api.transaction) :
  no_equal_neighbours (txes ++ [back]) ->
  db.output.tx_hash (rest_api.out back') = db.output.tx_hash (rest_api.out back) ->
  no_equal_neighbours (txes ++ [back']).
Proof.
  intros Hq Hhash before a b after E.
  destruct after as [|z after'].
  - change (a :: [b]) with ([a] ++ [b]) in E. rewrite app_assoc in E.
    apply app_inj_tail in E. destruct E as [-> ->]. rewrite Hhash.
    apply (Hq before a back []). now rewrite <- app_assoc.
  - destruct (@exists_last _ (z :: after') ltac:(discriminate)) as (after'' & y & E').
    rewrite E' in E.
    change (a :: b :: after'' ++ [y]) with ((a :: b :: after'') ++ [y]) in E.
    rewrite app_assoc in E. apply app_inj_tail in E. destruct E as [-> _].
    apply (Hq before a b (after'' ++ [back])).
    now rewrite <- app_assoc.
Qed.

Lemma group_outputs_spec (reader : rest_server.storage_reader)
    (outputs : list db.output.t) :
  (forall id, exists spends, rest_server.get_spends reader id = success spends) ->
  forall (received : Z) (txes : list rest_api.transaction),
    u64 received = received ->
    no_equal_neighbours txes ->
    exists txes',
      rest_api.group_outputs reader outputs received txes
      = success (u64 (received + weighted_amount (fun _ => 1) outputs), txes')
      /\ u64 (txes_amount txes')
         = u64 (txes_amount txes + weighted_amount (fun _ => 1) outputs)
      /\ no_equal_neighbours txes'
      /\ (length txes' <= length txes + length outputs)%nat.
Proof.
  intros Hread.
  induction outputs as [|output outputs IH]; intros received txes Hr Hq.
  - exists txes. simpl. rewrite !Z.add_0_r, Hr. repeat split; auto. lia.
  - cbn [rest_api.group_outputs]. unfold rest_api.push_or_merge.
    rewrite weighted_amount_cons.
    destruct (rev txes) as [|back rest] eqn:Erev.
    + assert (txes = []) as -> by (apply (f_equal (@rev _)) in Erev;
                                   now rewrite rev_involutive in Erev).
      unfold rest_api.spend_info_add. cbn [rest_api.out rest_api.spends].
      destruct (Hread (db.output.id output)) as (sp & ->).
      destruct (IH (u64 (received + db.output.amount output))
                   ([] ++ [ {| rest_api.out := output;
                               rest_api.spends :=
                                 fold_left (rest_api.add_spend output) sp
                                   {| rest_api.images := []; rest_api.sent := 0 |} |} ]))
        as (txes' & -> & Hsum & Hq' & Hlen).
      * apply u64_idem.
      * intros [|? [|? ?]] a b after E; discriminate.
      * exists txes'. split; [|split; [|split]].
        -- rewrite u64_add_l. apply f_equal. apply (f_equal2 pair); [apply f_equal; lia|reflexivity].
        -- rewrite Hsum. f_equal. unfold txes_amount. cbn [app fold_right rest_api.out]. lia.
        -- exact Hq'.
        -- simpl in *. lia.
    + assert (txes = rev rest ++ [back]) as Etxes
        by (apply (f_equal (@rev _)) in Erev; now rewrite rev_involutive in Erev).
      destruct (Z.eqb_spec (db.output.tx_hash (rest_api.out back))
                           (db.output.tx_hash output)) as [Esame|Hdiff]; cbn [negb].
      * unfold rest_api.spend_info_add. cbn [rest_api.out rest_api.spends].
        destruct (Hread (db.output.id
                           (rest_api.add_amount (rest_api.out back)
                              (db.output.amount output)))) as (sp & ->).
        match goal with
        | |- context [removelast txes ++ [?t]] =>
            destruct (IH (u64 (received + db.output.amount output)) (removelast txes ++ [t]))
              as (txes' & -> & Hsum & Hq' & Hlen)
        end.
        -- apply u64_idem.
        -- rewrite Etxes, removelast_last.
           apply (no_equal_neighbours_last _ back); [now rewrite <- Etxes|reflexivity].
        -- exists txes'. split; [|split; [|split]].
           ++ rewrite u64_add_l. apply f_equal. apply (f_equal2 pair); [apply f_equal; lia|reflexivity].
           ++ rewrite Hsum. rewrite Etxes, removelast_last, !txes_amount_app.
              cbn [rest_api.out rest_api.add_amount db.output.amount].
              rewrite (Z.add_comm (txes_amount (rev rest))), <- !Z.add_assoc, u64_add_l.
              f_equal. lia.
           ++ exact Hq'.
           ++ rewrite length_app in Hlen. rewrite Etxes in *.
              rewrite removelast_last in Hlen. rewrite length_app in *. simpl in *. lia.
      * unfold rest_api.spend_info_add. cbn [rest_api.out rest_api.spends].
        destruct (Hread (db.output.id output)) as (sp & ->).
        match goal with
        | |- context [txes ++ [?t]] =>
            destruct (IH (u64 (received + db.output.amount output)) (txes ++ [t]))
              as (txes' & -> & Hsum & Hq' & Hlen)
        end.
        -- apply u64_idem.
        -- apply no_equal_neighbours_snoc; [exact Hq|].
           intros before back' E. rewrite Etxes in E. apply app_inj_tail in E.
           destruct E as [_ <-]. exact Hdiff.
        -- exists txes'. split; [|split; [|split]].
           ++ rewrite u64_add_l. apply f_equal. apply (f_equal2 pair); [apply f_equal; lia|reflexivity].
           ++ rewrite Hsum, txes_amount_app. cbn [rest_api.out]. f_equal. lia.
           ++ exact Hq'.
           ++ rewrite length_app in Hlen. simpl in *. lia.
Qed.

(** X20: for an account that [get_account] accepts and whose outputs and
    last block can be read from a reader that lists the spends of any id,
    [get_address_txs] writes as received the sum of the amounts of all
    outputs, and a list of transactions whose amounts add up to the same
    (all in [std::uint64_t]), in which no two neighbours have one
    transaction hash, and which is no longer than the list of outputs. *)
Theorem get_address_txs_groups (root : expect (db.account_address * Z))
    (reader : rest_server.storage_reader) (last : rest_api.block_info)
    (generate_body : rest_api.address_txs -> expect string) (logged_in : bool)
    (user : db.account.t) (outputs : list db.output.t) :
  rest_api.get_account root reader = success user ->
  rest_server.get_outputs reader (db.account.id user) = success outputs ->
  (forall id, exists spends, rest_server.get_spends reader id = success spends) ->
  exists txes,
    rest_api.get_address_txs root (success reader) (success last) generate_body logged_in
    = (true,
       generate_body
         {| rest_api.txs_total_received := u64 (weighted_amount (fun _ => 1) outputs);
            rest_api.txs_scanned_height := db.account.scan_height user;
            rest_api.txs_start_height := db.account.start_height user;
            rest_api.txs_blockchain_height := rest_api.id last;
            rest_api.transactions := txes |})
    /\ u64 (txes_amount txes) = u64 (weighted_amount (fun _ => 1) outputs)
    /\ no_equal_neighbours txes
    /\ (length txes <= length outputs)%nat.
Proof.
  intros Hacct Houts Hread. unfold rest_api.get_address_txs.
  rewrite Hacct, Houts.
  destruct (group_outputs_spec reader outputs Hread 0 [] eq_refl) as (txes & -> & Hs & Hq & Hl).
  - intros [|? [|? ?]] a b after E; discriminate.
  - exists txes. repeat split; assumption.
Qed.

End endpoints.

(** ** The address the REST server binds to *)

Section binding.

Import Ascii.

Lemma starts_with_app (prefix s : list ascii) :
  rest_api.starts_with (prefix ++ s) prefix = true.
Proof.
  induction prefix as [|p prefix IH]; simpl; [now destruct s|].
  now rewrite Ascii.eqb_refl, IH.
Qed.

Lemma find_last_of_plain (s : list ascii) :
  Forall plain s -> rest_api.find_last_of s = None.
Proof.
  induction 1 as [|c s [Hc Hb] Hs IH]; simpl; [reflexivity|].
  rewrite IH.
  destruct (Ascii.eqb_spec c rest_api.colon); [contradiction|].
  destruct (Ascii.eqb_spec c rest_api.bracket); [contradiction|]. reflexivity.
Qed.

Lemma find_last_of_app (a s : list ascii) (c : ascii) :
  c = rest_api.colon \/ c = rest_api.bracket ->
  rest_api.find_last_of s = None ->
  rest_api.find_last_of (a ++ c :: s) = Some (length a).
Proof.
  intros Hc Hs. induction a as [|x a IH]; simpl.
  - rewrite Hs. destruct Hc as [-> | ->]; reflexivity.
  - now rewrite IH.
Qed.

End binding.

Section binding_results.

Import Ascii.

Lemma skip_scheme (rest : list ascii) : skipn 7 (rest_api.http_scheme ++ rest) = rest.
Proof. reflexivity. Qed.

(** X21: an address [http://host:port], where the port holds neither a
    colon nor a closing bracket, is split at its last colon: the server is
    bound to that port on that host, whatever the host looks like. *)
Theorem bind_address_splits (invalid : error_code) (host port : list ascii) :
  Forall plain port ->
  rest_api.bind_address invalid (rest_api.http_scheme ++ host ++ rest_api.colon :: port)
  = success (port, host).
Proof.
  intros Hport. unfold rest_api.bind_address.
  rewrite starts_with_app. cbn [negb]. rewrite skip_scheme.
  rewrite (find_last_of_app host port rest_api.colon (or_introl eq_refl)
             (find_last_of_plain port Hport)).
  rewrite nth_middle. change (Ascii.eqb rest_api.colon rest_api.bracket) with false.
  cbv iota. f_equal. f_equal.
  - rewrite skipn_app, skipn_all2 by lia.
    replace (length host + 1 - length host)%nat with 1%nat by lia. reflexivity.
  - rewrite firstn_app, firstn_all, Nat.sub_diag. simpl. apply app_nil_r.
Qed.

(** X22: an address without a port gets port 8080 and is taken whole as
    the host: one with no colon and no bracket after the scheme, and one
    whose last colon or bracket is a closing bracket, as in an IPv6
    literal. *)
Theorem bind_address_default_port (invalid : error_code) (tail : list ascii) :
  Forall plain tail ->
  rest_api.bind_address invalid (rest_api.http_scheme ++ tail)
  = success (list_ascii_of_string "8080", tail)
  /\ forall host : list ascii,
       rest_api.bind_address invalid
         (rest_api.http_scheme ++ host ++ rest_api.bracket :: tail)
       = success (list_ascii_of_string "8080", host ++ rest_api.bracket :: tail).
Proof.
  intros Htail. split; [|intros host]; unfold rest_api.bind_address;
    rewrite starts_with_app; cbn [negb]; rewrite skip_scheme.
  - now rewrite (find_last_of_plain tail Htail).
  - rewrite (find_last_of_app host tail rest_api.bracket (or_intror eq_refl)
               (find_last_of_plain tail Htail)).
    rewrite nth_middle. now rewrite Ascii.eqb_refl.
Qed.

Lemma bind_address_scheme (invalid : error_code) (address : list ascii) :
  rest_api.starts_with address rest_api.http_scheme = false ->
  rest_api.bind_address invalid address = failure invalid.
Proof. intros H. unfold rest_api.bind_address. now rewrite H. Qed.

End binding_results.

(** ** The packed byte, both ways *)

Section packed_byte_more.

Lemma byte_values_In (z : Z) : 0 <= z < 256 -> In z byte_values.
Proof.
  intros H. unfold byte_values. rewrite <- (Z2Nat.id z) by lia.
  apply in_map, in_seq. lia.
Qed.

(** X23: packing what [unpack] gives back yields the byte again: nothing
    of a stored [extra_and_length] is lost by reading it. *)
Theorem pack_unpack_byte (val : db.extra_and_length) :
  db.pack (fst (db.unpack val)) (snd (db.unpack val)) = u8 val.
Proof.
  unfold db.unpack. cbv zeta. cbn [fst snd].
  assert (0 <= u8 val < 256) as Hrange by (unfold u8; apply Z.mod_pos_bound; lia).
  generalize (byte_values_In _ Hrange). generalize (u8 val). clear.
  assert (forallb (fun r => db.pack (Z.land r 7) (u8 (Z.shiftr r 3)) =? r) byte_values
          = true) as H by (vm_compute; reflexivity).
  rewrite forallb_forall in H. intros r Hr. apply Z.eqb_eq. now apply H.
Qed.

(** X24: whatever byte is stored, [unpack] reads a variant tag of at most
    7 and a payment-id length of at most 31: a length of 32 is never read
    back. *)
Theorem unpack_bounds (val : db.extra_and_length) :
  0 <= fst (db.unpack val) <= 7 /\ 0 <= snd (db.unpack val) <= 31.
Proof.
  unfold db.unpack. cbv zeta. cbn [fst snd].
  assert (0 <= u8 val < 256) as Hrange by (unfold u8; apply Z.mod_pos_bound; lia).
  generalize (byte_values_In _ Hrange). generalize (u8 val). clear.
  assert (forallb (fun r => (0 <=? Z.land r 7) && (Z.land r 7 <=? 7)
                            && (0 <=? u8 (Z.shiftr r 3)) && (u8 (Z.shiftr r 3) <=? 31))
                  byte_values = true) as H by (vm_compute; reflexivity).
  rewrite forallb_forall in H. intros r Hr. specialize (H r Hr).
  rewrite !andb_true_iff, !Z.leb_le in H. lia.
Qed.

(** X25: a variant tag of three bits and a length of at most 31 come back
    from [unpack] as they went into [pack]. *)
Theorem unpack_pack_fits (val : db.extra) (length : Z) :
  0 <= val < 8 -> 0 <= length < 32 ->
  db.unpack (db.pack val length) = (val, length).
Proof.
  intros Hval Hlen.
  assert (forallb (fun v =>
                     forallb (fun l =>
                                (fst (db.unpack (db.pack v l)) =? v)
                                && (snd (db.unpack (db.pack v l)) =? l))
                             (map Z.of_nat (seq 0 32)))
                  (map Z.of_nat (seq 0 8)) = true) as H by (vm_compute; reflexivity).
  rewrite forallb_forall in H.
  assert (In val (map Z.of_nat (seq 0 8))) as Hv
    by (rewrite <- (Z2Nat.id val) by lia; apply in_map, in_seq; lia).
  specialize (H val Hv). rewrite forallb_forall in H.
  assert (In length (map Z.of_nat (seq 0 32))) as Hl
    by (rewrite <- (Z2Nat.id length) by lia; apply in_map, in_seq; lia).
  specialize (H length Hl). rewrite andb_true_iff, !Z.eqb_eq in H.
  destruct (db.unpack (db.pack val length)) as [v l]. cbn [fst snd] in H.
  destruct H as [-> ->]. reflexivity.
Qed.

Lemma unpack_pack_fits_witness :
  db.unpack (db.pack db.kCoinbaseAndRingct 8) = (db.kCoinbaseAndRingct, 8).
Proof.
  apply (unpack_pack_fits db.kCoinbaseAndRingct 8); unfold db.kCoinbaseAndRingct; lia.
Defined.

End packed_byte_more.

(** ** The locator and the time limit of chain sync *)

Section chain_sync_more.

Import rpc.GetHashesFast.

Lemma splice_hashes_closed (num : nat) :
  forall moved hashes : list db.hash,
    sync.splice_hashes num moved hashes
    = moved ++ rev (skipn (length hashes - num) hashes).
Proof.
  induction num as [|num IH]; intros moved hashes.
  - simpl. rewrite Nat.sub_0_r, skipn_all. simpl. now rewrite app_nil_r.
  - cbn [sync.splice_hashes].
    destruct hashes as [|h hashes]; [simpl; now rewrite app_nil_r|].
    destruct (@exists_last _ (h :: hashes) ltac:(discriminate)) as (init & l & E).
    rewrite E, IH, removelast_last, last_last, <- app_assoc.
    f_equal. rewrite length_app. simpl.
    replace (length init + 1 - S num)%nat with (length init - num)%nat by lia.
    rewrite (skipn_app (length init - num) init [l]).
    replace (length init - num - length init)%nat with 0%nat by lia.
    simpl. now rewrite rev_app_distr.
Qed.

(** X26: the locator that [sync_chain] sends after a round is the last ten
    hashes of the response (all of them if there are fewer), newest first,
    followed by the last hash of the locator before; it has between one
    and eleven entries. *)
Theorem next_known_hashes_closed (known hashes : list db.hash) :
  sync.next_known_hashes known hashes
  = rev (skipn (length hashes - 10) hashes) ++ [last known 0]
  /\ (1 <= length (sync.next_known_hashes known hashes) <= 11)%nat.
Proof.
  unfold sync.next_known_hashes. rewrite splice_hashes_closed. cbn [app].
  split; [reflexivity|].
  rewrite length_app, length_rev, length_skipn. simpl. lia.
Qed.

Lemma io_retry_blocked (before rest : list sync.io_attempt) :
  Forall would_block before ->
  sync.io_retry (before ++ rest) = sync.io_retry rest.
Proof.
  induction 1 as [|a before (Hneg & Hrun & Htime & Herr) Hb IH]; [reflexivity|].
  cbn [app sync.io_retry]. rewrite Hneg, Hrun. cbn [negb].
  destruct (Z.leb_spec sync.sync_rpc_timeout (sync.since_start a)); [lia|].
  destruct Herr as [-> | ->]; cbn; exact IH.
Qed.

(** X27: when [sync_chain]'s send keeps failing with [EINTR] or [EAGAIN]
    until an attempt is made 30 seconds or more after the first, the call
    ends with [DaemonConnectionFailure] in that round, without reading a
    response or touching storage. *)
Theorem sync_chain_send_times_out (h : db.hash) (known : list db.hash)
    (r : sync.round) (rounds : list sync.round)
    (before after : list sync.io_attempt) (a : sync.io_attempt) :
  sync.send_attempts r = before ++ a :: after ->
  Forall would_block before ->
  sync.negative a = true ->
  sync.is_running a = true ->
  sync.sync_rpc_timeout <= sync.since_start a ->
  sync.sync_chain (success tt) (success (h :: known)) (r :: rounds)
  = Some (Ok (failure (lws_code kDaemonConnectionFailure))).
Proof.
  intros Hsend Hbefore Hneg Hrun Htime.
  unfold sync.sync_chain. cbn [sync.sync_loop]. unfold sync.sync_round.
  rewrite Hsend, io_retry_blocked by exact Hbefore.
  cbn [sync.io_retry]. rewrite Hneg, Hrun. cbn [negb].
  destruct (Z.leb_spec sync.sync_rpc_timeout (sync.since_start a)); [reflexivity|lia].
Qed.

End chain_sync_more.

(** ** Waiting on the sockets *)

Section socket_wait_more.

(** X28: [wait] reports an aborted scan only when a poll came back ready
    with the parent (cancel) socket fired, and success only when a poll
    came back ready without it. *)
Theorem wait_outcomes (events : list mzmq.poll_event) (start timeout : Z) :
  (snd (mzmq.wait events start timeout) = Some (failure (lws_code kAbortScan)) ->
   exists ev, In ev events /\ 0 < mzmq.ready ev /\ mzmq.parent_revents ev = true)
  /\ (snd (mzmq.wait events start timeout) = Some (success tt) ->
      exists ev, In ev events /\ 0 < mzmq.ready ev /\ mzmq.parent_revents ev = false).
Proof.
  unfold mzmq.wait.
  generalize ({| mzmq.now := start; mzmq.timeout := timeout; mzmq.polled := [] |}).
  induction events as [|ev events IH]; intros st.
  - split; discriminate.
  - cbn [mzmq.wait_loop]. unfold mzmq.zmq_poll.
    destruct ((0 <=? mzmq.timeout st) && (mzmq.timeout st <=? mzmq.after ev)).
    + cbv iota beta zeta. change (0 =? 0) with true. cbv iota. cbn [snd].
      split; discriminate.
    + cbv iota beta zeta.
      destruct (mzmq.ready ev =? 0); [cbn [snd]; split; discriminate|].
      destruct (Z.ltb_spec 0 (mzmq.ready ev)) as [Hready|].
      * cbn [snd]. destruct (mzmq.parent_revents ev) eqn:Ep.
        -- split; [|discriminate]. intros _. exists ev. split; [now left|auto].
        -- split; [discriminate|]. intros _. exists ev. split; [now left|auto].
      * destruct (negb (mzmq.errno ev =? mzmq.EINTR)); [cbn [snd]; split; discriminate|].
        match goal with
        | |- context [mzmq.wait_loop events ?st'] => destruct (IH st') as [Ha Hs]
        end.
        split; intros Hres;
          [destruct (Ha Hres) as (e & Hin & Hr)|destruct (Hs Hres) as (e & Hin & Hr)];
          exists e; (split; [now right|exact Hr]).
Qed.

End socket_wait_more.

(** ** Reading unsigned numbers from JSON *)

Section json_numbers.

(** X29: [get_unsigned] gives a value exactly for an unsigned 64-bit
    integer no greater than [max], and gives that integer; it never
    reports an underflow. *)
Theorem get_unsigned_iff (src : json.Value) (max v : Z) :
  (json.get_unsigned src max = json.value_of v
   <-> src = json.Integer v /\ 0 <= v < 2 ^ 64 /\ v <= max)
  /\ json.get_unsigned src max <> json.error_of json.kUnderflow.
Proof.
  unfold json.get_unsigned, json.numeric_check.
  destruct src as [z|]; cbn [json.IsUint64 json.GetUint64 negb].
  - destruct (Z.leb_spec 0 z); cbn [andb negb].
    + destruct (Z.ltb_spec z (2 ^ 64)); cbn [negb].
      * destruct (Z.ltb_spec z 0); [lia|].
        destruct (Z.ltb_spec max z).
        -- split; [|discriminate]. split; [discriminate|]. intros ([= ->] & _ & ?). lia.
        -- split; [|discriminate]. split.
           ++ intros [= ->]. auto.
           ++ intros ([= ->] & _). reflexivity.
      * split; [|discriminate]. split; [discriminate|]. intros ([= ->] & ? & _). lia.
    + split; [|discriminate]. split; [discriminate|]. intros ([= ->] & ? & _). lia.
  - split; [|discriminate]. split; [discriminate|]. intros ([=] & _).
Qed.

End json_numbers.

(** ** The properties at work on the sample data *)

Section samples.

Import rpc.GetBlocksFast.

(** On the sample RingCT transfer the user's row carries [kRingct] and not
    [kCoinbase]. *)
Lemma scan_transaction_flags_witness :
  exists rows,
    lws.outputs_
      (nth 0 (fst (@scanner.scan_transaction sample.prim [sample.user] 51 0 None
                     sample.tx_ringct [200])) sample.user)
    = lws.outputs_ sample.user ++ rows
    /\ Forall (fun row =>
                 carries db.kCoinbase row = negb (has_ring_inputs sample.tx_ringct)
                 /\ carries db.kRingct row = amount_was_zero sample.tx_ringct row)
              rows.
Proof.
  apply (@scan_transaction_flags sample.prim [sample.user] 51 0 None sample.tx_ringct
           [200] 0%nat sample.user).
  - reflexivity.
  - reflexivity.
  - reflexivity.
  - reflexivity.
Defined.

Lemma scan_transaction_keeps_sorted_witness :
  sorted
    (lws.received_
       (nth 0 (fst (@scanner.scan_transaction sample.prim [sample.user] 51 0 None
                      sample.tx_mixed [200; 201])) sample.user)).
Proof.
  apply (@scan_transaction_keeps_sorted sample.prim [sample.user] 51 0 None sample.tx_mixed
           [200; 201] 0%nat sample.user).
  - reflexivity.
  - reflexivity.
  - repeat constructor.
Defined.

Lemma scan_transaction_received_witness :
  Permutation
    (lws.received_
       (nth 0 (fst (@scanner.scan_transaction sample.prim [sample.user] 51 0 None
                      sample.tx_mixed [200; 201])) sample.user))
    (lws.received_ sample.user
     ++ map db.output.id
          (skipn (length (lws.outputs_ sample.user))
             (lws.outputs_
                (nth 0 (fst (@scanner.scan_transaction sample.prim [sample.user] 51 0 None
                               sample.tx_mixed [200; 201])) sample.user)))).
Proof.
  apply (@scan_transaction_received sample.prim [sample.user] 51 0 None sample.tx_mixed
           [200; 201] 0%nat sample.user).
  - reflexivity.
  - reflexivity.
Defined.

Lemma scan_transaction_spends_known_witness :
  In (fst (100, {| db.spend.image := 42; db.spend.mixin_count := 2 |}))
     (lws.received_
        (nth 0 (fst (@scanner.scan_transaction sample.prim [sample.user] 51 0 None
                       sample.tx_mixed [200; 201])) sample.user)).
Proof.
  apply (@scan_transaction_spends_known sample.prim [sample.user] 51 0 None sample.tx_mixed
           [200; 201] 0%nat sample.user).
  - reflexivity.
  - reflexivity.
  - vm_compute. auto.
Defined.

Lemma scan_transaction_rows_owned_witness :
  lws.scan_height sample.user < 51
  /\ exists pub_key derived,
       @find_tx_extra_pub_key sample.prim (cryptonote.extra sample.tx_mixed) = Some pub_key
       /\ @generate_key_derivation sample.prim pub_key
            (lws.view_key (lws.immutable sample.user)) = Some derived
       /\ @row_backed sample.prim 51 0 sample.tx_mixed [200; 201] pub_key derived
            (lws.spend_public sample.user)
            (last_ring_size (cryptonote.vin sample.tx_mixed))
            (nth 1
               (lws.outputs_
                  (nth 0 (fst (@scanner.scan_transaction sample.prim [sample.user] 51 0
                                 None sample.tx_mixed [200; 201])) sample.user))
               (sample.out_of 0 0 0)).
Proof.
  apply (@scan_transaction_rows_owned sample.prim [sample.user] 51 0 None sample.tx_mixed
           [200; 201] 0%nat sample.user
           (nth 0 (fst (@scanner.scan_transaction sample.prim [sample.user] 51 0 None
                          sample.tx_mixed [200; 201])) sample.user)).
  - reflexivity.
  - reflexivity.
  - vm_compute. auto.
Defined.

Lemma scan_response_normal_witness :
  scan_batch.start_height
    (fst (@scan_batch.scan_response sample.prim fixtures.get_block_hash fixtures.users
            fixtures.response))
  = u64 (Response.start_height fixtures.response
         + size (Response.blocks fixtures.response) - 1)
  /\ scan_batch.blockchain
       (fst (@scan_batch.scan_response sample.prim fixtures.get_block_hash fixtures.users
               fixtures.response))
     = fixtures.get_block_hash (cryptonote.block_ (fixtures.entry_at 1))
       :: map (fun entry => fixtures.get_block_hash (cryptonote.block_ entry))
            (if Response.start_height fixtures.response =? 1
             then Response.blocks fixtures.response
             else tl (Response.blocks fixtures.response)).
Proof.
  apply (@scan_response_normal sample.prim fixtures.get_block_hash fixtures.users
           fixtures.response).
  - reflexivity.
  - vm_compute. discriminate.
  - reflexivity.
Defined.

Lemma pipelined_start_is_new_height_witness :
  start_height
    (fst (scan_loop.receive_head fixtures.request (success fixtures.response) mzmq.sent))
  = scan_batch.start_height
      (fst (@scan_batch.scan_response sample.prim fixtures.get_block_hash fixtures.users
              fixtures.response)).
Proof.
  apply (@pipelined_start_is_new_height sample.prim fixtures.get_block_hash fixtures.request
           fixtures.response mzmq.sent fixtures.users).
  - reflexivity.
  - vm_compute. discriminate.
  - reflexivity.
Defined.

Lemma scan_response_skips_witness :
  nth_error
    (scan_batch.users
       (fst (@scan_batch.scan_response sample.prim fixtures.get_block_hash fixtures.users
               fixtures.response))) 2
  = Some (lws.updated sample.user 52).
Proof.
  apply (@scan_response_skips sample.prim fixtures.get_block_hash fixtures.users
           fixtures.response 2%nat (lws.updated sample.user 52)).
  - reflexivity.
  - vm_compute. discriminate.
  - vm_compute. discriminate.
Defined.

Lemma scan_tail_committed_witness :
  length (map (fun user => lws.updated user 51)
            (scan_batch.users
               (fst (@scan_batch.scan_response sample.prim fixtures.get_block_hash
                       fixtures.users fixtures.response))))
  = length fixtures.users
  /\ Forall (fun u' =>
               lws.scan_height u'
               = u64 (Response.start_height fixtures.response
                      + size (Response.blocks fixtures.response) - 1)
               /\ lws.outputs_ u' = []
               /\ lws.spends_ u' = [])
            (map (fun user => lws.updated user 51)
               (scan_batch.users
                  (fst (@scan_batch.scan_response sample.prim fixtures.get_block_hash
                          fixtures.users fixtures.response)))).
Proof.
  apply (@scan_tail_committed sample.prim fixtures.get_block_hash fixtures.users _
           fixtures.response (success tt) fixtures.update).
  - vm_compute. discriminate.
  - reflexivity.
Defined.

Lemma thread_users_partition_witness :
  Permutation (concat (supervisor.thread_users fixtures.users 2)) fixtures.users
  /\ Forall (fun t => t <> []) (supervisor.thread_users fixtures.users 2)
  /\ Z.of_nat (length (supervisor.thread_users fixtures.users 2)) <= 2.
Proof. apply (thread_users_partition fixtures.users 2). lia. Defined.

Lemma thread_users_sorted_witness :
  Forall sorted_by_height (supervisor.thread_users fixtures.users 2)
  /\ sorted_by_height (concat (rev (supervisor.thread_users fixtures.users 2)))
  /\ Permutation (concat (rev (supervisor.thread_users fixtures.users 2))) fixtures.users.
Proof. apply (thread_users_sorted fixtures.users 2). lia. Defined.

Lemma get_unspent_outs_lists_witness :
  @rest_server.get_unspent_outs sample.prim (success fixtures.small_request)
    (success sample.reader) sample.generate_body false
  = (true,
     sample.generate_body 0
       (u64 (rest_server.total_amount
               (filter (rest_server.passes_filters
                          (rest_server.effective_threshold fixtures.small_request)
                          (rest_server.effective_mixin fixtures.small_request))
                  [sample.out_of 100 3 4; sample.out_of 101 20 0])))
       (map (fun out => (out, spend_images sample.reader out))
          (filter (rest_server.passes_filters
                     (rest_server.effective_threshold fixtures.small_request)
                     (rest_server.effective_mixin fixtures.small_request))
             [sample.out_of 100 3 4; sample.out_of 101 20 0]))).
Proof.
  apply (@get_unspent_outs_lists sample.prim fixtures.small_request sample.reader
           sample.generate_body false db.kActive sample.row
           [sample.out_of 100 3 4; sample.out_of 101 20 0]).
  - reflexivity.
  - reflexivity.
  - reflexivity.
  - reflexivity.
  - repeat constructor. exists []. reflexivity.
  - vm_compute. discriminate.
Defined.

Lemma get_address_info_totals_witness :
  @rest_api.get_address_info 60 sample.prim fixtures.credentials (success sample.reader)
    (success fixtures.last_block) fixtures.write_info false
  = (true, success "info"%string).
Proof.
  apply (@get_address_info_totals sample.prim 60 fixtures.credentials sample.reader
           fixtures.last_block fixtures.write_info false sample.row
           [sample.out_of 100 3 4; sample.out_of 101 20 0]).
  - reflexivity.
  - reflexivity.
  - repeat constructor; exists []; reflexivity.
Defined.

Lemma get_address_txs_groups_witness :
  exists txes,
    @rest_api.get_address_txs sample.prim fixtures.credentials (success sample.reader)
      (success fixtures.last_block) fixtures.write_txs false
    = (true,
       fixtures.write_txs
         {| rest_api.txs_total_received :=
              u64 (weighted_amount (fun _ => 1)
                     [sample.out_of 100 3 4; sample.out_of 101 20 0]);
            rest_api.txs_scanned_height := db.account.scan_height sample.row;
            rest_api.txs_start_height := db.account.start_height sample.row;
            rest_api.txs_blockchain_height := rest_api.id fixtures.last_block;
            rest_api.transactions := txes |})
    /\ u64 (txes_amount txes)
       = u64 (weighted_amount (fun _ => 1) [sample.out_of 100 3 4; sample.out_of 101 20 0])
    /\ no_equal_neighbours txes
    /\ (length txes <= length [sample.out_of 100 3 4; sample.out_of 101 20 0])%nat.
Proof.
  apply (@get_address_txs_groups sample.prim fixtures.credentials sample.reader
           fixtures.last_block fixtures.write_txs false sample.row
           [sample.out_of 100 3 4; sample.out_of 101 20 0]).
  - reflexivity.
  - reflexivity.
  - intros id. exists []. reflexivity.
Defined.

Lemma bind_address_splits_witness :
  rest_api.bind_address (other_code 1)
    (rest_api.http_scheme ++ fixtures.host ++ rest_api.colon :: fixtures.port)
  = success (fixtures.port, fixtures.host).
Proof.
  apply (bind_address_splits (other_code 1) fixtures.host fixtures.port).
  repeat constructor; discriminate.
Defined.

Lemma bind_address_default_port_witness :
  rest_api.bind_address (other_code 1) (rest_api.http_scheme ++ fixtures.port)
  = success (list_ascii_of_string "8080", fixtures.port)
  /\ forall host : list Ascii.ascii,
       rest_api.bind_address (other_code 1)
         (rest_api.http_scheme ++ host ++ rest_api.bracket :: fixtures.port)
       = success (list_ascii_of_string "8080", host ++ rest_api.bracket :: fixtures.port).
Proof.
  apply (bind_address_default_port (other_code 1) fixtures.port).
  repeat constructor; discriminate.
Defined.

Lemma sync_chain_send_times_out_witness :
  sync.sync_chain (success tt) (success [1; 2]) [fixtures.stuck_round]
  = Some (Ok (failure (lws_code kDaemonConnectionFailure))).
Proof.
  apply (sync_chain_send_times_out 1 [2] fixtures.stuck_round []
           [fixtures.blocked; fixtures.blocked] [] fixtures.late).
  - reflexivity.
  - repeat constructor; try (vm_compute; reflexivity); right; reflexivity.
  - reflexivity.
  - reflexivity.
  - vm_compute. discriminate.
Defined.

End samples.
